(** * type-explorer: the recursive type analysis engine

    A shallow embedding of [TypeAnalyzer] (src/index.ts) and the properties
    of its dispatch, depth guard, cycle guard, error recovery, path threading
    and array element aggregation.

    Modelling conventions.
    - A JavaScript value is either a primitive, a function (only the data the
      analyzer reads from it) or a reference [VRef l] into a read-only heap.
      Arrays and objects live in the heap, so sharing and cycles are
      expressible and reference identity is equality of locations.  An
      array may have holes.  Objects are ordinary objects: their own
      properties are listed in the host's enumeration order and proxies are
      not represented.  Reading [value.constructor.name] gives the same
      at every read: a class name, nothing, or a throw (an unreadable
      object).  Getters run where the analyzer reads a property of an
      object or of its prototype; the elements of an array, the [name] and
      the [constructor] of a function and the fields the built-in handlers
      read of their instances are data.
    - A string is the sequence of its UTF-16 code units, each below 256.
    - JavaScript numbers are restricted to integers ([Z]).  The only
      non-integer the analyzer computes, [frequency = count / arr.length],
      is a double, the quotient rounded to nearest; it is represented by the
      exact reduced quotient, which determines it, and no arithmetic is done
      on it.
    - [context.visited] is a [WeakSet] shared by reference between a context and
      every context spread from it; it is modelled as the state of a state
      monad.  The remaining fields of a context, [depth] and [path], are
      immutable values.
    - A thrown value is modelled by what the [catch] clauses of the analyzer
      do with it, [error instanceof Error ? error.message : String(error)]:
      either that expression yields a message, or evaluating it throws in
      turn.
    - A handler registered by a caller is a function of the heap, the value,
      the context and the current visited set which returns a description or
      throws, and leaves a visited set of its choice: it is handed the live
      [WeakSet] in [context.visited].  A handler that writes to the [path]
      array of its context is outside the model. *)

From Stdlib Require Import ZArith QArith String Ascii List Lia Sorted Permutation.
From stdpp Require Import base option list gmap sets strings pretty sorting.

Set Warnings "-register-all".

Local Open Scope string_scope.
Local Open Scope Z_scope.

(** ** Thrown values

    What a [catch (error)] clause of the analyzer can learn of the value it
    caught.  [Message msg] is an [Error] whose [message] is the string
    [msg], or a value that is not an [Error] and that [String] converts to
    [msg].  [Opaque raised] is a value for which the expression
    [error instanceof Error ? error.message : String(error)] itself throws
    [raised]: an object without a prototype, an object whose [toString]
    throws, an [Error] whose [message] is a throwing accessor.
    For [Object.create(null)] the value raised is the [TypeError] of the
    failed conversion. *)
Inductive Exn :=
| Message (msg : string)
| Opaque (raised : Exn).
Coercion Message : string >-> Exn.

(** A call either returns or throws. *)
Inductive Outcome (A : Type) :=
| Returned (a : A)
| Thrown (error : Exn).
Arguments Returned {A}.
Arguments Thrown {A}.

(** [error instanceof Error ? error.message : String(error)] *)
Definition describe (error : Exn) : Outcome string :=
  match error with
  | Message msg => Returned msg
  | Opaque raised => Thrown raised
  end.

(** ** Values and the heap *)

Definition loc := positive.

(** What [handleFunction] reads from a function value. *)
Record FunctionData := mkFunctionData {
  fn_name : string;              (* value.name *)
  fn_constructor : string;       (* value.constructor.name *)
  fn_source : Outcome string     (* value.toString(): the text, or what the call throws *)
}.

Inductive Value :=
| VUndefined
| VNull
| VString (s : string)
| VNumber (n : Z)
| VBoolean (b : bool)
| VBigInt (n : Z)
| VSymbol (description : option string)
| VFunction (f : FunctionData)
| VRef (l : loc).
Arguments VRef l%_positive_scope.

(** A getter either returns a value or throws. *)
Inductive Getter :=
| GetterReturns (v : Value)
| GetterThrows (error : Exn).

Inductive PropertySlot :=
| DataProperty (v : Value)
| AccessorProperty (get : option Getter) (hasSetter : bool).

Record OwnProperty := mkOwnProperty {
  prop_name : string;
  prop_enumerable : bool;
  prop_slot : PropertySlot
}.

(** A symbol-keyed own property: the symbol's description and the slot. *)
Record SymbolProperty := mkSymbolProperty {
  sym_description : option string;
  sym_slot : PropertySlot
}.

(** [Object.getPrototypeOf(value)]: absent, [Object.prototype], or some other
    prototype with the outcome of reading [prototype.constructor?.name] and
    its own property names.  Each name comes with the outcome of evaluating
    [typeof prototype[name] === "function"]: these reads run the getter of
    an accessor with the prototype as [this], which may throw. *)
Inductive Prototype :=
| NoPrototype
| ObjectPrototype
| ClassPrototype (constructorName : Outcome (option string))
    (members : list (string * Outcome bool)).

(** Internal slots of the built-in classes the analyzer knows. *)
Inductive InternalSlots :=
| OrdinarySlots
| DateSlots (valid : option (string * Z))     (* toISOString(), getTime(); None: invalid date *)
| RegExpSlots (source flags : string)
| MapSlots (entries : list (Value * Value))
| SetSlots (members : list Value)
| PromiseSlots
| ErrorSlots (name message : string) (stack : option string)
| TypedArraySlots (length byteLength byteOffset : Z) (isShared : bool).

Record ObjectData := mkObjectData {
  className : option string;                  (* value.constructor?.name *)
  ownProperties : list OwnProperty;           (* in the host's enumeration order *)
  ownSymbols : list SymbolProperty;
  prototype : Prototype;
  slots : InternalSlots
}.

(** An array is the list of its positions [0 .. length-1]; [None] is a
    hole, a position without an element.  An unreadable object is an
    object, not an array, on which [value.constructor.name] cannot be read:
    the read of [constructor], or of [name] on what it gave, throws
    [error]; the analyzer reads nothing else of such an object. *)
Inductive HeapObject :=
| ArrayObject (elements : list (option Value))
| PlainObject (o : ObjectData)
| UnreadableObject (error : Exn).

Definition Heap := loc -> HeapObject.

(** ** Analysis results *)

Inductive PathKey :=
| KeyString (s : string)
| KeyNumber (n : Z)
| KeySymbol (description : option string).

Definition Path := list PathKey.

Inductive PrimValue :=
| PString (s : string)
| PNumber (n : Z)
| PBoolean (b : bool)
| PBigInt (n : Z).

Record ParameterInfo := mkParameterInfo {
  param_count : Z;
  param_names : list string;
  param_error : option string
}.

Record PrototypeInfo := mkPrototypeInfo {
  proto_constructor : option string;
  proto_methods : option (list string)
}.

(** One element-type group of an array result, over the result type [R]. *)
Record ElementType (R : Type) := mkElementType {
  et_type : R;
  et_frequency : Q;
  et_count : Z;
  et_indices : list Z
}.
Arguments mkElementType {R}.
Arguments et_type {R}.
Arguments et_frequency {R}.
Arguments et_count {R}.
Arguments et_indices {R}.

Inductive AnalysisResult :=
| ErrorResult (error : string) (path : Path)
| MaxDepthResult (path : Path)
| CircularReferenceResult (path : Path)
| NullResult (path : Path)
| UndefinedResult (path : Path)
| PrimitiveResult (type : string) (value : PrimValue) (path : Path)
| SymbolResult (description : option string) (path : Path)
| FunctionResult (name : string) (isAsync isGenerator : bool)
    (parameters : option ParameterInfo) (path : Path)
| ArrayResult (length : Z) (elementTypes : list (ElementType AnalysisResult)) (path : Path)
| ObjectResult (constructorName : string)
    (properties : list (string * AnalysisResult))
    (symbolProperties : option (list (string * AnalysisResult)))
    (prototypeInfo : option PrototypeInfo) (path : Path)
| AccessorResult (hasGetter hasSetter : bool) (path : Path)
| DateResult (value : string) (timestamp : Z) (path : Path)
| RegExpResult (pattern flags : string) (path : Path)
| MapResult (size : Z) (entries : option (list (AnalysisResult * AnalysisResult))) (path : Path)
| SetResult (size : Z) (values : option (list AnalysisResult)) (path : Path)
| PromiseResult (path : Path)
| ErrorObjectResult (name message : string) (stack : option string) (path : Path)
| TypedArrayResult (type : string) (length byteLength byteOffset : Z) (isShared : bool)
    (path : Path)
| CustomResult (type : string) (fields : list (string * PrimValue)) (path : Path).

(** The [type] field of a result. *)
Definition result_type (r : AnalysisResult) : string :=
  match r with
  | ErrorResult _ _ => "error"
  | MaxDepthResult _ => "max-depth-reached"
  | CircularReferenceResult _ => "circular-reference"
  | NullResult _ => "null"
  | UndefinedResult _ => "undefined"
  | PrimitiveResult t _ _ => t
  | SymbolResult _ _ => "symbol"
  | FunctionResult _ _ _ _ _ => "function"
  | ArrayResult _ _ _ => "array"
  | ObjectResult _ _ _ _ _ => "object"
  | AccessorResult _ _ _ => "accessor"
  | DateResult _ _ _ => "Date"
  | RegExpResult _ _ _ => "RegExp"
  | MapResult _ _ _ => "Map"
  | SetResult _ _ _ => "Set"
  | PromiseResult _ => "Promise"
  | ErrorObjectResult _ _ _ _ => "Error"
  | TypedArrayResult t _ _ _ _ _ => t
  | CustomResult t _ _ => t
  end.

(** The [path] field of a result. *)
Definition result_path (r : AnalysisResult) : Path :=
  match r with
  | ErrorResult _ p | MaxDepthResult p | CircularReferenceResult p | NullResult p
  | UndefinedResult p | PrimitiveResult _ _ p | SymbolResult _ p
  | FunctionResult _ _ _ _ p | ArrayResult _ _ p | ObjectResult _ _ _ _ p
  | AccessorResult _ _ p | DateResult _ _ p | RegExpResult _ _ p | MapResult _ _ p
  | SetResult _ _ p | PromiseResult p | ErrorObjectResult _ _ _ p
  | TypedArrayResult _ _ _ _ _ p | CustomResult _ _ p => p
  end.

(** ** Configuration, contexts and handlers *)

Definition Visited := gset loc.

Record AnalyzerContext := mkContext {
  depth : Z;
  path : Path
}.

(** The typed-array constructors [registerBuiltInHandlers] iterates over. *)
Inductive TypedArrayKind :=
| Int8Array | Uint8Array | Uint8ClampedArray | Int16Array | Uint16Array
| Int32Array | Uint32Array | Float32Array | Float64Array | BigInt64Array
| BigUint64Array.

(** [TypedArrayConstructor.name] *)
Definition typedArrayName (k : TypedArrayKind) : string :=
  match k with
  | Int8Array => "Int8Array"
  | Uint8Array => "Uint8Array"
  | Uint8ClampedArray => "Uint8ClampedArray"
  | Int16Array => "Int16Array"
  | Uint16Array => "Uint16Array"
  | Int32Array => "Int32Array"
  | Uint32Array => "Uint32Array"
  | Float32Array => "Float32Array"
  | Float64Array => "Float64Array"
  | BigInt64Array => "BigInt64Array"
  | BigUint64Array => "BigUint64Array"
  end.

(** The handlers [registerBuiltInHandlers] installs in [config.customTypes]. *)
Inductive BuiltIn :=
| BuiltInDate
| BuiltInRegExp
| BuiltInMap
| BuiltInSet
| BuiltInPromise
| BuiltInError
| BuiltInTypedArray (kind : TypedArrayKind).

(** The [type] tag a built-in handler writes. *)
Definition builtInTag (b : BuiltIn) : string :=
  match b with
  | BuiltInDate => "Date"
  | BuiltInRegExp => "RegExp"
  | BuiltInMap => "Map"
  | BuiltInSet => "Set"
  | BuiltInPromise => "Promise"
  | BuiltInError => "Error"
  | BuiltInTypedArray k => typedArrayName k
  end.

(** A handler of the named-composite table: one of the analyzer's own, or a
    function of a caller, which returns or throws and leaves the visited
    set it was handed in the state of its choice. *)
Inductive TypeHandler :=
| BuiltInHandler (b : BuiltIn)
| CallerHandler
    (h : Heap -> Value -> AnalyzerContext -> Visited -> Outcome AnalysisResult * Visited).

Record AnalyzerConfig := mkConfig {
  maxDepth : Z;
  includeMethods : bool;
  includeGettersSetters : bool;
  includePrototype : bool;
  includePrivateProps : bool;
  customTypes : gmap string TypeHandler
}.

(** [Partial<AnalyzerConfig>] with every field absent or holding a value of
    its type. *)
Record PartialConfig := mkPartialConfig {
  p_maxDepth : option Z;
  p_includeMethods : option bool;
  p_includeGettersSetters : option bool;
  p_includePrototype : option bool;
  p_includePrivateProps : option bool;
  p_customTypes : option (gmap string TypeHandler)
}.

Definition typedArrays : list TypedArrayKind :=
  [ Int8Array; Uint8Array; Uint8ClampedArray; Int16Array; Uint16Array;
    Int32Array; Uint32Array; Float32Array; Float64Array; BigInt64Array;
    BigUint64Array ].

Definition builtInHandlers : list (string * TypeHandler) :=
  [ ("Date", BuiltInHandler BuiltInDate);
    ("RegExp", BuiltInHandler BuiltInRegExp);
    ("Map", BuiltInHandler BuiltInMap);
    ("Set", BuiltInHandler BuiltInSet);
    ("Promise", BuiltInHandler BuiltInPromise);
    ("Error", BuiltInHandler BuiltInError) ]
  ++ List.map (fun k => (typedArrayName k, BuiltInHandler (BuiltInTypedArray k))) typedArrays.

Definition registerCustomType (className : string) (handler : TypeHandler)
    (config : AnalyzerConfig) : AnalyzerConfig :=
  mkConfig (maxDepth config) (includeMethods config) (includeGettersSetters config)
    (includePrototype config) (includePrivateProps config)
    (<[className := handler]> (customTypes config)).

Definition registerBuiltInHandlers (config : AnalyzerConfig) : AnalyzerConfig :=
  fold_left (fun c th => registerCustomType (fst th) (snd th) c) builtInHandlers config.

(** The constructor on a configuration whose fields are absent or hold a
    value: the defaults are computed first and then overwritten by whatever
    the partial configuration carries ([...config]), so an explicit
    [maxDepth: 0] stays 0.  The [customTypes] of the caller is the very
    [Map] the analyzer then writes its built-in handlers to. *)
Definition TypeAnalyzer_new (config : PartialConfig) : AnalyzerConfig :=
  registerBuiltInHandlers
    (mkConfig (default 10 (p_maxDepth config))
       (default true (p_includeMethods config))
       (default true (p_includeGettersSetters config))
       (default true (p_includePrototype config))
       (default false (p_includePrivateProps config))
       (default ∅ (p_customTypes config))).

Definition emptyPartial : PartialConfig :=
  mkPartialConfig None None None None None None.

Definition withMaxDepth (d : Z) : PartialConfig :=
  mkPartialConfig (Some d) None None None None None.

Definition CONFIG_PRESETS_MINIMAL : PartialConfig :=
  mkPartialConfig (Some 3) (Some false) (Some false) (Some false) (Some false) None.
Definition CONFIG_PRESETS_STANDARD : PartialConfig :=
  mkPartialConfig (Some 10) (Some true) (Some true) (Some true) (Some false) None.
Definition CONFIG_PRESETS_DETAILED : PartialConfig :=
  mkPartialConfig (Some 20) (Some true) (Some true) (Some true) (Some true) None.

(** A field of the object a caller passes to the constructor: absent,
    present with the value [undefined] (which [Partial<AnalyzerConfig>]
    allows), or present with a value. *)
Inductive Field (A : Type) :=
| Absent
| Undefined
| Holds (a : A).
Arguments Absent {A}.
Arguments Undefined {A}.
Arguments Holds {A}.

Record ConfigObject := mkConfigObject {
  o_maxDepth : Field Z;
  o_includeMethods : Field bool;
  o_includeGettersSetters : Field bool;
  o_includePrototype : Field bool;
  o_includePrivateProps : Field bool;
  o_customTypes : Field (gmap string TypeHandler)
}.

(** What [new TypeAnalyzer(config)] gives: an analyzer; a [TypeError],
    thrown by [registerCustomType] when it calls [set] on a [customTypes]
    that is [undefined]; or an analyzer whose [maxDepth] is [undefined], for
    which both depth comparisons of the source are false and which the
    embedding, where [maxDepth] is an integer, does not cover. *)
Inductive Construction :=
| Constructed (config : AnalyzerConfig)
| ConstructorThrows
| WithoutDepthBound.

(** A field that holds a value, or is absent. *)
Definition held {A : Type} (f : Field A) : option A :=
  match f with
  | Holds a => Some a
  | Absent | Undefined => None
  end.

(** What [...config] leaves in a boolean option: the computed default when
    the field is absent, the caller's value when it holds one, and
    [undefined] when it was passed as [undefined]; every use of these
    options is a test of truthiness, which reads [undefined] as [false]. *)
Definition spread (f : Field bool) : option bool :=
  match f with
  | Absent => None
  | Undefined => Some false
  | Holds b => Some b
  end.

(** The constructor on every configuration object. *)
Definition TypeAnalyzer_constructor (config : ConfigObject) : Construction :=
  match o_customTypes config, o_maxDepth config with
  | Undefined, _ => ConstructorThrows
  | _, Undefined => WithoutDepthBound
  | customTypes, maxDepth =>
      Constructed
        (TypeAnalyzer_new
           (mkPartialConfig (held maxDepth)
              (spread (o_includeMethods config))
              (spread (o_includeGettersSetters config))
              (spread (o_includePrototype config))
              (spread (o_includePrivateProps config))
              (held customTypes)))
  end.

(** ** [JSON.stringify] of an analysis result

    [analyzeArrayElements] keys its groups on [JSON.stringify(elementType)].
    The text is built member by member in the order the source creates the
    fields; a member whose value is [undefined] is left out, a symbol inside
    [path] becomes [null], and a [bigint] makes the call throw a TypeError,
    which is the [None] below. *)

Definition dquote : string := String (ascii_of_nat 34) EmptyString.
Definition backslash : string := String (ascii_of_nat 92) EmptyString.

Definition hex_digit (n : N) : ascii :=
  ascii_of_N (if (n <? 10)%N then 48 + n else 87 + n)%N.

Definition escape_char (c : ascii) : string :=
  let n := N_of_ascii c in
  if (n =? 34)%N then backslash ++ dquote
  else if (n =? 92)%N then backslash ++ backslash
  else if (n =? 8)%N then backslash ++ "b"
  else if (n =? 12)%N then backslash ++ "f"
  else if (n =? 10)%N then backslash ++ "n"
  else if (n =? 13)%N then backslash ++ "r"
  else if (n =? 9)%N then backslash ++ "t"
  else if (n <? 32)%N then
    backslash ++ "u00" ++ String (hex_digit (n / 16)) (String (hex_digit (n mod 16)) EmptyString)
  else String c EmptyString.

Fixpoint escape (s : string) : string :=
  match s with
  | EmptyString => EmptyString
  | String c s' => escape_char c ++ escape s'
  end.

Definition quote (s : string) : string := dquote ++ escape s ++ dquote.

Definition member (k v : string) : string := quote k ++ ":" ++ v.
Definition object_text (ms : list string) : string := "{" ++ String.concat "," ms ++ "}".
Definition array_text (xs : list string) : string := "[" ++ String.concat "," xs ++ "]".
Definition bool_text (b : bool) : string := if b then "true" else "false".
Definition number_text (n : Z) : string := pretty n.

Definition optional_member (k : string) (v : option string) : list string :=
  match v with
  | Some t => [member k t]
  | None => []
  end.

Definition key_text (k : PathKey) : string :=
  match k with
  | KeyString s => quote s
  | KeyNumber n => number_text n
  | KeySymbol _ => "null"
  end.

Definition path_text (p : Path) : string := array_text (List.map key_text p).

Definition prim_text (v : PrimValue) : option string :=
  match v with
  | PString s => Some (quote s)
  | PNumber n => Some (number_text n)
  | PBoolean b => Some (bool_text b)
  | PBigInt _ => None
  end.

(** The quotient is spelled as its reduced fraction: two frequencies have the
    same spelling exactly when they are the same rational. *)
Definition frequency_text (q : Q) : string :=
  number_text (Qnum q) ++ "/" ++ number_text (Zpos (Qden q)).

Fixpoint all_some {A : Type} (l : list (option A)) : option (list A) :=
  match l with
  | [] => Some []
  | None :: _ => None
  | Some a :: l' => match all_some l' with Some r => Some (a :: r) | None => None end
  end.

Definition parameters_text (p : ParameterInfo) : string :=
  object_text ([ member "count" (number_text (param_count p));
                 member "names" (array_text (List.map quote (param_names p))) ]
               ++ optional_member "error" (option_map quote (param_error p))).

Definition prototype_text (p : PrototypeInfo) : string :=
  object_text (optional_member "constructor" (option_map quote (proto_constructor p))
               ++ optional_member "methods"
                    (option_map (fun ms => array_text (List.map quote ms)) (proto_methods p))).

Definition fields_text (fs : list (string * PrimValue)) : option (list string) :=
  all_some (List.map (fun kv => option_map (member (fst kv)) (prim_text (snd kv))) fs).

Fixpoint JSON_stringify (r : AnalysisResult) : option string :=
  let typ (t : string) := member "type" (quote t) in
  let pth (p : Path) := member "path" (path_text p) in
  let record (l : list (string * AnalysisResult)) : option string :=
    option_map object_text
      (all_some (List.map (fun kv => option_map (member (fst kv)) (JSON_stringify (snd kv))) l)) in
  match r with
  | ErrorResult e p => Some (object_text [typ "error"; member "error" (quote e); pth p])
  | MaxDepthResult p => Some (object_text [typ "max-depth-reached"; pth p])
  | CircularReferenceResult p => Some (object_text [typ "circular-reference"; pth p])
  | NullResult p => Some (object_text [typ "null"; pth p])
  | UndefinedResult p => Some (object_text [typ "undefined"; pth p])
  | PrimitiveResult t v p =>
      option_map (fun v' => object_text [typ t; member "value" v'; pth p]) (prim_text v)
  | SymbolResult d p =>
      Some (object_text ([typ "symbol"] ++ optional_member "description" (option_map quote d)
                         ++ [pth p]))
  | FunctionResult n a g ps p =>
      Some (object_text ([typ "function"; member "name" (quote n);
                          member "isAsync" (bool_text a); member "isGenerator" (bool_text g);
                          pth p]
                         ++ optional_member "parameters" (option_map parameters_text ps)))
  | ArrayResult len groups p =>
      option_map
        (fun gs => object_text [typ "array"; member "length" (number_text len);
                                member "elementTypes" (array_text gs); pth p])
        (all_some (List.map
           (fun g => match g with
                     | mkElementType t f c idx =>
                         option_map
                           (fun t' => object_text
                              [member "type" t'; member "frequency" (frequency_text f);
                               member "count" (number_text c);
                               member "indices" (array_text (List.map number_text idx))])
                           (JSON_stringify t)
                     end) groups))
  | ObjectResult c props syms proto p =>
      match record props with
      | None => None
      | Some props' =>
          match (match syms with
                 | None => Some []
                 | Some l => option_map (fun t => [member "symbolProperties" t]) (record l)
                 end) with
          | None => None
          | Some syms' =>
              Some (object_text ([typ "object"; member "constructor" (quote c); pth p;
                                  member "properties" props']
                                 ++ syms'
                                 ++ optional_member "prototype" (option_map prototype_text proto)))
          end
      end
  | AccessorResult g s p =>
      Some (object_text [typ "accessor"; member "hasGetter" (bool_text g);
                         member "hasSetter" (bool_text s); pth p])
  | DateResult v t p =>
      Some (object_text [typ "Date"; member "value" (quote v);
                         member "timestamp" (number_text t); pth p])
  | RegExpResult pat fl p =>
      Some (object_text [typ "RegExp"; member "pattern" (quote pat);
                         member "flags" (quote fl); pth p])
  | MapResult sz es p =>
      match (match es with
             | None => Some []
             | Some l =>
                 option_map (fun ts => [member "entries" (array_text ts)])
                   (all_some (List.map
                      (fun kv => match JSON_stringify (fst kv), JSON_stringify (snd kv) with
                                 | Some k, Some v =>
                                     Some (object_text [member "key" k; member "value" v])
                                 | _, _ => None
                                 end) l))
             end) with
      | None => None
      | Some es' =>
          Some (object_text ([typ "Map"; member "size" (number_text sz)] ++ es' ++ [pth p]))
      end
  | SetResult sz vs p =>
      match (match vs with
             | None => Some []
             | Some l =>
                 option_map (fun ts => [member "values" (array_text ts)])
                   (all_some (List.map JSON_stringify l))
             end) with
      | None => None
      | Some vs' =>
          Some (object_text ([typ "Set"; member "size" (number_text sz)] ++ vs' ++ [pth p]))
      end
  | PromiseResult p =>
      Some (object_text [typ "Promise"; member "state" (quote "pending"); pth p])
  | ErrorObjectResult n m st p =>
      Some (object_text ([typ "Error"; member "name" (quote n); member "message" (quote m)]
                         ++ optional_member "stack" (option_map quote st) ++ [pth p]))
  | TypedArrayResult t len bl bo sh p =>
      Some (object_text [typ t; member "length" (number_text len);
                         member "byteLength" (number_text bl);
                         member "byteOffset" (number_text bo);
                         member "isShared" (bool_text sh); pth p])
  | CustomResult t fs p =>
      option_map (fun fs' => object_text ([typ t] ++ fs' ++ [pth p])) (fields_text fs)
  end.

(** ** The analysis monad

    A computation reads and extends the visited set and ends by returning or
    throwing.  [None] is reserved for the recursion budget of the embedding
    running out; [analyze] below is proved never to produce it. *)

Definition M (A : Type) : Type := Visited -> option (Outcome A * Visited).

Definition ret {A : Type} (a : A) : M A := fun vis => Some (Returned a, vis).

Definition throw {A : Type} (error : Exn) : M A := fun vis => Some (Thrown error, vis).

Definition bind {A B : Type} (m : M A) (k : A -> M B) : M B :=
  fun vis =>
    match m vis with
    | None => None
    | Some (Returned a, vis') => k a vis'
    | Some (Thrown error, vis') => Some (Thrown error, vis')
    end.

(** [try { m } catch (error) { h(error) }] *)
Definition try_catch {A : Type} (m : M A) (h : Exn -> M A) : M A :=
  fun vis =>
    match m vis with
    | None => None
    | Some (Returned a, vis') => Some (Returned a, vis')
    | Some (Thrown error, vis') => h error vis'
    end.

Definition of_outcome {A : Type} (o : Outcome A) : M A := fun vis => Some (o, vis).

Definition visited_add (l : loc) : M unit := fun vis => Some (Returned tt, {[ l ]} ∪ vis).

Definition visited_has (l : loc) : M bool :=
  fun vis => Some (Returned (bool_decide (l ∈ vis)), vis).

Declare Scope analysis_scope.
Delimit Scope analysis_scope with analysis.
Notation "'let*' x ':=' m 'in' k" := (bind m (fun x => k))
  (at level 10, x name, m at level 100, k at level 200) : analysis_scope.
Notation "m ;; k" := (bind m (fun _ => k))
  (at level 100, k at level 200, right associativity) : analysis_scope.
Local Open Scope analysis_scope.

(** A [for ... of] loop that threads an accumulator. *)
Fixpoint for_each {A S : Type} (body : S -> A -> M S) (l : list A) (s : S) : M S :=
  match l with
  | [] => ret s
  | a :: l' => let* s' := body s a in for_each body l' s'
  end.

(** [Array.prototype.map] with an effectful callback. *)
Fixpoint map_each {A B : Type} (f : A -> M B) (l : list A) : M (list B) :=
  match l with
  | [] => ret []
  | a :: l' => let* b := f a in let* bs := map_each f l' in ret (b :: bs)
  end.

(** [Array.prototype.filter] with a callback that may throw. *)
Fixpoint filter_each {A : Type} (f : A -> M bool) (l : list A) : M (list A) :=
  match l with
  | [] => ret []
  | a :: l' =>
      let* keep := f a in
      let* rest := filter_each f l' in
      ret (if keep then a :: rest else rest)
  end.

(** ** Small pieces of the host runtime *)

Definition typeof (v : Value) : string :=
  match v with
  | VUndefined => "undefined"
  | VNull => "object"
  | VString _ => "string"
  | VNumber _ => "number"
  | VBoolean _ => "boolean"
  | VBigInt _ => "bigint"
  | VSymbol _ => "symbol"
  | VFunction _ => "function"
  | VRef _ => "object"
  end.

(** Truthiness of a possibly absent string: [undefined] and the empty string
    are falsy. *)
Definition truthy_name (n : option string) : option string :=
  match n with
  | Some EmptyString => None
  | other => other
  end.

(** [a || b] on a possibly absent string. *)
Definition or_else (n : option string) (fallback : string) : string :=
  default fallback (truthy_name n).

Definition startsWith (s pre : string) : bool := String.prefix pre s.

(** [value[prop]]: a data property yields its value, an accessor runs its
    getter, an accessor with no getter yields [undefined]. *)
Definition read_slot (s : PropertySlot) : Outcome Value :=
  match s with
  | DataProperty v => Returned v
  | AccessorProperty (Some (GetterReturns v)) _ => Returned v
  | AccessorProperty (Some (GetterThrows error)) _ => Thrown error
  | AccessorProperty None _ => Returned VUndefined
  end.

(** [descriptor?.get || descriptor?.set] *)
Definition is_accessor (s : PropertySlot) : bool :=
  match s with
  | DataProperty _ => false
  | AccessorProperty g st => bool_decide (g <> None) || st
  end.

Definition has_getter (s : PropertySlot) : bool :=
  match s with
  | AccessorProperty (Some _) _ => true
  | _ => false
  end.

Definition has_setter (s : PropertySlot) : bool :=
  match s with
  | AccessorProperty _ st => st
  | _ => false
  end.

(** [Symbol.prototype.toString] *)
Definition symbol_toString (d : option string) : string :=
  "Symbol(" ++ default EmptyString d ++ ")".

(** [map.set(key, value)] on a collection kept in insertion order: an
    existing key keeps its position and takes the new value. *)
Fixpoint record_set {A : Type} (key : string) (a : A) (r : list (string * A))
    : list (string * A) :=
  match r with
  | [] => [(key, a)]
  | (k, b) :: r' =>
      if String.eqb k key then (k, a) :: r' else (k, b) :: record_set key a r'
  end.

Fixpoint record_get {A : Type} (key : string) (r : list (string * A)) : option A :=
  match r with
  | [] => None
  | (k, b) :: r' => if String.eqb k key then Some b else record_get key r'
  end.

(** [object[key] = value] on an object that was created by the literal [{}]
    and is only written to in this way; [r] lists its own properties.  The
    key ["__proto__"] is the accessor inherited from [Object.prototype]: the
    assignment calls its setter, which replaces the prototype of the object
    when the value is an object and does nothing otherwise, and in either
    case creates no own property. *)
Definition property_assign {A : Type} (key : string) (a : A) (r : list (string * A))
    : list (string * A) :=
  if String.eqb key "__proto__" then r else record_set key a r.

(** *** [analyzeFunctionParameters] *)

(** The white space and line terminators [String.prototype.trim] strips,
    among the code units below 256: tab to carriage return, space, and the
    no-break space. *)
Definition is_white (c : ascii) : bool :=
  let n := N_of_ascii c in
  ((n =? 32) || ((9 <=? n) && (n <=? 13)) || (n =? 160))%N.

Fixpoint trim_start (s : string) : string :=
  match s with
  | String c s' => if is_white c then trim_start s' else s
  | EmptyString => EmptyString
  end.

Definition trim (s : string) : string :=
  String.rev (trim_start (String.rev (trim_start s))).

(** The text after the first occurrence of [c], if any. *)
Fixpoint after_char (c : ascii) (s : string) : option string :=
  match s with
  | EmptyString => None
  | String d s' => if Ascii.eqb c d then Some s' else after_char c s'
  end.

(** The text before the first occurrence of [c], if any. *)
Fixpoint before_char (c : ascii) (s : string) : option string :=
  match s with
  | EmptyString => None
  | String d s' =>
      if Ascii.eqb c d then Some EmptyString
      else option_map (String d) (before_char c s')
  end.

(** [s.split(",")] *)
Fixpoint split_commas (s : string) (cur : string) : list string :=
  match s with
  | EmptyString => [String.rev cur]
  | String c s' =>
      if Ascii.eqb c ","%char then String.rev cur :: split_commas s' EmptyString
      else split_commas s' (String c cur)
  end.

Definition nonempty (s : string) : bool :=
  match s with
  | EmptyString => false
  | _ => true
  end.

(** [funcStr.match(/\(([\s\S]*?)\)/)]: the shortest text between the first
    opening parenthesis and the next closing one. *)
Definition args_match (funcStr : string) : option string :=
  match after_char "("%char funcStr with
  | Some rest => before_char ")"%char rest
  | None => None
  end.

(** The body of the [try] block, [funcStr] being what [func.toString()]
    returned. *)
Definition parameters_of (funcStr : string) : ParameterInfo :=
  match args_match funcStr with
  | None => mkParameterInfo 0 [] None
  | Some args =>
      let paramStr := trim args in
      if nonempty paramStr then
        let paramNames := List.filter nonempty (List.map trim (split_commas paramStr EmptyString)) in
        mkParameterInfo (Z.of_nat (List.length paramNames)) paramNames None
      else mkParameterInfo 0 [] None
  end.

(** When [func.toString()] throws, the [catch] clause reports the message of
    what was thrown in the [error] field; when that message cannot be had,
    the clause itself throws. *)
Definition analyzeFunctionParameters (func : FunctionData) : Outcome ParameterInfo :=
  match fn_source func with
  | Returned funcStr => Returned (parameters_of funcStr)
  | Thrown error =>
      match describe error with
      | Returned msg => Returned (mkParameterInfo 0 [] (Some msg))
      | Thrown raised => Thrown raised
      end
  end.

(** ** The analyzer *)

(** An entry of the [typeMap] of [analyzeArrayElements]. *)
Record TypeMapEntry := mkTypeMapEntry {
  tm_type : AnalysisResult;
  tm_count : Z;
  tm_indices : list Z
}.

(** [arr.forEach((element, index) => ...)] visits the elements with their
    positions, in increasing order, and skips the holes. *)
Fixpoint indexed_from {A : Type} (i : Z) (l : list (option A)) : list (Z * A) :=
  match l with
  | [] => []
  | Some a :: l' => (i, a) :: indexed_from (i + 1) l'
  | None :: l' => indexed_from (i + 1) l'
  end.

(** [Array.prototype.sort] is stable; insertion of each element in front of
    the sorted remainder of the array, before the first element it does not
    have to follow, realises it. *)
Fixpoint sort_insert {A : Type} (cmp : A -> A -> Z) (x : A) (l : list A) : list A :=
  match l with
  | [] => [x]
  | y :: l' => if cmp x y <=? 0 then x :: y :: l' else y :: sort_insert cmp x l'
  end.

Fixpoint sort {A : Type} (cmp : A -> A -> Z) (l : list A) : list A :=
  match l with
  | [] => []
  | x :: l' => sort_insert cmp x (sort cmp l')
  end.

(** [count / arr.length], as the exact quotient that the double stands
    for. *)
Definition divide (count len : Z) : Q := Qred (Qmake count (Z.to_pos len)).

Definition stringify_or_throw (r : AnalysisResult) : M string :=
  match JSON_stringify r with
  | Some text => ret text
  | None => throw "Do not know how to serialize a BigInt"
  end.

(** [[...context.path, key]] *)
Definition extend (p : Path) (key : PathKey) : Path := (p ++ [key])%list.

(** The object a [catch (error)] clause of the analyzer builds: an [error]
    result with the message of what was caught, at the path [p].  Where the
    message cannot be had the clause throws what getting it threw. *)
Definition error_result (p : Path) (error : Exn) : M AnalysisResult :=
  let* msg := of_outcome (describe error) in
  ret (ErrorResult msg p).

(** The [try ... catch] of [analyze]: a computation that threw ends with an
    [error] result at the path of the context, or with the throw of the
    [catch] clause. *)
Definition catching (context : AnalyzerContext) (m : M AnalysisResult) : M AnalysisResult :=
  try_catch m (error_result (path context)).

Section Analyzer.

Variable config : AnalyzerConfig.
Variable heap : Heap.

(** The recursive calls [this.analyze(...)] made by the handlers. *)
Variable self : Value -> AnalyzerContext -> M AnalysisResult.

Definition call_analyze (value : Value) (context : AnalyzerContext) : M AnalysisResult :=
  self value context.

Definition handleNull (context : AnalyzerContext) : M AnalysisResult :=
  ret (NullResult (path context)).

Definition handleUndefined (context : AnalyzerContext) : M AnalysisResult :=
  ret (UndefinedResult (path context)).

Definition handlePrimitive (value : PrimValue) (context : AnalyzerContext) : M AnalysisResult :=
  let type := match value with
              | PString _ => "string"
              | PNumber _ => "number"
              | PBoolean _ => "boolean"
              | PBigInt _ => "bigint"
              end in
  ret (PrimitiveResult type value (path context)).

Definition handleSymbol (description : option string) (context : AnalyzerContext)
    : M AnalysisResult :=
  ret (SymbolResult description (path context)).

Definition handleFunction (value : FunctionData) (context : AnalyzerContext)
    : M AnalysisResult :=
  let* parameters :=
    if includeMethods config
    then let* info := of_outcome (analyzeFunctionParameters value) in ret (Some info)
    else ret None in
  ret (FunctionResult
         (or_else (Some (fn_name value)) "(anonymous)")
         (String.eqb (fn_constructor value) "AsyncFunction")
         (String.eqb (fn_constructor value) "GeneratorFunction")
         parameters
         (path context)).

(** The callback of [arr.forEach] in [analyzeArrayElements]. *)
Definition elementStep (context : AnalyzerContext)
    (typeMap : list (string * TypeMapEntry)) (ie : Z * Value)
    : M (list (string * TypeMapEntry)) :=
  let index := fst ie in
  let newContext := mkContext (depth context + 1) (extend (path context) (KeyNumber index)) in
  let* elementType := call_analyze (snd ie) newContext in
  let* typeKey := stringify_or_throw elementType in
  match record_get typeKey typeMap with
  | None => ret (record_set typeKey (mkTypeMapEntry elementType 1 [index]) typeMap)
  | Some entry =>
      ret (record_set typeKey
             (mkTypeMapEntry (tm_type entry) (tm_count entry + 1)
                (tm_indices entry ++ [index])%list)
             typeMap)
  end.

Definition analyzeArrayElements (arr : list (option Value)) (context : AnalyzerContext)
    : M (list (ElementType AnalysisResult)) :=
  let* typeMap := for_each (elementStep context) (indexed_from 0 arr) [] in
  ret (sort (fun a b => et_count b - et_count a)
         (List.map
            (fun e => mkElementType (tm_type (snd e))
                        (divide (tm_count (snd e)) (Z.of_nat (List.length arr)))
                        (tm_count (snd e)) (tm_indices (snd e)))
            typeMap)).

Definition handleArray (l : loc) (value : list (option Value)) (context : AnalyzerContext)
    : M AnalysisResult :=
  visited_add l ;;
  let* elementTypes := analyzeArrayElements value context in
  ret (ArrayResult (Z.of_nat (List.length value)) elementTypes (path context)).

(** The [prototype] field: the name of the constructor is read on the
    prototype, then, with [includeMethods], the names of the prototype are
    filtered by reading each of them on the prototype; the first read that
    throws ends the call of [handleObject]. *)
Definition prototype_info (o : ObjectData) : M (option PrototypeInfo) :=
  if includePrototype config then
    match prototype o with
    | ClassPrototype c members =>
        let* name := of_outcome c in
        if includeMethods config then
          let* methods := filter_each (fun m => of_outcome (snd m)) members in
          ret (Some (mkPrototypeInfo name (Some (List.map fst methods))))
        else ret (Some (mkPrototypeInfo name None))
    | NoPrototype | ObjectPrototype => ret None
    end
  else ret None.

(** The [try { ... } catch] around the descent into one member, written
    twice in [handleObject]: once for string keys, once for symbols. *)
Definition analyzeMember (context : AnalyzerContext) (key : PathKey) (slot : PropertySlot)
    : M AnalysisResult :=
  try_catch
    (let newContext := mkContext (depth context + 1) (extend (path context) key) in
     let* v := of_outcome (read_slot slot) in
     call_analyze v newContext)
    (error_result (extend (path context) key)).

(** [!this.config.includePrivateProps && prop.startsWith("#")] *)
Definition skipped (p : OwnProperty) : bool :=
  negb (includePrivateProps config) && startsWith (prop_name p) "#".

(** [this.config.includeGettersSetters && (descriptor?.get || descriptor?.set)] *)
Definition shortcut (p : OwnProperty) : bool :=
  includeGettersSetters config && is_accessor (prop_slot p).

(** One iteration of [for (const prop of propertyNames)]. *)
Definition propertyStep (context : AnalyzerContext)
    (properties : list (string * AnalysisResult)) (p : OwnProperty)
    : M (list (string * AnalysisResult)) :=
  let prop := prop_name p in
  if skipped p then ret properties
  else if shortcut p then
    ret (property_assign prop
           (AccessorResult (has_getter (prop_slot p)) (has_setter (prop_slot p))
              (extend (path context) (KeyString prop)))
           properties)
  else
    let* r := analyzeMember context (KeyString prop) (prop_slot p) in
    ret (property_assign prop r properties).

(** One iteration of [for (const sym of Object.getOwnPropertySymbols(value))]. *)
Definition symbolStep (context : AnalyzerContext)
    (symbolProps : list (string * AnalysisResult)) (s : SymbolProperty)
    : M (list (string * AnalysisResult)) :=
  let* r :=
    analyzeMember context (KeyString (or_else (sym_description s) "Symbol")) (sym_slot s) in
  ret (property_assign (symbol_toString (sym_description s)) r symbolProps).

(** [Object.getOwnPropertyNames(value)] or [Object.keys(value)]. *)
Definition propertyNames (value : ObjectData) : list OwnProperty :=
  if includePrivateProps config then ownProperties value
  else List.filter prop_enumerable (ownProperties value).

Definition handleObject (l : loc) (value : ObjectData) (context : AnalyzerContext)
    : M AnalysisResult :=
  visited_add l ;;
  let* properties := for_each (propertyStep context) (propertyNames value) [] in
  let* symbolProps := for_each (symbolStep context) (ownSymbols value) [] in
  let* prototypeInfo := prototype_info value in
  ret (ObjectResult (or_else (className value) "Object") properties
         (match symbolProps with [] => None | _ => Some symbolProps end)
         prototypeInfo (path context)).

(** The handlers of [registerBuiltInHandlers], applied to the internal
    slots of the object; the [Promise] handler reads nothing of its
    value.  An object that carries another built-in class name without the
    matching slots (a user class that shadows the name) is outside the
    model: the call is made to throw a TypeError, which is what the host
    does for [Date] and for [Map]/[Set] below the depth bound. *)
Definition apply_builtin (b : BuiltIn) (value : ObjectData) (context : AnalyzerContext)
    : M AnalysisResult :=
  match b, slots value with
  | BuiltInDate, DateSlots (Some (iso, time)) => ret (DateResult iso time (path context))
  | BuiltInDate, DateSlots None => throw "Invalid time value"
  | BuiltInRegExp, RegExpSlots source flags => ret (RegExpResult source flags (path context))
  | BuiltInMap, MapSlots entries =>
      let size := Z.of_nat (List.length entries) in
      if maxDepth config >? depth context then
        let* es :=
          map_each
            (fun kv =>
               let* k := call_analyze (fst kv) (mkContext (depth context + 1) (path context)) in
               let* v := call_analyze (snd kv) (mkContext (depth context + 1) (path context)) in
               ret (k, v))
            entries in
        ret (MapResult size (Some es) (path context))
      else ret (MapResult size None (path context))
  | BuiltInSet, SetSlots members =>
      let size := Z.of_nat (List.length members) in
      if maxDepth config >? depth context then
        let* vs :=
          map_each
            (fun v => call_analyze v (mkContext (depth context + 1) (path context)))
            members in
        ret (SetResult size (Some vs) (path context))
      else ret (SetResult size None (path context))
  | BuiltInPromise, _ => ret (PromiseResult (path context))
  | BuiltInError, ErrorSlots name message stack =>
      ret (ErrorObjectResult name message stack (path context))
  | BuiltInTypedArray kind, TypedArraySlots len byteLength byteOffset isShared =>
      ret (TypedArrayResult (typedArrayName kind) len byteLength byteOffset isShared
             (path context))
  | _, _ => throw "TypeError"
  end.

Definition apply_handler (h : TypeHandler) (l : loc) (value : ObjectData)
    (context : AnalyzerContext) : M AnalysisResult :=
  match h with
  | BuiltInHandler b => apply_builtin b value context
  | CallerHandler f => fun vis => Some (f heap (VRef l) context vis)
  end.

(** [this.config.customTypes.get(value.constructor.name)], guarded by
    [value?.constructor?.name] being truthy. *)
Definition customHandler (value : ObjectData) : option TypeHandler :=
  match truthy_name (className value) with
  | Some name => customTypes config !! name
  | None => None
  end.

(** The body of the [try] block of [analyze] after the depth guard.  The
    baseline table holds a handler for every [typeof] result, so the test
    [typeHandlers.has(baseType) && baseType !== "object"] sends every
    non-null primitive and every function to its baseline handler and
    leaves exactly the heap references. *)
Definition dispatch (value : Value) (context : AnalyzerContext) : M AnalysisResult :=
  match value with
  | VNull => handleNull context
  | VUndefined => handleUndefined context
  | VString s => handlePrimitive (PString s) context
  | VNumber n => handlePrimitive (PNumber n) context
  | VBoolean b => handlePrimitive (PBoolean b) context
  | VBigInt n => handlePrimitive (PBigInt n) context
  | VSymbol d => handleSymbol d context
  | VFunction f => handleFunction f context
  | VRef l =>
      match heap l with
      | ArrayObject elements => handleArray l elements context
      | PlainObject o =>
          let* seen := visited_has l in
          if seen then ret (CircularReferenceResult (path context))
          else
            match customHandler o with
            | Some h => apply_handler h l o context
            | None => handleObject l o context
            end
      | UnreadableObject error =>
          let* seen := visited_has l in
          if seen then ret (CircularReferenceResult (path context))
          else throw error
      end
  end.

(** [analyze]: the depth guard, the dispatch, and the [catch] that turns
    what was thrown into an [error] result at this node's path. *)
Definition analyze_body (value : Value) (context : AnalyzerContext) : M AnalysisResult :=
  catching context
    (if depth context >? maxDepth config
     then ret (MaxDepthResult (path context))
     else dispatch value context).

End Analyzer.

(** The recursion of [analyze] through its handlers, unrolled [fuel] times. *)
Fixpoint analyzeF (config : AnalyzerConfig) (heap : Heap) (fuel : nat)
    : Value -> AnalyzerContext -> M AnalysisResult :=
  match fuel with
  | O => fun _ _ _ => None
  | S n => analyze_body config heap (analyzeF config heap n)
  end.

(** Every recursive call is one level deeper and a call beyond [maxDepth]
    returns at once, so [maxDepth - depth + 2] unrollings are enough. *)
Definition levels (config : AnalyzerConfig) (context : AnalyzerContext) : nat :=
  S (Z.to_nat (maxDepth config - depth context + 1)).

Definition analyze (config : AnalyzerConfig) (heap : Heap)
    (value : Value) (context : AnalyzerContext) : M AnalysisResult :=
  analyzeF config heap (levels config context) value context.

(** The default context of a top-level call. *)
Definition rootContext : AnalyzerContext := mkContext 0 [].

Definition analyzeRoot (config : AnalyzerConfig) (heap : Heap) (value : Value)
    : option (Outcome AnalysisResult) :=
  option_map fst (analyze config heap value rootContext ∅).

(** ** Vocabulary of the properties *)

Definition Analyze := Value -> AnalyzerContext -> M AnalysisResult.

(** Two candidate recursive calls agree on the contexts selected by [P]. *)
Definition agree_on (P : AnalyzerContext -> Prop) (f g : Analyze) : Prop :=
  forall v c vis, P c -> f v c vis = g v c vis.

(** [c] is what a descent from [context] into a keyed member receives: one
    level deeper, the path extended by one key. *)
Definition descends_from (context c : AnalyzerContext) : Prop :=
  depth c = depth context + 1 /\ exists key, path c = extend (path context) key.

(** [c] is what the Map and Set handlers pass on: one level deeper, the
    path as it is. *)
Definition deepens (context c : AnalyzerContext) : Prop :=
  depth c = depth context + 1 /\ path c = path context.

Definition one_deeper (context c : AnalyzerContext) : Prop :=
  depth c = depth context + 1.

(** The locations the analyzer itself records in the visited set: arrays,
    and objects for which no named-composite handler is found. *)
Definition tracked (config : AnalyzerConfig) (heap : Heap) (l : loc) : Prop :=
  match heap l with
  | ArrayObject _ => True
  | PlainObject o => customHandler config o = None
  | UnreadableObject _ => False
  end.

(** The handlers registered by a caller hand back the visited set as they
    found it. *)
Definition callers_spare_visited (config : AnalyzerConfig) (heap : Heap) : Prop :=
  forall name f value context vis,
    customTypes config !! name = Some (CallerHandler f) ->
    snd (f heap value context vis) = vis.

(** [vis'] extends [vis], and only by tracked locations. *)
Definition extends_by_tracked (config : AnalyzerConfig) (heap : Heap) (vis vis' : Visited)
    : Prop :=
  vis ⊆ vis' /\ forall l, l ∈ vis' -> l ∈ vis \/ tracked config heap l.

(** What a call of the analyzer does to the visited set: as long as the
    handlers of the caller leave it alone, it grows by tracked locations. *)
Definition grows (config : AnalyzerConfig) (heap : Heap) (vis vis' : Visited) : Prop :=
  callers_spare_visited config heap -> extends_by_tracked config heap vis vis'.

(** A computation that always ends (returning or throwing) and lets the
    visited set grow by tracked locations only. *)
Definition steady (config : AnalyzerConfig) (heap : Heap) {A : Type} (m : M A) : Prop :=
  forall vis, exists o vis', m vis = Some (o, vis') /\ grows config heap vis vis'.

(** What the handlers need of their recursive calls at the contexts [P]. *)
Definition steady_call (config : AnalyzerConfig) (heap : Heap)
    (P : AnalyzerContext -> Prop) (self : Analyze) : Prop :=
  forall v c, P c -> steady config heap (self v c).

(** What the property loop of [handleObject] has recorded for the property
    [p], started in the visited set [vis]: the accessor description, or the
    result the descent into [p] returned in the visited set [vis1] the loop
    had reached by then. *)
Definition recorded (config : AnalyzerConfig) (heap : Heap) (self : Analyze)
    (context : AnalyzerContext) (p : OwnProperty) (vis : Visited)
    (props : list (string * AnalysisResult)) : Prop :=
  if shortcut config p then
    record_get (prop_name p) props
    = Some (AccessorResult (has_getter (prop_slot p)) (has_setter (prop_slot p))
              (extend (path context) (KeyString (prop_name p))))
  else
    exists vis1 vis2 r,
      grows config heap vis vis1 /\
      analyzeMember self context (KeyString (prop_name p)) (prop_slot p) vis1
      = Some (Returned r, vis2) /\
      record_get (prop_name p) props = Some r.

(** Every handler registered by a caller returns a result at the path of
    the context it was given, as the README asks of it
    ([path: [...context.path]]). *)
Definition callers_keep_path (config : AnalyzerConfig) (heap : Heap) : Prop :=
  forall name f value context vis r vis',
    customTypes config !! name = Some (CallerHandler f) ->
    f heap value context vis = (Returned r, vis') ->
    result_path r = path context.

(** The recursive call returns results at the path of the context it gets. *)
Definition pathed_call (self : Analyze) : Prop :=
  forall v c vis r vis', self v c vis = Some (Returned r, vis') -> result_path r = path c.

(** [r] sits one key below [parent]. *)
Definition one_key_below (parent : Path) (r : AnalysisResult) : Prop :=
  exists key, result_path r = extend parent key.

(** A thrown value that has a message, and an outcome that is not the throw
    of a value without one. *)
Definition has_message (error : Exn) : bool :=
  match error with
  | Message _ => true
  | Opaque _ => false
  end.

Definition plain {A : Type} (o : Outcome A) : bool :=
  match o with
  | Returned _ => true
  | Thrown error => has_message error
  end.

(** A value that is not a function whose [toString] throws a value without
    a message. *)
Definition plain_value (v : Value) : bool :=
  match v with
  | VFunction f => plain (fn_source f)
  | _ => true
  end.

(** The entries of a Map analyzed in turn by [self] under the context [c],
    the key before the value, each call starting in the visited set the
    call before it left: [es] are the results, [vis'] is the visited set at
    the end. *)
Inductive entries_analysed (self : Analyze) (c : AnalyzerContext)
    : list (Value * Value) -> Visited -> list (AnalysisResult * AnalysisResult) -> Visited
      -> Prop :=
| entries_done vis : entries_analysed self c [] vis [] vis
| entries_next k v rest vis rk vis1 rv vis2 es vis3 :
    self k c vis = Some (Returned rk, vis1) ->
    self v c vis1 = Some (Returned rv, vis2) ->
    entries_analysed self c rest vis2 es vis3 ->
    entries_analysed self c ((k, v) :: rest) vis ((rk, rv) :: es) vis3.

(** The members of a Set analyzed in turn. *)
Inductive members_analysed (self : Analyze) (c : AnalyzerContext)
    : list Value -> Visited -> list AnalysisResult -> Visited -> Prop :=
| members_done vis : members_analysed self c [] vis [] vis
| members_next v rest vis r vis1 rs vis2 :
    self v c vis = Some (Returned r, vis1) ->
    members_analysed self c rest vis1 rs vis2 ->
    members_analysed self c (v :: rest) vis (r :: rs) vis2.


(** ** Sample values *)

Definition dataProp (name : string) (v : Value) : OwnProperty :=
  mkOwnProperty name true (DataProperty v).

(** An object literal [{ k1: v1, ... }]. *)
Definition objectLiteral (props : list (string * Value)) : ObjectData :=
  mkObjectData (Some "Object") (List.map (fun kv => dataProp (fst kv) (snd kv)) props) []
    ObjectPrototype OrdinarySlots.

(** An instance of a user class with the given data fields. *)
Definition instanceOf (cls : string) (props : list (string * Value)) : ObjectData :=
  mkObjectData (Some cls) (List.map (fun kv => dataProp (fst kv) (snd kv)) props) []
    (ClassPrototype (Returned (Some cls)) [("constructor", Returned true)]) OrdinarySlots.

Definition builtInObject (cls : string) (s : InternalSlots) : ObjectData :=
  mkObjectData (Some cls) [] [] (ClassPrototype (Returned (Some cls)) [("constructor", Returned true)]) s.

(** An array literal [[v1, ...]], without holes. *)
Definition arrayLiteral (elements : list Value) : HeapObject :=
  ArrayObject (List.map Some elements).

Definition emptyObject : HeapObject := PlainObject (objectLiteral []).

Definition defaultConfig : AnalyzerConfig := TypeAnalyzer_new emptyPartial.

(** The handler registered for [value], when it is a caller's, does not
    return a result tagged [tag] on this call. *)
Definition caller_output_untagged (config : AnalyzerConfig) (heap : Heap)
    (value : Value) (context : AnalyzerContext) (vis : Visited) (tag : string) : Prop :=
  forall l o f r vis',
    value = VRef l -> heap l = PlainObject o ->
    customHandler config o = Some (CallerHandler f) ->
    f heap value context vis = (Returned r, vis') ->
    result_type r <> tag.

(** A caller's handler for the class [Point], in the style of the README:
    it reports the [x] field and the path of the context. *)
Definition numberField (heap : Heap) (value : Value) (name : string) : PrimValue :=
  match value with
  | VRef l =>
      match heap l with
      | PlainObject o =>
          match List.find (fun p => String.eqb (prop_name p) name) (ownProperties o) with
          | Some (mkOwnProperty _ _ (DataProperty (VNumber n))) => PNumber n
          | _ => PNumber 0
          end
      | ArrayObject _ | UnreadableObject _ => PNumber 0
      end
  | _ => PNumber 0
  end.

Definition pointHandler (heap : Heap) (value : Value) (context : AnalyzerContext)
    (visited : Visited) : Outcome AnalysisResult * Visited :=
  (Returned (CustomResult "Point" [("x", numberField heap value "x")] (path context)),
   visited).

Definition pointConfig : AnalyzerConfig :=
  registerCustomType "Point" (CallerHandler pointHandler) defaultConfig.

(** [{ a: { b: { c: 1 } } }] *)
Definition nestedHeap : Heap := fun l =>
  match l with
  | 1%positive => PlainObject (objectLiteral [("a", VRef 2)])
  | 2%positive => PlainObject (objectLiteral [("b", VRef 3)])
  | 3%positive => PlainObject (objectLiteral [("c", VNumber 1)])
  | _ => emptyObject
  end.

(** [{ p: new Point(3, 4), n: 7 }] *)
Definition pointHeap : Heap := fun l =>
  match l with
  | 1%positive => PlainObject (objectLiteral [("p", VRef 2); ("n", VNumber 7)])
  | 2%positive => PlainObject (instanceOf "Point" [("x", VNumber 3); ("y", VNumber 4)])
  | _ => emptyObject
  end.

(** [{ when: new Date(NaN), get bad() { throw new Error("boom") }, big: [1n], ok: 1 }] *)
Definition faultyHeap : Heap := fun l =>
  match l with
  | 1%positive =>
      PlainObject
        (mkObjectData (Some "Object")
           [ dataProp "when" (VRef 2);
             mkOwnProperty "bad" true (AccessorProperty (Some (GetterThrows "boom")) false);
             dataProp "big" (VRef 3);
             dataProp "ok" (VNumber 1) ]
           [] ObjectPrototype OrdinarySlots)
  | 2%positive => PlainObject (builtInObject "Date" (DateSlots None))
  | 3%positive => arrayLiteral [VBigInt 1]
  | _ => emptyObject
  end.

(** [a = { self: a, n: 1 }], [b = [b]], and [c = { child: { parent: c } }]. *)
Definition cyclicHeap : Heap := fun l =>
  match l with
  | 1%positive => PlainObject (objectLiteral [("self", VRef 1); ("n", VNumber 1)])
  | 2%positive => arrayLiteral [VRef 2]
  | 3%positive => PlainObject (objectLiteral [("child", VRef 4)])
  | 4%positive => PlainObject (objectLiteral [("parent", VRef 3)])
  | _ => emptyObject
  end.

(** [{ x: s, y: s }] for a shared object [s = { v: 1 }], a shared array
    [s = [1]] and a shared [Date]. *)
Definition sharedHeap : Heap := fun l =>
  match l with
  | 1%positive => PlainObject (objectLiteral [("x", VRef 2); ("y", VRef 2)])
  | 2%positive => PlainObject (objectLiteral [("v", VNumber 1)])
  | 3%positive => PlainObject (objectLiteral [("x", VRef 4); ("y", VRef 4)])
  | 4%positive => arrayLiteral [VNumber 1]
  | 5%positive => PlainObject (objectLiteral [("x", VRef 6); ("y", VRef 6)])
  | 6%positive =>
      PlainObject (builtInObject "Date"
                     (DateSlots (Some ("2024-01-01T00:00:00.000Z", 1704067200000))))
  | _ => emptyObject
  end.

(** [m = new Map(); m.set("self", m)] *)
Definition mapCycleHeap : Heap := fun l =>
  match l with
  | 1%positive => PlainObject (builtInObject "Map" (MapSlots [(VString "self", VRef 1)]))
  | _ => emptyObject
  end.

(** [[1, 1, "x"]] and [["reading", "coding"]] *)
Definition arraysHeap : Heap := fun l =>
  match l with
  | 1%positive => arrayLiteral [VNumber 1; VNumber 1; VString "x"]
  | 2%positive => arrayLiteral [VString "reading"; VString "coding"]
  | _ => emptyObject
  end.

(** [{ m: new Map([["k", 1]]), s: new Set([{ four: 4 }]) }] *)
Definition collectionsHeap : Heap := fun l =>
  match l with
  | 1%positive => PlainObject (objectLiteral [("m", VRef 2); ("s", VRef 3)])
  | 2%positive => PlainObject (builtInObject "Map" (MapSlots [(VString "k", VNumber 1)]))
  | 3%positive => PlainObject (builtInObject "Set" (SetSlots [VRef 4]))
  | 4%positive => PlainObject (objectLiteral [("four", VNumber 4)])
  | _ => emptyObject
  end.

(** A handler that ignores its arguments, registered under names that are
    not class names of objects. *)
Definition intruder (_ : Heap) (_ : Value) (context : AnalyzerContext) (visited : Visited)
    : Outcome AnalysisResult * Visited :=
  (Returned (CustomResult "intruder" [] (path context)), visited).

Definition intrudedConfig : AnalyzerConfig :=
  registerCustomType "Array" (CallerHandler intruder)
    (registerCustomType "number" (CallerHandler intruder)
       (registerCustomType "Number" (CallerHandler intruder) defaultConfig)).

(** A recursive call that refuses every context but those at depth 1. *)
Definition onlyAtDepthOne (self : Analyze) : Analyze :=
  fun v c vis => if bool_decide (depth c = 1) then self v c vis else None.

(** [{ x: { y: 1 }, z: [5] }] *)
Definition siblingsHeap : Heap := fun l =>
  match l with
  | 1%positive => PlainObject (objectLiteral [("x", VRef 2); ("z", VRef 3)])
  | 2%positive => PlainObject (objectLiteral [("y", VNumber 1)])
  | 3%positive => arrayLiteral [VNumber 5]
  | _ => emptyObject
  end.

(** A caller's handler that answers with the depth marker, whatever the
    depth:
    [analyzer.registerCustomType("Point", (value, context) =>
       ({ type: "max-depth-reached", path: [...context.path] }))]. *)
Definition markerHandler (_ : Heap) (_ : Value) (context : AnalyzerContext)
    (visited : Visited) : Outcome AnalysisResult * Visited :=
  (Returned (MaxDepthResult (path context)), visited).

Definition markerConfig : AnalyzerConfig :=
  registerCustomType "Point" (CallerHandler markerHandler) defaultConfig.

(** [class Sensor { get reading() { throw Object.create(null) } }] with
    [s = new Sensor()], [{ s: s, ok: 1 }], and
    [{ get constructor() { throw Object.create(null) } }].  Reading
    [reading] on the prototype runs the getter, which throws an object that
    has no prototype; [String] of that object throws the [TypeError] of the
    failed conversion. *)
Definition sensorHeap : Heap := fun l =>
  match l with
  | 1%positive =>
      PlainObject
        (mkObjectData (Some "Sensor") [] []
           (ClassPrototype (Returned (Some "Sensor"))
              [ ("constructor", Returned true);
                ("reading", Thrown (Opaque "Cannot convert object to primitive value")) ])
           OrdinarySlots)
  | 2%positive => PlainObject (objectLiteral [("s", VRef 1); ("ok", VNumber 1)])
  | 3%positive => UnreadableObject (Opaque "Cannot convert object to primitive value")
  | _ => emptyObject
  end.

(** A caller's handler that records its value as visited:
    [analyzer.registerCustomType("Point", (value, context) => {
       context.visited.add(value);
       return { type: "Point", path: [...context.path] }; })]. *)
Definition markingHandler (_ : Heap) (value : Value) (context : AnalyzerContext)
    (visited : Visited) : Outcome AnalysisResult * Visited :=
  (Returned (CustomResult "Point" [] (path context)),
   match value with
   | VRef l => {[ l ]} ∪ visited
   | _ => visited
   end).

Definition markingConfig : AnalyzerConfig :=
  registerCustomType "Point" (CallerHandler markingHandler) defaultConfig.

(** [{ a: p, b: p }] for one [p = new Point(3, 4)]. *)
Definition twiceHeap : Heap := fun l =>
  match l with
  | 1%positive => PlainObject (objectLiteral [("a", VRef 2); ("b", VRef 2)])
  | 2%positive => PlainObject (instanceOf "Point" [("x", VNumber 3); ("y", VNumber 4)])
  | _ => emptyObject
  end.


(** * Further properties: vocabulary *)

(** The context handed to the descent under [key]:
    [{ ...context, depth: context.depth + 1, path: [...context.path, key] }]. *)
Definition child_context (context : AnalyzerContext) (key : PathKey) : AnalyzerContext :=
  mkContext (depth context + 1) (extend (path context) key).

(** What the callback of [analyzeArrayElements] does to the [typeMap] once
    the element at [index] has been analyzed to [elementType] and serialized
    to [typeKey]. *)
Definition typeMap_note (typeKey : string) (elementType : AnalysisResult) (index : Z)
    (typeMap : list (string * TypeMapEntry)) : list (string * TypeMapEntry) :=
  match record_get typeKey typeMap with
  | None => record_set typeKey (mkTypeMapEntry elementType 1 [index]) typeMap
  | Some entry =>
      record_set typeKey
        (mkTypeMapEntry (tm_type entry) (tm_count entry + 1) (tm_indices entry ++ [index])%list)
        typeMap
  end.

(** The first position at which the shape of a group was met. *)
Definition first_index {R : Type} (g : ElementType R) : Z := hd 0 (et_indices g).

(** The order of [elementTypes]: larger count first, and among equal counts
    the group met first. *)
Definition group_order {R : Type} (g1 g2 : ElementType R) : Prop :=
  et_count g2 < et_count g1
  \/ (et_count g1 = et_count g2 /\ first_index g1 < first_index g2).

Definition total_count {R : Type} (groups : list (ElementType R)) : Z :=
  fold_right Z.add 0 (List.map et_count groups).

(** The element at position [i] of [arr] was analyzed, under the context of
    the descent into it, to the result [r]. *)
Definition analysed_to (self : Analyze) (context : AnalyzerContext)
    (arr : list (option Value)) (i : Z) (r : AnalysisResult) : Prop :=
  exists e vis vis',
    In (i, e) (indexed_from 0 arr)
    /\ self e (child_context context (KeyNumber i)) vis = Some (Returned r, vis').

(** What the loop of [analyzeArrayElements] maintains of one entry of its
    [typeMap], all positions below [bound] having been processed. *)
Definition entry_ok (seen : Z -> AnalysisResult -> Prop) (bound : Z)
    (kv : string * TypeMapEntry) : Prop :=
  tm_count (snd kv) = Z.of_nat (List.length (tm_indices (snd kv)))
  /\ tm_indices (snd kv) <> []
  /\ Forall (fun i => i < bound) (tm_indices (snd kv))
  /\ StronglySorted Z.lt (tm_indices (snd kv))
  /\ JSON_stringify (tm_type (snd kv)) = Some (fst kv)
  /\ seen (hd 0 (tm_indices (snd kv))) (tm_type (snd kv))
  /\ Forall (fun i => exists r, seen i r /\ JSON_stringify r = Some (fst kv))
       (tm_indices (snd kv)).

(** What it maintains of the whole [typeMap], [done] being the positions
    processed so far. *)
Definition typeMap_ok (seen : Z -> AnalysisResult -> Prop) (bound : Z) (done : list Z)
    (typeMap : list (string * TypeMapEntry)) : Prop :=
  List.NoDup (List.map fst typeMap)
  /\ Forall (entry_ok seen bound) typeMap
  /\ StronglySorted Z.lt (List.map (fun kv => hd 0 (tm_indices (snd kv))) typeMap)
  /\ Permutation (concat (List.map (fun kv => tm_indices (snd kv)) typeMap)) done.

(** The group that [analyzeArrayElements] makes of an entry of the
    [typeMap]. *)
Definition group_of (len : Z) (kv : string * TypeMapEntry) : ElementType AnalysisResult :=
  mkElementType (tm_type (snd kv)) (divide (tm_count (snd kv)) len)
    (tm_count (snd kv)) (tm_indices (snd kv)).

(** [[1, "x"]] and [[1]] *)
Definition itemsHeap : Heap := fun l =>
  match l with
  | 1%positive => arrayLiteral [VNumber 1; VString "x"]
  | 2%positive => arrayLiteral [VNumber 1]
  | _ => emptyObject
  end.

(** A decimal digit. *)
Definition is_digit (c : ascii) : bool :=
  ((48 <=? N_of_ascii c) && (N_of_ascii c <=? 57))%N.

Fixpoint all_digits (s : string) : bool :=
  match s with
  | EmptyString => true
  | String c s' => is_digit c && all_digits s'
  end.

(** The results of the analyzer's own handlers whose [path] is the last field
    the code writes, hence the last member of the serialized text: all but
    [function] and [object] results, which get [parameters] and [properties]
    after it.  The order of the fields of a caller's handler is its own. *)
Definition path_last (r : AnalysisResult) : bool :=
  match r with
  | FunctionResult _ _ _ _ _ | ObjectResult _ _ _ _ _ | CustomResult _ _ _ => false
  | _ => true
  end.

(** The elements that are neither functions nor objects described by the
    generic object handler or by a handler of the caller: primitives,
    [null], [undefined], symbols, arrays and instances of the built-in
    classes. *)
Definition simple_element (config : AnalyzerConfig) (heap : Heap) (v : Value) : bool :=
  match v with
  | VFunction _ => false
  | VRef l =>
      match heap l with
      | ArrayObject _ => true
      | PlainObject o =>
          match customHandler config o with
          | Some (BuiltInHandler _) => true
          | _ => false
          end
      | UnreadableObject _ => false
      end
  | _ => true
  end.

(** The text [k] ends with the index [i] that closes the path of a result
    whose [path] is its last member. *)
Definition ends_in_index (k : string) (i : Z) : Prop :=
  exists w c, k = (w ++ String c (pretty i ++ "]}"))%string /\ is_digit c = false.

(** [{ [Symbol("id")]: 1, [Symbol("id")]: 2, [Symbol()]: 3 }] *)
Definition symbolsHeap : Heap := fun l =>
  match l with
  | 1%positive =>
      PlainObject
        (mkObjectData (Some "Object") []
           [ mkSymbolProperty (Some "id") (DataProperty (VNumber 1));
             mkSymbolProperty (Some "id") (DataProperty (VNumber 2));
             mkSymbolProperty None (DataProperty (VNumber 3)) ]
           ObjectPrototype OrdinarySlots)
  | _ => emptyObject
  end.

(** [s.includes(c)] *)
Fixpoint contains (c : ascii) (s : string) : bool :=
  match s with
  | EmptyString => false
  | String d s' => Ascii.eqb c d || contains c s'
  end.

(** ** The descriptions the analyzer builds

    [typeof value] as [handlePrimitive] writes it. *)
Definition primitive_tag (value : PrimValue) : string :=
  match value with
  | PString _ => "string"
  | PNumber _ => "number"
  | PBoolean _ => "boolean"
  | PBigInt _ => "bigint"
  end.

(** The descriptions built by the handlers of the analyzer itself, the
    nested ones included: the tag of a primitive is the [typeof] of its
    value, the tag of a typed array is the name of one of the eleven
    constructors, and no description is of a caller's making. *)
Inductive analyzer_made : AnalysisResult -> Prop :=
| made_error msg p : analyzer_made (ErrorResult msg p)
| made_max_depth p : analyzer_made (MaxDepthResult p)
| made_circular p : analyzer_made (CircularReferenceResult p)
| made_null p : analyzer_made (NullResult p)
| made_undefined p : analyzer_made (UndefinedResult p)
| made_primitive v p : analyzer_made (PrimitiveResult (primitive_tag v) v p)
| made_symbol d p : analyzer_made (SymbolResult d p)
| made_function n a g ps p : analyzer_made (FunctionResult n a g ps p)
| made_array len groups p :
    (forall g, In g groups -> analyzer_made (et_type g)) ->
    analyzer_made (ArrayResult len groups p)
| made_object c props syms proto p :
    (forall kv, In kv props -> analyzer_made (snd kv)) ->
    (forall entries kv, syms = Some entries -> In kv entries -> analyzer_made (snd kv)) ->
    analyzer_made (ObjectResult c props syms proto p)
| made_accessor g s p : analyzer_made (AccessorResult g s p)
| made_date v t p : analyzer_made (DateResult v t p)
| made_regexp pat fl p : analyzer_made (RegExpResult pat fl p)
| made_map sz es p :
    (forall l kv, es = Some l -> In kv l -> analyzer_made (fst kv)) ->
    (forall l kv, es = Some l -> In kv l -> analyzer_made (snd kv)) ->
    analyzer_made (MapResult sz es p)
| made_set sz vs p :
    (forall l r, vs = Some l -> In r l -> analyzer_made r) ->
    analyzer_made (SetResult sz vs p)
| made_promise p : analyzer_made (PromiseResult p)
| made_error_object n m st p : analyzer_made (ErrorObjectResult n m st p)
| made_typed_array k len bl bo sh p :
    analyzer_made (TypedArrayResult (typedArrayName k) len bl bo sh p).

(** No handler of a caller is registered. *)
Definition built_ins_only (config : AnalyzerConfig) : Prop :=
  forall name f, customTypes config !! name <> Some (CallerHandler f).

(** * The schema adapters

    [generateSchema(typeInfo)] of the Zod, Yup and Joi adapters, on the
    descriptions [analyze] returns.  [validateDependencies()], the outcome
    of [require] of the library, is the parameter [installed].  A call
    returns a text or throws an [Error] with a message; [None] stands for
    the calls whose outcome the embedding does not determine: a [case] of
    the [switch] that reads [values], [types] or [valueType], fields no
    description of the analyzer has (the read throws a [TypeError] with the
    text of the engine), and the tags ["object"] and ["array"] on a
    description that is not an object or array result.  Every value thrown
    inside [generateSchema] is an [Error], whose message is kept. *)

Definition newline : string := String (ascii_of_nat 10) EmptyString.

Definition outcome_map {A B : Type} (f : A -> B) (o : Outcome A) : Outcome B :=
  match o with
  | Returned a => Returned (f a)
  | Thrown msg => Thrown msg
  end.

(** [list.map(generate)] with a callback that may throw: the first throw
    ends the call. *)
Fixpoint sequence (l : list (option (Outcome string))) : option (Outcome (list string)) :=
  match l with
  | [] => Some (Returned [])
  | None :: _ => None
  | Some (Thrown msg) :: _ => Some (Thrown msg)
  | Some (Returned s) :: l' =>
      match sequence l' with
      | Some (Returned ss) => Some (Returned (s :: ss))
      | other => other
      end
  end.

(** [catch (error) { throw new Error(`<prefix>${error.message}`) }], for
    the instances of [Error] the [try] block throws. *)
Definition rethrow (prefix : string) (o : option (Outcome string)) : option (Outcome string) :=
  match o with
  | Some (Thrown (Message msg)) => Some (Thrown (Message (prefix ++ msg)))
  | Some (Thrown (Opaque _)) => None
  | other => other
  end.

(** The tags whose [case] reads a field beside [type], and the two tags
    tested before the [switch]. *)
Definition reads_fields (type : string) : bool :=
  String.eqb type "enum" || String.eqb type "optional" || String.eqb type "nullable"
  || String.eqb type "object" || String.eqb type "array".

Module ZodSchemaAdapter.

Definition getName : string := "zod".
Definition getRequiredDependencies : list string := ["zod"].
Definition notInstalled : string :=
  "Zod is not installed. Please install it using: npm install zod".
Definition failed : string := "Failed to generate Zod schema: ".

(** [switch (typeInfo.type)] *)
Definition switch (type : string) : option string :=
  if String.eqb type "string" then Some "z.string()"
  else if String.eqb type "number" then Some "z.number()"
  else if String.eqb type "boolean" then Some "z.boolean()"
  else if String.eqb type "Date" then Some "z.date()"
  else if String.eqb type "null" then Some "z.null()"
  else if String.eqb type "undefined" then Some "z.undefined()"
  else if reads_fields type || String.eqb type "union" then None
  else Some "z.any()".

Fixpoint generateSchema (installed : bool) (typeInfo : AnalysisResult)
    : option (Outcome string) :=
  rethrow failed
    (if negb installed then Some (Thrown notInstalled)
     else
       match typeInfo with
       | ObjectResult _ properties _ _ _ =>
           option_map
             (outcome_map
                (fun ps => "z.object({" ++ newline ++ "  "
                           ++ String.concat ("," ++ newline ++ "  ") ps
                           ++ newline ++ "})"))
             (sequence
                (List.map
                   (fun kv =>
                      option_map (outcome_map (fun s => fst kv ++ ": " ++ s))
                        (generateSchema installed (snd kv)))
                   properties))
       | ArrayResult _ elementTypes _ =>
           match elementTypes with
           | [] => Some (Returned "z.array(z.any())")
           | [mkElementType type _ _ _] =>
               option_map (outcome_map (fun s => "z.array(" ++ s ++ ")"))
                 (generateSchema installed type)
           | _ =>
               option_map
                 (outcome_map
                    (fun ts => "z.array(z.union([" ++ String.concat ", " ts ++ "]))"))
                 (sequence
                    (List.map
                       (fun g => match g with
                                 | mkElementType type _ _ _ => generateSchema installed type
                                 end)
                       elementTypes))
           end
       | other => option_map Returned (switch (result_type other))
       end).

Definition generateSchemaFromData (installed : bool) (heap : Heap) (data : Value)
    : option (Outcome string) :=
  if negb installed then Some (Thrown notInstalled)
  else
    match analyzeRoot (TypeAnalyzer_new emptyPartial) heap data with
    | Some (Returned typeInfo) => generateSchema installed typeInfo
    | Some (Thrown error) => Some (Thrown error)
    | None => None
    end.

End ZodSchemaAdapter.

Module YupSchemaAdapter.

Definition getName : string := "yup".
Definition getRequiredDependencies : list string := ["yup"].
Definition notInstalled : string :=
  "Yup is not installed. Please install it using: npm install yup".
Definition failed : string := "Failed to generate Yup schema: ".

Definition switch (type : string) : option string :=
  if String.eqb type "string" then Some "yup.string()"
  else if String.eqb type "number" then Some "yup.number()"
  else if String.eqb type "boolean" then Some "yup.boolean()"
  else if String.eqb type "Date" then Some "yup.date()"
  else if String.eqb type "null" then Some "yup.mixed().nullable()"
  else if String.eqb type "undefined" then Some "yup.mixed().nullable()"
  else if reads_fields type then None
  else Some "yup.mixed()".

Fixpoint generateSchema (installed : bool) (typeInfo : AnalysisResult)
    : option (Outcome string) :=
  rethrow failed
    (if negb installed then Some (Thrown notInstalled)
     else
       match typeInfo with
       | ObjectResult _ properties _ _ _ =>
           option_map
             (outcome_map
                (fun ps => "yup.object({" ++ newline ++ "  "
                           ++ String.concat ("," ++ newline ++ "  ") ps
                           ++ newline ++ "})"))
             (sequence
                (List.map
                   (fun kv =>
                      option_map (outcome_map (fun s => fst kv ++ ": " ++ s))
                        (generateSchema installed (snd kv)))
                   properties))
       | ArrayResult _ elementTypes _ =>
           match elementTypes with
           | [mkElementType type _ _ _] =>
               option_map (outcome_map (fun s => "yup.array().of(" ++ s ++ ")"))
                 (generateSchema installed type)
           | _ => Some (Returned "yup.array()")
           end
       | other => option_map Returned (switch (result_type other))
       end).

Definition generateSchemaFromData (installed : bool) (heap : Heap) (data : Value)
    : option (Outcome string) :=
  if negb installed then Some (Thrown notInstalled)
  else
    match analyzeRoot (TypeAnalyzer_new emptyPartial) heap data with
    | Some (Returned typeInfo) => generateSchema installed typeInfo
    | Some (Thrown error) => Some (Thrown error)
    | None => None
    end.

End YupSchemaAdapter.

Module JoiSchemaAdapter.

Definition getName : string := "joi".
Definition getRequiredDependencies : list string := ["joi"].
Definition notInstalled : string :=
  "Joi is not installed. Please install it using: npm install joi".
Definition failed : string := "Failed to generate Joi schema: ".

Definition switch (type : string) : option string :=
  if String.eqb type "string" then Some "Joi.string()"
  else if String.eqb type "number" then Some "Joi.number()"
  else if String.eqb type "boolean" then Some "Joi.boolean()"
  else if String.eqb type "Date" then Some "Joi.date()"
  else if String.eqb type "null" then Some "Joi.any().allow(null)"
  else if String.eqb type "undefined" then Some "Joi.any().allow(null)"
  else if reads_fields type || String.eqb type "union" then None
  else Some "Joi.any()".

Fixpoint generateSchema (installed : bool) (typeInfo : AnalysisResult)
    : option (Outcome string) :=
  rethrow failed
    (if negb installed then Some (Thrown notInstalled)
     else
       match typeInfo with
       | ObjectResult _ properties _ _ _ =>
           option_map
             (outcome_map
                (fun ps => "Joi.object({" ++ newline ++ "  "
                           ++ String.concat ("," ++ newline ++ "  ") ps
                           ++ newline ++ "})"))
             (sequence
                (List.map
                   (fun kv =>
                      option_map (outcome_map (fun s => fst kv ++ ": " ++ s))
                        (generateSchema installed (snd kv)))
                   properties))
       | ArrayResult _ elementTypes _ =>
           match elementTypes with
           | [] => Some (Returned "Joi.array()")
           | [mkElementType type _ _ _] =>
               option_map (outcome_map (fun s => "Joi.array().items(" ++ s ++ ")"))
                 (generateSchema installed type)
           | _ =>
               option_map
                 (outcome_map (fun ts => "Joi.array().items(" ++ String.concat ", " ts ++ ")"))
                 (sequence
                    (List.map
                       (fun g => match g with
                                 | mkElementType type _ _ _ => generateSchema installed type
                                 end)
                       elementTypes))
           end
       | other => option_map Returned (switch (result_type other))
       end).

Definition generateSchemaFromData (installed : bool) (heap : Heap) (data : Value)
    : option (Outcome string) :=
  if negb installed then Some (Thrown notInstalled)
  else
    match analyzeRoot (TypeAnalyzer_new emptyPartial) heap data with
    | Some (Returned typeInfo) => generateSchema installed typeInfo
    | Some (Thrown error) => Some (Thrown error)
    | None => None
    end.

End JoiSchemaAdapter.

(** The values described by [handleNull], [handleUndefined],
    [handlePrimitive] (a [bigint], which the grouping of array elements
    cannot serialize, apart) and [handleSymbol]. *)
Definition scalar (v : Value) : bool :=
  match v with
  | VUndefined | VNull | VString _ | VNumber _ | VBoolean _ | VSymbol _ => true
  | VBigInt _ | VFunction _ | VRef _ => false
  end.

(** ** The OpenAPI adapter

    [generateComponentSchemas] and [generatePropertySchema] build plain
    objects, which [generateSchema] prints with [JSON.stringify(schema,
    null, 2)].  The objects are modelled as trees whose members are kept in
    insertion order.  The adapter needs no library.  What it throws are the
    [TypeError]s of reading a property of [undefined]; the text of such an
    error is the engine's, [readOfUndefined property] below.  As for the
    other adapters, [None] stands for the calls the embedding does not
    determine: the [case]s of the [switch] that read [values], [types] or
    [valueType], the tags ["object"] and ["array"] on a description that is
    not an object or array result, and the capitalization of a property
    name that starts with a character beyond ASCII. *)

Module OpenAPISchemaAdapter.

Inductive Json :=
| JString (s : string)
| JBoolean (b : bool)
| JArray (items : list Json)
| JObject (members : list (string * Json)).

(** [OpenAPIConfig]; the entries of [servers] are the caller's objects. *)
Record OpenAPIConfig := mkOpenAPIConfig {
  title : string;
  version : string;
  description : option string;
  servers : option (list Json)
}.

Definition getName : string := "openapi".
Definition getRequiredDependencies : list string := [].
Definition validateDependencies : bool := true.
Definition failed : string := "Failed to generate OpenAPI schema: ".

(** [JSON.stringify(value, null, 2)], [indent] being the indentation of the
    line the value starts on. *)
Fixpoint stringify (indent : string) (value : Json) : string :=
  let inner := indent ++ "  " in
  match value with
  | JString s => quote s
  | JBoolean b => bool_text b
  | JArray [] => "[]"
  | JArray items =>
      "[" ++ newline
      ++ String.concat ("," ++ newline) (List.map (fun i => inner ++ stringify inner i) items)
      ++ newline ++ indent ++ "]"
  | JObject [] => "{}"
  | JObject members =>
      "{" ++ newline
      ++ String.concat ("," ++ newline)
           (List.map (fun kv => inner ++ quote (fst kv) ++ ": " ++ stringify inner (snd kv))
              members)
      ++ newline ++ indent ++ "}"
  end.

(** [object[key]] and [object[key] = value] on a tree.  The collection
    [schemas] of named schemas is a record of its own: every name the
    adapter files a schema under starts with ["Root"], so that no write to
    it meets the key ["__proto__"]. *)
Definition members_of (object : Json) : list (string * Json) :=
  match object with
  | JObject members => members
  | _ => []
  end.

Definition get (key : string) (object : Json) : option Json :=
  record_get key (members_of object).

Definition set (key : string) (value : Json) (object : Json) : Json :=
  JObject (property_assign key value (members_of object)).

(** [delete object[key]] *)
Definition delete (key : string) (object : Json) : Json :=
  JObject (List.filter (fun kv => negb (String.eqb (fst kv) key)) (members_of object)).

(** [Object.assign(target, source)] on records. *)
Definition assign (target source : list (string * Json)) : list (string * Json) :=
  fold_left (fun acc kv => record_set (fst kv) (snd kv) acc) source target.

(** [c.toUpperCase()] for an ASCII character. *)
Definition toUpperCase (c : ascii) : option ascii :=
  let n := N_of_ascii c in
  if (128 <=? n)%N then None
  else if ((97 <=? n) && (n <=? 122))%N then Some (ascii_of_N (n - 32))
  else Some c.

(** [`${s.charAt(0).toUpperCase()}${s.slice(1)}`] *)
Definition capitalize (s : string) : option string :=
  match s with
  | EmptyString => Some EmptyString
  | String c rest => option_map (fun C => String C rest) (toUpperCase c)
  end.

(** [isOptionalType] *)
Definition isOptionalType (typeInfo : AnalysisResult) : bool :=
  String.eqb (result_type typeInfo) "optional" || String.eqb (result_type typeInfo) "nullable".

Definition Schemas := list (string * Json).

Section Engine.

(** The message of the [TypeError] for reading [property] of [undefined]. *)
Variable readOfUndefined : string -> string.

(** One round of the [forEach] of [generateComponentSchemas] over the
    properties of an object, [generated] being what [generatePropertySchema]
    gave for the property.  Every schema registered under a name is the
    schema of an object, with [properties]; the rounds without it, and with
    a [required] that is not an array, are never reached and left
    undetermined. *)
Definition propertyRound (name : string) (schemas : option (Outcome Schemas))
    (entry : string * bool * option (Outcome (Json * Schemas)))
    : option (Outcome Schemas) :=
  match schemas with
  | Some (Returned schemas) =>
      let '(propName, optional, generated) := entry in
      match generated with
      | None => None
      | Some (Thrown msg) => Some (Thrown msg)
      | Some (Returned (propSchema, subSchemas)) =>
          match record_get name schemas with
          | None => Some (Thrown (readOfUndefined "properties"))
          | Some current =>
              match get "properties" current with
              | None => None
              | Some properties =>
                  let schemas1 :=
                    record_set name (set "properties" (set propName propSchema properties) current)
                      schemas in
                  let schemas2 := assign schemas1 subSchemas in
                  if optional then Some (Returned schemas2)
                  else
                    match record_get name schemas2 with
                    | None => Some (Thrown (readOfUndefined "required"))
                    | Some current2 =>
                        match get "required" current2 with
                        | Some (JArray required) =>
                            Some (Returned
                                    (record_set name
                                       (set "required" (JArray (required ++ [JString propName]))
                                          current2)
                                       schemas2))
                        | Some _ => None
                        | None => Some (Thrown (readOfUndefined "push"))
                        end
                    end
              end
          end
      end
  | other => other
  end.

(** The [object] branch of [generateComponentSchemas], the properties
    having been generated. *)
Definition objectSchemas (name : string)
    (entries : list (string * bool * option (Outcome (Json * Schemas))))
    : option (Outcome Schemas) :=
  match fold_left (propertyRound name) entries
          (Some (Returned
                   [(name, JObject [("type", JString "object");
                                    ("properties", JObject []);
                                    ("required", JArray [])])])) with
  | Some (Returned schemas) =>
      match record_get name schemas with
      | None => Some (Thrown (readOfUndefined "required"))
      | Some current =>
          match get "required" current with
          | Some (JArray []) => Some (Returned (record_set name (delete "required" current) schemas))
          | Some (JArray _) => Some (Returned schemas)
          | Some _ => None
          | None => Some (Thrown (readOfUndefined "length"))
          end
      end
  | other => other
  end.

(** The cases of the [switch] of [generatePropertySchema] that read nothing
    but the tag. *)
Definition switch (type : string) : option Json :=
  if String.eqb type "string" then Some (JObject [("type", JString "string")])
  else if String.eqb type "number" then Some (JObject [("type", JString "number")])
  else if String.eqb type "boolean" then Some (JObject [("type", JString "boolean")])
  else if String.eqb type "Date"
  then Some (JObject [("type", JString "string"); ("format", JString "date-time")])
  else if reads_fields type || String.eqb type "union" then None
  else Some (JObject []).

Fixpoint generatePropertySchema (typeInfo : AnalysisResult) (name : string)
    : option (Outcome (Json * Schemas)) :=
  match typeInfo with
  | ArrayResult _ elementTypes _ =>
      match elementTypes with
      | [] => Some (Thrown (readOfUndefined "type"))
      | mkElementType type _ _ _ :: _ =>
          option_map
            (outcome_map
               (fun item =>
                  (JObject [("type", JString "array"); ("items", fst item)],
                   assign [] (snd item))))
            (generatePropertySchema type (name ++ "Item"))
      end
  | ObjectResult _ properties _ _ _ =>
      option_map
        (outcome_map
           (fun generatedSchemas =>
              (JObject [("$ref", JString ("#/components/schemas/" ++ name))],
               assign [] generatedSchemas)))
        (objectSchemas name
           (List.map
              (fun kv =>
                 (fst kv, isOptionalType (snd kv),
                  match capitalize (fst kv) with
                  | Some Name => generatePropertySchema (snd kv) (name ++ Name)
                  | None => None
                  end))
              properties))
  | other => option_map (fun schema => Returned (schema, [])) (switch (result_type other))
  end.

Definition generateComponentSchemas (typeInfo : AnalysisResult) (name : string)
    : option (Outcome Schemas) :=
  match typeInfo with
  | ObjectResult _ properties _ _ _ =>
      objectSchemas name
        (List.map
           (fun kv =>
              (fst kv, isOptionalType (snd kv),
               match capitalize (fst kv) with
               | Some Name => generatePropertySchema (snd kv) (name ++ Name)
               | None => None
               end))
           properties)
  | ArrayResult _ elementTypes _ =>
      match elementTypes with
      | [] => Some (Thrown (readOfUndefined "type"))
      | mkElementType type _ _ _ :: _ =>
          option_map
            (outcome_map
               (fun item =>
                  assign [(name, JObject [("type", JString "array"); ("items", fst item)])]
                    (snd item)))
            (generatePropertySchema type (name ++ "Item"))
      end
  | other =>
      if String.eqb (result_type other) "object" || String.eqb (result_type other) "array"
      then None
      else Some (Returned [])
  end.

Definition optional_field (key : string) (value : option string) : list (string * Json) :=
  match value with
  | Some text => [(key, JString text)]
  | None => []
  end.

(** The object [generateSchema] prints. *)
Definition document (config : OpenAPIConfig) (schemas : Schemas) : Json :=
  JObject
    [ ("openapi", JString "3.0.0");
      ("info", JObject ([("title", JString (title config));
                         ("version", JString (version config))]
                        ++ optional_field "description" (description config)));
      ("servers", JArray (default [JObject [("url", JString "http://localhost:3000")]]
                            (servers config)));
      ("paths", JObject []);
      ("components", JObject [("schemas", JObject schemas)]) ].

Definition generateSchema (config : OpenAPIConfig) (typeInfo : AnalysisResult)
    : option (Outcome string) :=
  rethrow failed
    match generateComponentSchemas typeInfo "Root" with
    | Some (Returned schemas) => Some (Returned (stringify EmptyString (document config schemas)))
    | Some (Thrown error) => Some (Thrown error)
    | None => None
    end.

Definition generateSchemaFromData (config : OpenAPIConfig) (heap : Heap) (data : Value)
    : option (Outcome string) :=
  match analyzeRoot (TypeAnalyzer_new emptyPartial) heap data with
  | Some (Returned typeInfo) => generateSchema config typeInfo
  | Some (Thrown error) => Some (Thrown error)
  | None => None
  end.

End Engine.

End OpenAPISchemaAdapter.

(** A description in which the OpenAPI adapter comes upon an array without
    elements: the adapter descends into every property of an object and
    into the first group of an array. *)
Inductive visits_empty_array : AnalysisResult -> Prop :=
| visits_here len p : visits_empty_array (ArrayResult len [] p)
| visits_first_group len g rest p :
    visits_empty_array (et_type g) -> visits_empty_array (ArrayResult len (g :: rest) p)
| visits_property c props syms proto p kv :
    In kv props -> visits_empty_array (snd kv) ->
    visits_empty_array (ObjectResult c props syms proto p).

(** A call that gives no result: it throws, or is left undetermined. *)
Definition not_returned {A : Type} (o : option (Outcome A)) : Prop :=
  forall a, o <> Some (Returned a).

(** The values that are not references into the heap and not functions. *)
Definition primitive (v : Value) : bool :=
  match v with
  | VFunction _ | VRef _ => false
  | _ => true
  end.

(** A prototype on which every read of the scan of [handleObject]
    returns. *)
Definition quiet_prototype (p : Prototype) : bool :=
  match p with
  | ClassPrototype c members =>
      match c with Returned _ => true | Thrown _ => false end
      && forallb (fun m => match snd m with Returned _ => true | Thrown _ => false end)
           members
  | NoPrototype | ObjectPrototype => true
  end.

(** An object whose own properties are enumerable data properties that hold
    primitives, under names that do not start with ["#"] and are not
    [__proto__], whose symbol-keyed properties are data properties that
    hold primitives, and on whose prototype every member can be read. *)
Definition flat (o : ObjectData) : Prop :=
  List.NoDup (List.map prop_name (ownProperties o))
  /\ Forall (fun q => prop_enumerable q = true
                      /\ startsWith (prop_name q) "#" = false
                      /\ prop_name q <> "__proto__"
                      /\ exists v, prop_slot q = DataProperty v /\ primitive v = true)
       (ownProperties o)
  /\ Forall (fun s => exists v, sym_slot s = DataProperty v /\ primitive v = true)
       (ownSymbols o)
  /\ quiet_prototype (prototype o) = true.

(** [{ name: "John", age: 30, id: 7n }] *)
Definition personHeap : Heap := fun l =>
  match l with
  | 1%positive =>
      PlainObject
        (objectLiteral [("name", VString "John"); ("age", VNumber 30); ("id", VBigInt 7)])
  | _ => emptyObject
  end.

(** The positions of an array that hold an element, in increasing order,
    and the elements they hold: what [forEach] visits. *)
Definition positions (arr : list (option Value)) : list Z :=
  List.map fst (indexed_from 0 arr).

Definition present (arr : list (option Value)) : list Value :=
  List.map snd (indexed_from 0 arr).

(** [[1, , 3]], an array of length 3 with a hole at position 1, and
    [[7, ,]], of length 2. *)
Definition sparseHeap : Heap := fun l =>
  match l with
  | 1%positive => ArrayObject [Some (VNumber 1); None; Some (VNumber 3)]
  | 2%positive => ArrayObject [Some (VNumber 7); None]
  | _ => emptyObject
  end.


(** The properties a result has a key for: the listed ones that are not
    skipped, but for one named [__proto__], whose assignment does not
    create a key. *)
Definition kept_key_of (config : AnalyzerConfig) (q : OwnProperty) : bool :=
  negb (skipped config q) && negb (String.eqb (prop_name q) "__proto__").

(** ** Heaps on which every thrown value has a message

    A getter, a [toString] or a read on a prototype may throw any value.
    The [catch] clauses of the analyzer take the message of what they
    caught; they can be relied on where every value thrown has one. *)

(** A property whose read returns a plain value or throws a value with a
    message. *)
Definition plain_slot (s : PropertySlot) : bool :=
  match read_slot s with
  | Returned v => plain_value v
  | Thrown error => has_message error
  end.

Definition plain_prototype (p : Prototype) : bool :=
  match p with
  | ClassPrototype c members => plain c && forallb (fun m => plain (snd m)) members
  | NoPrototype | ObjectPrototype => true
  end.

Definition plain_slots (s : InternalSlots) : bool :=
  match s with
  | MapSlots entries =>
      forallb (fun kv => plain_value (fst kv) && plain_value (snd kv)) entries
  | SetSlots members => forallb plain_value members
  | _ => true
  end.

Definition plain_object (o : ObjectData) : bool :=
  forallb (fun q => plain_slot (prop_slot q)) (ownProperties o)
  && forallb (fun s => plain_slot (sym_slot s)) (ownSymbols o)
  && plain_prototype (prototype o)
  && plain_slots (slots o).

Definition plain_heap (heap : Heap) : Prop :=
  forall l,
    match heap l with
    | ArrayObject arr => forallb plain_value (present arr) = true
    | PlainObject o => plain_object o = true
    | UnreadableObject error => has_message error = true
    end.

(** The own properties [handleObject] records an entry for. *)
Definition listed (config : AnalyzerConfig) (o : ObjectData) : list OwnProperty :=
  List.filter (kept_key_of config) (propertyNames config o).


(** * Properties *)

(** ** Locality of the handlers in their recursive calls *)

Section Locality.

Lemma bind_ext {A B : Type} (m1 m2 : M A) (k1 k2 : A -> M B) vis :
  m1 vis = m2 vis ->
  (forall a vis', k1 a vis' = k2 a vis') ->
  bind m1 k1 vis = bind m2 k2 vis.
Proof.
  intros Hm Hk. unfold bind. rewrite Hm.
  destruct (m2 vis) as [[[a|msg] vis']|]; auto.
Qed.

Lemma try_catch_ext {A : Type} (m1 m2 : M A) (h : Exn -> M A) vis :
  m1 vis = m2 vis -> try_catch m1 h vis = try_catch m2 h vis.
Proof. intros Hm. unfold try_catch. now rewrite Hm. Qed.

Lemma for_each_ext {A B : Type} (b1 b2 : B -> A -> M B) (l : list A) :
  (forall s a vis, b1 s a vis = b2 s a vis) ->
  forall s vis, for_each b1 l s vis = for_each b2 l s vis.
Proof.
  intros Hb. induction l as [|a l IH]; intros s vis; simpl; [reflexivity|].
  apply bind_ext; auto.
Qed.

Lemma map_each_ext {A B : Type} (f1 f2 : A -> M B) (l : list A) :
  (forall a vis, f1 a vis = f2 a vis) ->
  forall vis, map_each f1 l vis = map_each f2 l vis.
Proof.
  intros Hf. induction l as [|a l IH]; intros vis; simpl; [reflexivity|].
  apply bind_ext; auto. intros b vis'. apply bind_ext; auto.
Qed.

End Locality.

Section LocalityOfHandlers.

Variable config : AnalyzerConfig.
Variable heap : Heap.
Variables self1 self2 : Analyze.

Lemma call_analyze_ext (P : AnalyzerContext -> Prop) v c vis :
  agree_on P self1 self2 -> P c ->
  call_analyze self1 v c vis = call_analyze self2 v c vis.
Proof. intros H Hc. unfold call_analyze. exact (H v c vis Hc). Qed.

Lemma analyzeArrayElements_ext arr context vis :
  agree_on (descends_from context) self1 self2 ->
  analyzeArrayElements self1 arr context vis = analyzeArrayElements self2 arr context vis.
Proof.
  intros H. unfold analyzeArrayElements.
  apply bind_ext; [|reflexivity].
  apply for_each_ext. intros tm [i e] vis0. unfold elementStep. cbn [fst snd].
  apply bind_ext; [|reflexivity].
  apply (call_analyze_ext _ _ _ _ H). split; [reflexivity|]. now eexists.
Qed.

Lemma analyzeMember_ext context key slot vis :
  agree_on (descends_from context) self1 self2 ->
  analyzeMember self1 context key slot vis = analyzeMember self2 context key slot vis.
Proof.
  intros H. unfold analyzeMember. apply try_catch_ext.
  apply bind_ext; [reflexivity|]. intros v vis'.
  apply (call_analyze_ext _ _ _ _ H). split; [reflexivity|]. now eexists.
Qed.

Lemma handleArray_ext l arr context vis :
  agree_on (descends_from context) self1 self2 ->
  handleArray self1 l arr context vis = handleArray self2 l arr context vis.
Proof.
  intros H. unfold handleArray. apply bind_ext; [reflexivity|].
  intros _ vis'. apply bind_ext; [|reflexivity].
  now apply analyzeArrayElements_ext.
Qed.

Lemma handleObject_ext l o context vis :
  agree_on (descends_from context) self1 self2 ->
  handleObject config self1 l o context vis = handleObject config self2 l o context vis.
Proof.
  intros H. unfold handleObject. apply bind_ext; [reflexivity|].
  intros _ vis1. apply bind_ext.
  - apply for_each_ext. intros props p vis2. unfold propertyStep.
    destruct (skipped config p); [reflexivity|].
    destruct (shortcut config p); [reflexivity|].
    apply bind_ext; [|reflexivity]. now apply analyzeMember_ext.
  - intros props vis2. apply bind_ext; [|reflexivity].
    apply for_each_ext. intros syms s vis3. unfold symbolStep.
    apply bind_ext; [|reflexivity]. now apply analyzeMember_ext.
Qed.

Lemma apply_builtin_ext b o context vis :
  agree_on (deepens context) self1 self2 ->
  apply_builtin config self1 b o context vis = apply_builtin config self2 b o context vis.
Proof.
  intros H. unfold apply_builtin.
  destruct b, (slots o); try reflexivity.
  - destruct (maxDepth config >? depth context); [|reflexivity].
    apply bind_ext; [|reflexivity]. apply map_each_ext. intros [k v] vis1. cbn [fst snd].
    apply bind_ext; [now apply (call_analyze_ext _ _ _ _ H)|].
    intros k' vis2. apply bind_ext; [now apply (call_analyze_ext _ _ _ _ H)|reflexivity].
  - destruct (maxDepth config >? depth context); [|reflexivity].
    apply bind_ext; [|reflexivity]. apply map_each_ext. intros v vis1.
    now apply (call_analyze_ext _ _ _ _ H).
Qed.

Lemma agree_on_weaken (P Q : AnalyzerContext -> Prop) :
  (forall c, Q c -> P c) -> agree_on P self1 self2 -> agree_on Q self1 self2.
Proof. intros HPQ H v c vis Hc. apply H. auto. Qed.

Lemma dispatch_ext value context vis :
  agree_on (one_deeper context) self1 self2 ->
  dispatch config heap self1 value context vis = dispatch config heap self2 value context vis.
Proof.
  intros H.
  assert (Hd : agree_on (descends_from context) self1 self2)
    by (eapply agree_on_weaken; [|exact H]; intros c [? _]; assumption).
  assert (Hs : agree_on (deepens context) self1 self2)
    by (eapply agree_on_weaken; [|exact H]; intros c [? _]; assumption).
  destruct value; try reflexivity. simpl.
  destruct (heap l) as [elements|o|error].
  - now apply handleArray_ext.
  - apply bind_ext; [reflexivity|]. intros seen vis'.
    destruct seen; [reflexivity|].
    destruct (customHandler config o) as [[b|f]|].
    + now apply apply_builtin_ext.
    + reflexivity.
    + now apply handleObject_ext.
  - reflexivity.
Qed.

Lemma analyze_body_ext value context vis :
  agree_on (one_deeper context) self1 self2 ->
  analyze_body config heap self1 value context vis
  = analyze_body config heap self2 value context vis.
Proof.
  intros H. unfold analyze_body, catching.
  destruct (depth context >? maxDepth config); [reflexivity|].
  apply try_catch_ext. exact (dispatch_ext value context vis H).
Qed.

End LocalityOfHandlers.


(** ** The recursion terminates: fuel is irrelevant beyond [levels] *)

Lemma levels_one_deeper config context c :
  depth context <= maxDepth config -> one_deeper context c ->
  S (levels config c) = levels config context.
Proof. unfold levels, one_deeper. intros Hd Hc. rewrite Hc. lia. Qed.

Lemma analyzeF_fuel_irrelevant config heap n :
  forall m value context vis,
    (levels config context <= n)%nat -> (levels config context <= m)%nat ->
    analyzeF config heap n value context vis = analyzeF config heap m value context vis.
Proof.
  induction n as [|n IH]; intros m value context vis Hn Hm.
  - unfold levels in Hn. lia.
  - destruct m as [|m]; [unfold levels in Hm; lia|].
    cbn [analyzeF]. unfold analyze_body, catching.
    destruct (Z.gtb_spec (depth context) (maxDepth config)) as [Hd|Hd]; [reflexivity|].
    apply try_catch_ext. apply dispatch_ext.
    intros v c vis' Hc.
    pose proof (levels_one_deeper config context c Hd Hc).
    apply IH; lia.
Qed.

Lemma analyzeF_enough_fuel config heap n value context vis :
  (levels config context <= n)%nat ->
  analyzeF config heap n value context vis = analyze config heap value context vis.
Proof. intros Hn. unfold analyze. now apply analyzeF_fuel_irrelevant. Qed.

(** [analyze] satisfies the defining equation of the source method. *)
Lemma analyze_unfold config heap value context vis :
  analyze config heap value context vis
  = analyze_body config heap (analyze config heap) value context vis.
Proof.
  unfold analyze at 1. unfold levels. cbn [analyzeF]. unfold analyze_body, catching.
  destruct (Z.gtb_spec (depth context) (maxDepth config)) as [Hd|Hd]; [reflexivity|].
  apply try_catch_ext. apply dispatch_ext.
  intros v c vis' Hc.
  pose proof (levels_one_deeper config context c Hd Hc) as Hl.
  apply analyzeF_enough_fuel. unfold levels in *. lia.
Qed.


(** ** Every call ends, and the visited set only grows by tracked locations *)

Section Steady.

Variable config : AnalyzerConfig.
Variable heap : Heap.

Local Abbreviation grows := (grows config heap).
Local Abbreviation steady := (steady config heap).
Local Abbreviation steady_call := (steady_call config heap).

Lemma grows_refl vis : grows vis vis.
Proof. intros _. split; [set_solver|auto]. Qed.

Lemma grows_trans vis1 vis2 vis3 : grows vis1 vis2 -> grows vis2 vis3 -> grows vis1 vis3.
Proof.
  intros G1 G2 Hs. destruct (G1 Hs) as [H1 H1'], (G2 Hs) as [H2 H2']. split; [set_solver|].
  intros l Hl. destruct (H2' l Hl) as [Hl2|]; auto.
Qed.

Lemma grows_add l vis : tracked config heap l -> grows vis ({[ l ]} ∪ vis).
Proof.
  intros Ht _. split; [set_solver|].
  intros l' Hl'. apply elem_of_union in Hl' as [Hl'|Hl']; auto.
  apply elem_of_singleton in Hl'. subst. auto.
Qed.

Lemma steady_ret {A : Type} (a : A) : steady (ret a).
Proof. intros vis. exists (Returned a), vis. split; [reflexivity|apply grows_refl]. Qed.

Lemma steady_throw {A : Type} error : steady (@throw A error).
Proof. intros vis. exists (Thrown error), vis. split; [reflexivity|apply grows_refl]. Qed.

Lemma steady_of_outcome {A : Type} (o : Outcome A) : steady (of_outcome o).
Proof. intros vis. exists o, vis. split; [reflexivity|apply grows_refl]. Qed.

Lemma steady_bind {A B : Type} (m : M A) (k : A -> M B) :
  steady m -> (forall a, steady (k a)) -> steady (bind m k).
Proof.
  intros Hm Hk vis. destruct (Hm vis) as (o & vis1 & E & G).
  unfold bind. rewrite E. destruct o as [a|error].
  - destruct (Hk a vis1) as (o' & vis2 & E' & G').
    exists o', vis2. split; [exact E'|eapply grows_trans; eauto].
  - exists (Thrown error), vis1. auto.
Qed.

Lemma steady_try_catch {A : Type} (m : M A) (h : Exn -> M A) :
  steady m -> (forall error, steady (h error)) -> steady (try_catch m h).
Proof.
  intros Hm Hh vis. destruct (Hm vis) as (o & vis1 & E & G).
  unfold try_catch. rewrite E. destruct o as [a|error].
  - exists (Returned a), vis1. auto.
  - destruct (Hh error vis1) as (o' & vis2 & E' & G').
    exists o', vis2. split; [exact E'|eapply grows_trans; eauto].
Qed.

Lemma steady_for_each {A S : Type} (body : S -> A -> M S) (l : list A) :
  (forall s a, steady (body s a)) -> forall s, steady (for_each body l s).
Proof.
  intros Hb. induction l as [|a l IH]; intros s; simpl.
  - apply steady_ret.
  - apply steady_bind; auto.
Qed.

Lemma steady_map_each {A B : Type} (f : A -> M B) (l : list A) :
  (forall a, steady (f a)) -> steady (map_each f l).
Proof.
  intros Hf. induction l as [|a l IH]; simpl.
  - apply steady_ret.
  - apply steady_bind; auto. intros b. apply steady_bind; auto.
    intros bs. apply steady_ret.
Qed.

Lemma steady_filter_each {A : Type} (f : A -> M bool) (l : list A) :
  (forall a, steady (f a)) -> steady (filter_each f l).
Proof.
  intros Hf. induction l as [|a l IH]; simpl.
  - apply steady_ret.
  - apply steady_bind; auto. intros b. apply steady_bind; auto.
    intros bs. apply steady_ret.
Qed.

Lemma steady_stringify r : steady (stringify_or_throw r).
Proof.
  unfold stringify_or_throw. destruct (JSON_stringify r); [apply steady_ret|apply steady_throw].
Qed.

Lemma steady_error_result p error : steady (error_result p error).
Proof.
  unfold error_result. apply steady_bind; [apply steady_of_outcome|].
  intros msg. apply steady_ret.
Qed.

Variable self : Analyze.

Lemma steady_call_analyze (P : AnalyzerContext -> Prop) v c :
  steady_call P self -> P c -> steady (call_analyze self v c).
Proof. intros H Hc. exact (H v c Hc). Qed.

Lemma steady_analyzeArrayElements arr context :
  steady_call (descends_from context) self ->
  steady (analyzeArrayElements self arr context).
Proof.
  intros H. unfold analyzeArrayElements.
  apply steady_bind; [|intros; apply steady_ret].
  apply steady_for_each. intros tm [i e]. unfold elementStep. cbn [fst snd].
  apply steady_bind.
  - apply (steady_call_analyze _ _ _ H). split; [reflexivity|]. now eexists.
  - intros r. apply steady_bind; [apply steady_stringify|].
    intros key. destruct (record_get key tm); apply steady_ret.
Qed.

Lemma steady_visited_add l : tracked config heap l -> steady (visited_add l).
Proof.
  intros Ht vis. exists (Returned tt), ({[ l ]} ∪ vis).
  split; [reflexivity|now apply grows_add].
Qed.

Lemma steady_handleArray l arr context :
  heap l = ArrayObject arr ->
  steady_call (descends_from context) self ->
  steady (handleArray self l arr context).
Proof.
  intros Hl H. unfold handleArray. apply steady_bind.
  - apply steady_visited_add. unfold tracked. now rewrite Hl.
  - intros _. apply steady_bind; [now apply steady_analyzeArrayElements|].
    intros; apply steady_ret.
Qed.

Lemma steady_analyzeMember context key slot :
  steady_call (descends_from context) self ->
  steady (analyzeMember self context key slot).
Proof.
  intros H. unfold analyzeMember.
  apply steady_try_catch; [|intros; apply steady_error_result].
  apply steady_bind; [apply steady_of_outcome|].
  intros v. apply (steady_call_analyze _ _ _ H). split; [reflexivity|]. now eexists.
Qed.

Lemma steady_propertyStep context props p :
  steady_call (descends_from context) self ->
  steady (propertyStep config self context props p).
Proof.
  intros H. unfold propertyStep.
  destruct (skipped config p); [apply steady_ret|].
  destruct (shortcut config p); [apply steady_ret|].
  apply steady_bind; [now apply steady_analyzeMember|intros; apply steady_ret].
Qed.

Lemma steady_symbolStep context syms s :
  steady_call (descends_from context) self ->
  steady (symbolStep self context syms s).
Proof.
  intros H. unfold symbolStep.
  apply steady_bind; [now apply steady_analyzeMember|intros; apply steady_ret].
Qed.

Lemma steady_prototype_info o : steady (prototype_info config o).
Proof.
  unfold prototype_info.
  destruct (includePrototype config); [|apply steady_ret].
  destruct (prototype o) as [| |c members]; try apply steady_ret.
  apply steady_bind; [apply steady_of_outcome|]. intros name.
  destruct (includeMethods config); [|apply steady_ret].
  apply steady_bind; [|intros; apply steady_ret].
  apply steady_filter_each. intros m. apply steady_of_outcome.
Qed.

Lemma steady_handleObject l o context :
  heap l = PlainObject o -> customHandler config o = None ->
  steady_call (descends_from context) self ->
  steady (handleObject config self l o context).
Proof.
  intros Hl Hc H. unfold handleObject. apply steady_bind.
  - apply steady_visited_add. unfold tracked. now rewrite Hl.
  - intros _. apply steady_bind.
    + apply steady_for_each. intros. now apply steady_propertyStep.
    + intros props. apply steady_bind.
      * apply steady_for_each. intros. now apply steady_symbolStep.
      * intros syms. apply steady_bind; [apply steady_prototype_info|].
        intros; apply steady_ret.
Qed.

Lemma steady_handleFunction f context : steady (handleFunction config f context).
Proof.
  unfold handleFunction. apply steady_bind; [|intros; apply steady_ret].
  destruct (includeMethods config); [|apply steady_ret].
  apply steady_bind; [apply steady_of_outcome|intros; apply steady_ret].
Qed.

Lemma steady_apply_builtin b o context :
  steady_call (deepens context) self ->
  steady (apply_builtin config self b o context).
Proof.
  intros H. unfold apply_builtin.
  assert (Hd : deepens context (mkContext (depth context + 1) (path context)))
    by (split; reflexivity).
  destruct b, (slots o) as [|[[iso time]|]| | | | | |];
    try apply steady_ret; try apply steady_throw.
  - destruct (maxDepth config >? depth context); [|apply steady_ret].
    apply steady_bind; [|intros; apply steady_ret].
    apply steady_map_each. intros [k v]. cbn [fst snd].
    apply steady_bind; [now apply (steady_call_analyze _ _ _ H)|].
    intros k'. apply steady_bind; [now apply (steady_call_analyze _ _ _ H)|].
    intros; apply steady_ret.
  - destruct (maxDepth config >? depth context); [|apply steady_ret].
    apply steady_bind; [|intros; apply steady_ret].
    apply steady_map_each. intros v. now apply (steady_call_analyze _ _ _ H).
Qed.

(** The handler found for an object is an entry of the table. *)
Lemma customHandler_registered o h :
  customHandler config o = Some h -> exists name, customTypes config !! name = Some h.
Proof.
  unfold customHandler. destruct (truthy_name (className o)) as [name|]; [|discriminate].
  intros H. now exists name.
Qed.

Lemma steady_apply_handler h l o context :
  customHandler config o = Some h ->
  steady_call (deepens context) self ->
  steady (apply_handler config heap self h l o context).
Proof.
  intros Hc H. destruct h as [b|f]; simpl.
  - now apply steady_apply_builtin.
  - intros vis. destruct (f heap (VRef l) context vis) as [out vis'] eqn:E.
    exists out, vis'. split; [reflexivity|].
    intros Hs. apply customHandler_registered in Hc as [name Hname].
    pose proof (Hs name f (VRef l) context vis Hname) as Hv. rewrite E in Hv.
    simpl in Hv. subst vis'. split; [set_solver|auto].
Qed.

Lemma steady_call_weaken (P Q : AnalyzerContext -> Prop) :
  (forall c, Q c -> P c) -> steady_call P self -> steady_call Q self.
Proof. intros HPQ H v c Hc. apply H. auto. Qed.

Lemma steady_dispatch value context :
  steady_call (one_deeper context) self ->
  steady (dispatch config heap self value context).
Proof.
  intros H.
  assert (Hd : steady_call (descends_from context) self)
    by (eapply steady_call_weaken; [|exact H]; intros c [? _]; assumption).
  assert (Hs : steady_call (deepens context) self)
    by (eapply steady_call_weaken; [|exact H]; intros c [? _]; assumption).
  destruct value; try apply steady_ret; [apply steady_handleFunction|]. simpl.
  destruct (heap l) as [elements|o|error] eqn:Hl.
  - now apply steady_handleArray.
  - apply steady_bind; [intros vis; eexists _, vis; split; [reflexivity|apply grows_refl]|].
    intros seen. destruct seen; [apply steady_ret|].
    destruct (customHandler config o) as [h|] eqn:Hc.
    + now apply steady_apply_handler.
    + now apply steady_handleObject.
  - apply steady_bind; [intros vis; eexists _, vis; split; [reflexivity|apply grows_refl]|].
    intros seen. destruct seen; [apply steady_ret|apply steady_throw].
Qed.

Lemma steady_analyze_body value context :
  steady_call (one_deeper context) self ->
  steady (analyze_body config heap self value context).
Proof.
  intros H. unfold analyze_body, catching.
  apply steady_try_catch; [|intros; apply steady_error_result].
  destruct (depth context >? maxDepth config); [apply steady_ret|].
  now apply steady_dispatch.
Qed.

End Steady.

Lemma analyzeF_steady config heap n :
  forall value context,
    (levels config context <= n)%nat ->
    steady config heap (analyzeF config heap n value context).
Proof.
  induction n as [|n IH]; intros value context Hn.
  - unfold levels in Hn. lia.
  - cbn [analyzeF].
    destruct (Z.gtb_spec (depth context) (maxDepth config)) as [Hd|Hd].
    + intros vis. unfold analyze_body, catching, try_catch.
      destruct (Z.gtb_spec (depth context) (maxDepth config)); [|lia].
      exists (Returned (MaxDepthResult (path context))), vis.
      split; [reflexivity|apply grows_refl].
    + apply steady_analyze_body. intros v c Hc.
      pose proof (levels_one_deeper config context c Hd Hc).
      apply IH. lia.
Qed.

(** [analyze] always ends, returning a result or throwing, whatever the
    value, the context and the visited set. *)
Lemma analyze_steady config heap value context :
  steady config heap (analyze config heap value context).
Proof. apply analyzeF_steady. reflexivity. Qed.

Lemma analyze_steady_call config heap (P : AnalyzerContext -> Prop) :
  steady_call config heap P (analyze config heap).
Proof. intros v c _. apply analyze_steady. Qed.

(** When it ends by the equation at hand, a steady computation has let the
    visited set grow. *)
Lemma steady_grows config heap {A : Type} (m : M A) vis o vis' :
  steady config heap m -> m vis = Some (o, vis') -> grows config heap vis vis'.
Proof.
  intros H E. destruct (H vis) as (o' & vis1 & E' & G). rewrite E in E'.
  injection E' as _ <-. exact G.
Qed.


(** ** The dispatch equations of [analyze] *)

Lemma analyze_beyond_depth config heap value context vis :
  depth context > maxDepth config ->
  analyze config heap value context vis = Some (Returned (MaxDepthResult (path context)), vis).
Proof.
  intros Hd. rewrite analyze_unfold. unfold analyze_body, catching.
  destruct (Z.gtb_spec (depth context) (maxDepth config)); [reflexivity|lia].
Qed.

Lemma analyze_within_depth config heap value context vis :
  depth context <= maxDepth config ->
  analyze config heap value context vis
  = catching context (dispatch config heap (analyze config heap) value context) vis.
Proof.
  intros Hd. rewrite analyze_unfold. unfold analyze_body.
  destruct (Z.gtb_spec (depth context) (maxDepth config)); [lia|reflexivity].
Qed.

(** ** What a handler can return *)

Lemma bind_returned {A B : Type} (m : M A) (k : A -> M B) vis b vis' :
  bind m k vis = Some (Returned b, vis') ->
  exists a vis1, m vis = Some (Returned a, vis1) /\ k a vis1 = Some (Returned b, vis').
Proof.
  unfold bind. destruct (m vis) as [[[a|msg] vis1]|]; try discriminate.
  intros H. now exists a, vis1.
Qed.

Lemma bind_step {A B : Type} (m : M A) (k : A -> M B) vis a vis1 :
  m vis = Some (Returned a, vis1) -> bind m k vis = k a vis1.
Proof. intros E. unfold bind. now rewrite E. Qed.

Lemma ret_returned {A : Type} (a b : A) vis vis' :
  ret a vis = Some (Returned b, vis') -> a = b /\ vis = vis'.
Proof. unfold ret. intros H. now inversion H. Qed.

(** What a [try ... catch] of the analyzer returned is what its block
    returned, or the [error] result its [catch] clause made of a thrown
    value that has a message. *)
Lemma catch_returned (p : Path) (m : M AnalysisResult) vis r vis' :
  try_catch m (error_result p) vis = Some (Returned r, vis') ->
  m vis = Some (Returned r, vis')
  \/ exists msg, m vis = Some (Thrown (Message msg), vis') /\ r = ErrorResult msg p.
Proof.
  unfold try_catch. destruct (m vis) as [[[a|error] vis1]|]; try discriminate.
  - intros H. now left.
  - destruct error as [msg|raised]; [|discriminate].
    intros H. injection H as <- <-. right. now exists msg.
Qed.

(** What it threw is what getting the message of a thrown value threw. *)
Lemma catch_thrown (p : Path) (m : M AnalysisResult) vis raised vis' :
  try_catch m (error_result p) vis = Some (Thrown raised, vis') ->
  m vis = Some (Thrown (Opaque raised), vis').
Proof.
  unfold try_catch. destruct (m vis) as [[[a|error] vis1]|]; try discriminate.
  destruct error as [msg|raised']; [discriminate|].
  intros H. injection H as <- <-. reflexivity.
Qed.

Lemma catch_step_returned (p : Path) (m : M AnalysisResult) vis r vis' :
  m vis = Some (Returned r, vis') ->
  try_catch m (error_result p) vis = Some (Returned r, vis').
Proof. intros E. unfold try_catch. now rewrite E. Qed.

Lemma catch_step_message (p : Path) (m : M AnalysisResult) vis msg vis' :
  m vis = Some (Thrown (Message msg), vis') ->
  try_catch m (error_result p) vis = Some (Returned (ErrorResult msg p), vis').
Proof. intros E. unfold try_catch. now rewrite E. Qed.

Lemma catch_step_opaque (p : Path) (m : M AnalysisResult) vis raised vis' :
  m vis = Some (Thrown (Opaque raised), vis') ->
  try_catch m (error_result p) vis = Some (Thrown raised, vis').
Proof. intros E. unfold try_catch. now rewrite E. Qed.

Section Returned.

Variable config : AnalyzerConfig.
Variable heap : Heap.
Variable self : Analyze.

Lemma handleArray_returned l arr context vis r vis' :
  handleArray self l arr context vis = Some (Returned r, vis') ->
  exists groups, r = ArrayResult (Z.of_nat (List.length arr)) groups (path context).
Proof.
  unfold handleArray. intros H.
  apply bind_returned in H as (_ & vis1 & _ & H).
  apply bind_returned in H as (groups & vis2 & _ & H).
  apply ret_returned in H as [<- _]. now exists groups.
Qed.

Lemma handleObject_returned l o context vis r vis' :
  handleObject config self l o context vis = Some (Returned r, vis') ->
  exists props syms proto,
    r = ObjectResult (or_else (className o) "Object") props syms proto (path context).
Proof.
  unfold handleObject. intros H.
  apply bind_returned in H as (_ & vis1 & _ & H).
  apply bind_returned in H as (props & vis2 & _ & H).
  apply bind_returned in H as (syms & vis3 & _ & H).
  apply bind_returned in H as (proto & vis4 & _ & H).
  apply ret_returned in H as [<- _]. now eexists _, _, _.
Qed.

Lemma handleFunction_returned f context vis r vis' :
  handleFunction config f context vis = Some (Returned r, vis') ->
  vis' = vis
  /\ exists parameters,
       r = FunctionResult (or_else (Some (fn_name f)) "(anonymous)")
             (String.eqb (fn_constructor f) "AsyncFunction")
             (String.eqb (fn_constructor f) "GeneratorFunction")
             parameters (path context).
Proof.
  unfold handleFunction. intros H.
  apply bind_returned in H as (ps & vis1 & Hps & H).
  apply ret_returned in H as [<- <-].
  split; [|now eexists].
  destruct (includeMethods config).
  - apply bind_returned in Hps as (info & vis2 & Hinfo & Hps).
    apply ret_returned in Hps as [_ <-].
    unfold of_outcome in Hinfo. now injection Hinfo as _ <-.
  - now apply ret_returned in Hps as [_ <-].
Qed.

Lemma apply_builtin_returned b o context vis r vis' :
  apply_builtin config self b o context vis = Some (Returned r, vis') ->
  result_type r = builtInTag b /\ result_path r = path context.
Proof.
  unfold apply_builtin. intros H.
  destruct b, (slots o) as [|[[iso time]|]| | | | | |];
    try discriminate; try (apply ret_returned in H as [<- _]; now split).
  - destruct (maxDepth config >? depth context).
    + apply bind_returned in H as (es & vis1 & _ & H).
      apply ret_returned in H as [<- _]. now split.
    + apply ret_returned in H as [<- _]. now split.
  - destruct (maxDepth config >? depth context).
    + apply bind_returned in H as (es & vis1 & _ & H).
      apply ret_returned in H as [<- _]. now split.
    + apply ret_returned in H as [<- _]. now split.
Qed.

End Returned.

Lemma builtInTag_not_marker b :
  builtInTag b <> "max-depth-reached" /\ builtInTag b <> "circular-reference".
Proof. destruct b as [| | | | | |k]; try (split; discriminate). destruct k; split; discriminate. Qed.

(** A result returned by the dispatch is the output of a caller's handler, or
    it is written by the analyzer at the path of the context, it is not the
    depth marker, and it is the cycle marker only for an object already in
    the visited set. *)
Lemma dispatch_returned config heap self value context vis r vis' :
  dispatch config heap self value context vis = Some (Returned r, vis') ->
  (exists l o f,
      value = VRef l /\ heap l = PlainObject o /\ (l ∉ vis) /\
      customHandler config o = Some (CallerHandler f) /\
      f heap value context vis = (Returned r, vis'))
  \/ (result_path r = path context /\
      result_type r <> "max-depth-reached" /\
      (result_type r = "circular-reference" -> exists l, value = VRef l /\ l ∈ vis)).
Proof.
  intros H.
  destruct value as [| |s|n|b|n|d|f|l]; simpl in H;
    try (apply ret_returned in H as [<- _]; right; repeat split; discriminate).
  { apply handleFunction_returned in H as [_ [ps ->]]. right. repeat split; discriminate. }
  destruct (heap l) as [elements|o|error] eqn:Hl.
  - apply handleArray_returned in H as [groups ->]. right. repeat split; discriminate.
  - apply bind_returned in H as (seen & vis1 & Hseen & H).
    unfold visited_has in Hseen. inversion Hseen; subst seen vis1; clear Hseen.
    destruct (bool_decide_reflect (l ∈ vis)) as [Hin|Hin].
    + apply ret_returned in H as [<- _]. right. repeat split; try discriminate.
      intros _. now exists l.
    + destruct (customHandler config o) as [[b|f]|] eqn:Hc.
      * apply apply_builtin_returned in H as [Ht Hp]. right.
        destruct (builtInTag_not_marker b) as [H1 H2].
        rewrite Ht. repeat split; auto. intros Hcirc. contradiction.
      * left. exists l, o, f. simpl in H. injection H as H.
        repeat split; auto.
      * apply handleObject_returned in H as (props & syms & proto & ->).
        right. repeat split; discriminate.
  - apply bind_returned in H as (seen & vis1 & Hseen & H).
    unfold visited_has in Hseen. inversion Hseen; subst seen vis1; clear Hseen.
    destruct (bool_decide_reflect (l ∈ vis)) as [Hin|Hin]; [|discriminate].
    apply ret_returned in H as [<- _]. right. repeat split; try discriminate.
    intros _. now exists l.
Qed.

(** C2, counterexample.  Within the bound the marker can still come back:
    a handler registered by a caller returns what it likes, and [analyze]
    hands that on.  With a handler for [Point] that answers
    [max-depth-reached], the instance is reported by the marker at depth 0
    under the default [maxDepth] of 10. *)
Lemma marker_within_the_bound :
  analyze markerConfig pointHeap (VRef 2) rootContext ∅
  = Some (Returned (MaxDepthResult (path rootContext)), ∅)
  /\ ~ depth rootContext > maxDepth markerConfig.
Proof. split; [vm_compute; reflexivity|vm_compute; discriminate]. Qed.

(** C2, as amended.  As long as no handler registered by a caller returns
    the marker itself, [analyze] returns the [max-depth-reached] marker at
    [context.path] exactly when [context.depth] strictly exceeds
    [maxDepth]: beyond the bound it returns the marker and nothing else
    happens, and within the bound, a node at depth [maxDepth] included, it
    returns what the normal dispatch returns, which never carries the
    marker's tag.  With [maxDepth = 1], [{a: {b: {c: 1}}}] has [a] analyzed
    as an object at depth 1 and [b], at depth 2, replaced by the marker. *)
Theorem depth_guard_exact config heap value context vis
    (Hcaller : caller_output_untagged config heap value context vis "max-depth-reached") :
  ((exists vis', analyze config heap value context vis
                 = Some (Returned (MaxDepthResult (path context)), vis'))
   <-> depth context > maxDepth config)
  /\ (forall r vis', analyze config heap value context vis = Some (Returned r, vis') ->
        result_type r = "max-depth-reached" ->
        depth context > maxDepth config /\ r = MaxDepthResult (path context) /\ vis' = vis)
  /\ (depth context <= maxDepth config ->
      analyze config heap value context vis
      = catching context (dispatch config heap (analyze config heap) value context) vis)
  /\ analyzeRoot (TypeAnalyzer_new (withMaxDepth 1)) nestedHeap (VRef 1)
     = Some (Returned
               (ObjectResult "Object"
                  [("a", ObjectResult "Object"
                           [("b", MaxDepthResult [KeyString "a"; KeyString "b"])]
                           None None [KeyString "a"])]
                  None None [])).
Proof.
  assert (Honly : forall r vis',
            analyze config heap value context vis = Some (Returned r, vis') ->
            result_type r = "max-depth-reached" ->
            depth context > maxDepth config /\ r = MaxDepthResult (path context) /\ vis' = vis).
  { intros r vis' Ha Ht.
    destruct (Z_gt_le_dec (depth context) (maxDepth config)) as [Hd|Hd].
    - rewrite analyze_beyond_depth in Ha by assumption. inversion Ha. auto.
    - exfalso. rewrite analyze_within_depth in Ha by assumption.
      apply catch_returned in Ha as [Hdis|(msg & _ & ->)]; [|discriminate].
      apply dispatch_returned in Hdis as [(l & o & f & Hv & Hl & _ & Hc & Hf)|(_ & Hn & _)].
      + exact (Hcaller l o f r vis' Hv Hl Hc Hf Ht).
      + contradiction. }
  split; [|split; [exact Honly|split]].
  - split.
    + intros [vis' Ha]. now apply (Honly _ _ Ha).
    + intros Hd. exists vis. now apply analyze_beyond_depth.
  - apply analyze_within_depth.
  - vm_compute. reflexivity.
Qed.

Lemma depth_guard_exact_witness :
  caller_output_untagged pointConfig pointHeap (VRef 2) rootContext ∅ "max-depth-reached"
  /\ ((exists vis', analyze pointConfig pointHeap (VRef 2) rootContext ∅
                    = Some (Returned (MaxDepthResult (path rootContext)), vis'))
      <-> depth rootContext > maxDepth pointConfig).
Proof.
  assert (H : caller_output_untagged pointConfig pointHeap (VRef 2) rootContext ∅
                "max-depth-reached").
  { intros l o f r vis' Hv Hl Hc Hf. inversion Hv; subst l.
    vm_compute in Hl. inversion Hl; subst o.
    vm_compute in Hc. inversion Hc; subst f.
    inversion Hf. discriminate. }
  split; [exact H|].
  exact (proj1 (depth_guard_exact pointConfig pointHeap (VRef 2) rootContext ∅ H)).
Defined.


(** ** Records kept in insertion order *)

Lemma record_get_set_eq {A : Type} (k : string) (a : A) (r : list (string * A)) :
  record_get k (record_set k a r) = Some a.
Proof.
  induction r as [|[k' b] r IH]; simpl.
  - now rewrite String.eqb_refl.
  - destruct (String.eqb k' k) eqn:E; simpl; rewrite E; auto.
Qed.

Lemma record_get_set_ne {A : Type} (k k' : string) (a : A) (r : list (string * A)) :
  k <> k' -> record_get k' (record_set k a r) = record_get k' r.
Proof.
  intros Hne. induction r as [|[k0 b] r IH]; simpl.
  - destruct (String.eqb_spec k k'); [contradiction|reflexivity].
  - destruct (String.eqb_spec k0 k) as [->|Hk0]; simpl.
    + destruct (String.eqb_spec k k'); [contradiction|reflexivity].
    + destruct (String.eqb_spec k0 k'); auto.
Qed.

Lemma Forall_record_set {A : Type} (P : A -> Prop) (k : string) (a : A)
    (r : list (string * A)) :
  P a -> Forall (fun kv => P (snd kv)) r -> Forall (fun kv => P (snd kv)) (record_set k a r).
Proof.
  intros Ha Hr. induction Hr as [|[k' b] r Hb Hr IH]; simpl.
  - constructor; [exact Ha|constructor].
  - destruct (String.eqb k' k); constructor; auto.
Qed.

Lemma Forall_record_get {A : Type} (P : A -> Prop) (k : string) (a : A)
    (r : list (string * A)) :
  Forall (fun kv => P (snd kv)) r -> record_get k r = Some a -> P a.
Proof.
  intros Hr. induction Hr as [|[k' b] r Hb Hr IH]; simpl; [discriminate|].
  destruct (String.eqb k' k); [|exact IH]. intros E. injection E as <-. exact Hb.
Qed.

(** An assignment under the key ["__proto__"] adds nothing to the own
    properties; under any other key it is an insertion. *)
Lemma property_assign_proto {A : Type} (a : A) (r : list (string * A)) :
  property_assign "__proto__" a r = r.
Proof. reflexivity. Qed.

Lemma property_assign_other {A : Type} (k : string) (a : A) (r : list (string * A)) :
  k <> "__proto__" -> property_assign k a r = record_set k a r.
Proof.
  intros Hk. unfold property_assign.
  destruct (String.eqb_spec k "__proto__"); [contradiction|reflexivity].
Qed.

Lemma symbol_toString_other d : symbol_toString d <> "__proto__".
Proof. unfold symbol_toString. destruct d; discriminate. Qed.

Lemma in_names_dec config (names : list OwnProperty) (k : string) :
  (exists q, In q names /\ skipped config q = false /\ prop_name q = k)
  \/ (forall q, In q names -> skipped config q = false -> prop_name q <> k).
Proof.
  induction names as [|p names [(q & Hq & Hs & Hn)|IH]].
  - right. intros q [].
  - left. exists q. split; [now right|auto].
  - destruct (skipped config p) eqn:Hs.
    + right. intros q [<-|Hq] Hsq; [congruence|now apply IH].
    + destruct (String.eqb_spec (prop_name p) k) as [Hk|Hk].
      * left. exists p. split; [now left|auto].
      * right. intros q [<-|Hq] Hsq; [exact Hk|now apply IH].
Qed.

Lemma Forall_property_assign {A : Type} (P : A -> Prop) (k : string) (a : A)
    (r : list (string * A)) :
  P a -> Forall (fun kv => P (snd kv)) r ->
  Forall (fun kv => P (snd kv)) (property_assign k a r).
Proof.
  intros Ha Hr. unfold property_assign. destruct (String.eqb k "__proto__"); [exact Hr|].
  now apply Forall_record_set.
Qed.

(** ** The named-composite table *)

Lemma registered_lookup (hs : list (string * TypeHandler)) (name : string) : forall config,
  customTypes (fold_left (fun c th => registerCustomType (fst th) (snd th) c) hs config)
    !! name
  = match record_get name (List.rev hs) with
    | Some h => Some h
    | None => customTypes config !! name
    end.
Proof.
  induction hs as [|[k h] hs IH] using rev_ind; intros config; [reflexivity|].
  rewrite fold_left_app, rev_app_distr. simpl.
  destruct (String.eqb_spec k name) as [->|Hne].
  - apply lookup_insert_eq.
  - rewrite lookup_insert_ne by exact Hne. apply IH.
Qed.

Lemma constructor_built_ins_only partial :
  p_customTypes partial = None -> built_ins_only (TypeAnalyzer_new partial).
Proof.
  intros Hnone name f Hlookup.
  unfold TypeAnalyzer_new, registerBuiltInHandlers in Hlookup.
  rewrite registered_lookup in Hlookup. rewrite Hnone in Hlookup.
  destruct (record_get name (List.rev builtInHandlers)) as [h|] eqn:Hget.
  - injection Hlookup as ->.
    assert (Hall : Forall (fun kv => forall f, snd kv <> CallerHandler f)
                     (List.rev builtInHandlers)).
    { vm_compute. repeat constructor; discriminate. }
    pose proof (Forall_record_get (fun h => forall f, h <> CallerHandler f)
                  _ _ _ Hall Hget) as Hh.
    exact (Hh f eq_refl).
  - simpl in Hlookup. rewrite lookup_empty in Hlookup. discriminate.
Qed.

(** Without handlers of a caller nothing but the analyzer writes to the
    visited set. *)
Lemma built_ins_spare_visited config heap :
  built_ins_only config -> callers_spare_visited config heap.
Proof. intros H name f value context vis Hf. now destruct (H name f). Qed.

Lemma default_spares_visited heap : callers_spare_visited defaultConfig heap.
Proof. apply built_ins_spare_visited. now apply constructor_built_ins_only. Qed.

(** ** The loops of [handleObject] *)

Section Loops.

Variable config : AnalyzerConfig.
Variable heap : Heap.
Variable self : Analyze.
Variable context : AnalyzerContext.
Hypothesis Hself : steady_call config heap (descends_from context) self.

(** A member whose read throws a value with a message is recorded as an
    [error] at its own path. *)
Lemma analyzeMember_thrown key slot msg vis :
  read_slot slot = Thrown (Message msg) ->
  analyzeMember self context key slot vis
  = Some (Returned (ErrorResult msg (extend (path context) key)), vis).
Proof.
  intros H. unfold analyzeMember, try_catch, bind, of_outcome. now rewrite H.
Qed.

(** A member whose read throws a value without one ends the loop: the
    [catch] clause throws what getting the message threw. *)
Lemma analyzeMember_opaque key slot raised vis :
  read_slot slot = Thrown (Opaque raised) ->
  analyzeMember self context key slot vis = Some (Thrown raised, vis).
Proof.
  intros H. unfold analyzeMember, try_catch, bind, of_outcome. now rewrite H.
Qed.

(** A member that holds a value is recorded as what [analyze] returns for
    it one level deeper, at the path extended by its key. *)
Lemma analyzeMember_value key slot v vis r vis' :
  read_slot slot = Returned v ->
  self v (mkContext (depth context + 1) (extend (path context) key)) vis
  = Some (Returned r, vis') ->
  analyzeMember self context key slot vis = Some (Returned r, vis').
Proof.
  intros H E. unfold analyzeMember, try_catch, bind, of_outcome, call_analyze.
  now rewrite H, E.
Qed.

(** When the analysis of the value raises, the member is recorded as an
    [error] with the message of what was raised. *)
Lemma analyzeMember_raised key slot v vis msg vis' :
  read_slot slot = Returned v ->
  self v (mkContext (depth context + 1) (extend (path context) key)) vis
  = Some (Thrown (Message msg), vis') ->
  analyzeMember self context key slot vis
  = Some (Returned (ErrorResult msg (extend (path context) key)), vis').
Proof.
  intros H E. unfold analyzeMember, try_catch, bind, of_outcome, call_analyze.
  now rewrite H, E.
Qed.

Local Abbreviation recorded := (recorded config heap self context).

Lemma recorded_mono p vis vis0 props :
  grows config heap vis0 vis -> recorded p vis props -> recorded p vis0 props.
Proof.
  unfold recorded. intros Hsub. destruct (shortcut config p); [auto|].
  intros (vis1 & vis2 & r & H1 & H2 & H3). exists vis1, vis2, r.
  split; [eapply grows_trans; eauto|auto].
Qed.

(** What one round of the property loop leaves. *)
Lemma propertyStep_returned acc p vis acc1 vis1 :
  propertyStep config self context acc p vis = Some (Returned acc1, vis1) ->
  grows config heap vis vis1
  /\ (forall k, (skipped config p = false -> prop_name p <> "__proto__" -> prop_name p <> k) ->
        record_get k acc1 = record_get k acc)
  /\ (skipped config p = false -> prop_name p <> "__proto__" ->
      is_Some (record_get (prop_name p) acc1) /\ recorded p vis acc1).
Proof.
  intros E.
  split; [exact (steady_grows _ _ _ _ _ _ (steady_propertyStep _ _ _ _ _ _ Hself) E)|].
  revert E. unfold propertyStep, recorded. destruct (skipped config p) eqn:Hsk.
  - intros E. apply ret_returned in E as [<- _]. split; [reflexivity|discriminate].
  - assert (Hother : forall r k,
              (false = false -> prop_name p <> "__proto__" -> prop_name p <> k) ->
              record_get k (property_assign (prop_name p) r acc) = record_get k acc).
    { intros r k Hk. unfold property_assign.
      destruct (String.eqb_spec (prop_name p) "__proto__") as [Hp|Hp]; [reflexivity|].
      apply record_get_set_ne. auto. }
    destruct (shortcut config p) eqn:Hsh.
    + intros E. apply ret_returned in E as [<- _]. split; [apply Hother|].
      intros _ Hp. rewrite property_assign_other, record_get_set_eq by exact Hp.
      split; [eauto|reflexivity].
    + intros E. apply bind_returned in E as (r & vis2 & Hm & E).
      apply ret_returned in E as [<- <-]. split; [apply Hother|].
      intros _ Hp. rewrite property_assign_other, record_get_set_eq by exact Hp.
      split; [eauto|]. exists vis, vis2, r.
      split; [apply grows_refl|]. split; [exact Hm|reflexivity].
Qed.

(** What the property loop leaves when it comes to its end: the entries
    of the names it does not write are as they were, every listed name
    but ["__proto__"] has an entry, and with distinct names the entry is
    what was recorded for the property. *)
Lemma property_loop_returned (names : list OwnProperty) :
  forall acc vis props vis',
    for_each (propertyStep config self context) names acc vis = Some (Returned props, vis') ->
    grows config heap vis vis'
    /\ (forall k, (forall p, In p names -> skipped config p = false ->
                     prop_name p <> "__proto__" -> prop_name p <> k) ->
          record_get k props = record_get k acc)
    /\ (forall p, In p names -> skipped config p = false -> prop_name p <> "__proto__" ->
          is_Some (record_get (prop_name p) props))
    /\ (List.NoDup (List.map prop_name names) ->
        forall p, In p names -> skipped config p = false -> prop_name p <> "__proto__" ->
          recorded p vis props).
Proof.
  induction names as [|p0 names IH]; intros acc vis props vis' E.
  - simpl in E. apply ret_returned in E as [<- <-].
    split; [apply grows_refl|]. split; [reflexivity|].
    split; [intros p []|intros _ p []].
  - simpl in E. apply bind_returned in E as (acc1 & vis1 & E1 & E).
    apply propertyStep_returned in E1 as (G1 & F1 & R1).
    apply IH in E as (G & F & P & R).
    split; [eapply grows_trans; eauto|]. split; [|split].
    + intros k Hk. rewrite F by (intros p Hp; apply Hk; now right).
      apply F1. intros Hsk. apply Hk; [now left|exact Hsk].
    + intros p [<-|Hp] Hsk Hproto; [|now apply P].
      destruct (R1 Hsk Hproto) as [[r Hr] _].
      destruct (in_names_dec config names (prop_name p0)) as [Hin|Hout].
      * destruct Hin as (q & Hq & Hqs & Hqn). rewrite <- Hqn. apply P; auto.
        now rewrite Hqn.
      * rewrite F by (intros q Hq Hqs _; now apply Hout). eauto.
    + intros Hnd p Hp Hsk Hproto. apply NoDup_cons_iff in Hnd as [Hnotin Hnd].
      destruct Hp as [<-|Hp].
      * destruct (R1 Hsk Hproto) as [_ Hrec]. unfold recorded in *.
        destruct (shortcut config p0).
        -- rewrite F; [exact Hrec|].
           intros q Hq _ _ Heq. apply Hnotin. rewrite <- Heq. now apply in_map.
        -- destruct Hrec as (v1 & v2 & r & Hs & Hm & Hg). exists v1, v2, r.
           split; [exact Hs|]. split; [exact Hm|].
           rewrite F; [exact Hg|].
           intros q Hq _ _ Heq. apply Hnotin. rewrite <- Heq. now apply in_map.
      * apply (recorded_mono p vis1); [exact G1|]. now apply R.
Qed.

Lemma symbol_loop_grows (names : list SymbolProperty) acc vis o vis' :
  for_each (symbolStep self context) names acc vis = Some (o, vis') ->
  grows config heap vis vis'.
Proof.
  apply steady_grows. apply steady_for_each. intros. now apply steady_symbolStep.
Qed.

End Loops.

(** The description of the prototype neither reads nor changes the visited
    set. *)
Lemma filter_members_pure (members : list (string * Outcome bool)) :
  exists out, forall vis,
    filter_each (fun m => of_outcome (snd m)) members vis = Some (out, vis).
Proof.
  induction members as [|[name [keep|error]] members [out IH]].
  - exists (Returned []). reflexivity.
  - destruct out as [rest|error].
    + exists (Returned (if keep then (name, Returned keep) :: rest else rest)).
      intros vis. simpl. unfold bind, of_outcome. simpl. now rewrite IH.
    + exists (Thrown error). intros vis. simpl. unfold bind, of_outcome. simpl. now rewrite IH.
  - exists (Thrown error). reflexivity.
Qed.

Lemma prototype_info_pure config o :
  exists out, forall vis, prototype_info config o vis = Some (out, vis).
Proof.
  unfold prototype_info.
  destruct (includePrototype config); [|now exists (Returned None)].
  destruct (prototype o) as [| |[name|raised] members]; try now exists (Returned None).
  - destruct (includeMethods config); [|now eexists (Returned _)].
    destruct (filter_members_pure members) as [[methods|error] H].
    + eexists (Returned _). intros vis. unfold bind, of_outcome. now rewrite H.
    + exists (Thrown error). intros vis. unfold bind, of_outcome. now rewrite H.
  - now exists (Thrown raised).
Qed.

Lemma prototype_info_visited config o vis out vis' :
  prototype_info config o vis = Some (out, vis') -> vis' = vis.
Proof.
  destruct (prototype_info_pure config o) as [out' H]. rewrite H.
  now intros [= _ <-].
Qed.

(** The parts of the [object] result the generic object handler returned:
    what its two loops and the description of the prototype returned. *)
Lemma handleObject_returned_parts config self l o context vis c props syms proto p vis' :
  handleObject config self l o context vis
  = Some (Returned (ObjectResult c props syms proto p), vis') ->
  exists vis1 entries,
    for_each (propertyStep config self context) (propertyNames config o) [] ({[ l ]} ∪ vis)
    = Some (Returned props, vis1)
    /\ for_each (symbolStep self context) (ownSymbols o) [] vis1 = Some (Returned entries, vis')
    /\ syms = match entries with [] => None | _ => Some entries end
    /\ c = or_else (className o) "Object"
    /\ prototype_info config o vis' = Some (Returned proto, vis')
    /\ p = path context.
Proof.
  unfold handleObject. intros H.
  apply bind_returned in H as (u & vis0 & Hadd & H).
  unfold visited_add in Hadd. injection Hadd as _ <-.
  apply bind_returned in H as (props0 & vis1 & Hprops & H).
  apply bind_returned in H as (entries & vis2 & Hsyms & H).
  apply bind_returned in H as (proto0 & vis3 & Hproto & H).
  apply ret_returned in H as [H <-]. injection H as <- <- <- <- <-.
  pose proof (prototype_info_visited _ _ _ _ _ Hproto) as ->.
  exists vis1, entries. auto 10.
Qed.


(** ** The [try ... catch] of [analyze] *)

(** What the [try ... catch] of [analyze] does with a throw.  [analyze]
    always ends.  Within [maxDepth], when the dispatch or the handler it
    selects throws a value that has a message, the call returns the [error]
    variant with that message at the path of this node; when the thrown
    value has none, the call throws what getting the message threw; and a
    result that is returned is what the dispatch returned or such an
    [error].  In [faultyHeap] the invalid date, the throwing getter and the
    array holding a bigint each become an [error] at their own path while
    [ok] is analyzed. *)
Theorem thrown_messages_become_errors config heap value context vis :
  (exists out vis', analyze config heap value context vis = Some (out, vis'))
  /\ (forall msg vis1,
        depth context <= maxDepth config ->
        dispatch config heap (analyze config heap) value context vis
        = Some (Thrown (Message msg), vis1) ->
        analyze config heap value context vis
        = Some (Returned (ErrorResult msg (path context)), vis1))
  /\ (forall raised vis1,
        depth context <= maxDepth config ->
        dispatch config heap (analyze config heap) value context vis
        = Some (Thrown (Opaque raised), vis1) ->
        analyze config heap value context vis = Some (Thrown raised, vis1))
  /\ (forall r vis',
        depth context <= maxDepth config ->
        analyze config heap value context vis = Some (Returned r, vis') ->
        dispatch config heap (analyze config heap) value context vis = Some (Returned r, vis')
        \/ exists msg,
             dispatch config heap (analyze config heap) value context vis
             = Some (Thrown (Message msg), vis')
             /\ r = ErrorResult msg (path context))
  /\ analyzeRoot (TypeAnalyzer_new CONFIG_PRESETS_MINIMAL) faultyHeap (VRef 1)
     = Some (Returned
               (ObjectResult "Object"
                  [ ("when", ErrorResult "Invalid time value" [KeyString "when"]);
                    ("bad", ErrorResult "boom" [KeyString "bad"]);
                    ("big", ErrorResult "Do not know how to serialize a BigInt"
                              [KeyString "big"]);
                    ("ok", PrimitiveResult "number" (PNumber 1) [KeyString "ok"]) ]
                  None None [])).
Proof.
  split; [|split; [|split; [|split]]].
  - destruct (analyze_steady config heap value context vis) as (out & vis' & E & _).
    now exists out, vis'.
  - intros msg vis1 Hd Hthrown. rewrite analyze_within_depth by assumption.
    now apply catch_step_message.
  - intros raised vis1 Hd Hthrown. rewrite analyze_within_depth by assumption.
    now apply catch_step_opaque.
  - intros r vis' Hd E. rewrite analyze_within_depth in E by assumption.
    now apply catch_returned in E.
  - vm_compute. reflexivity.
Qed.

(** C4.  [analyze] raises when it cannot describe what it caught.  The
    getter [reading] of the class throws an object without prototype while
    [handleObject] lists the methods of the prototype; the [catch] clause of
    [analyze] evaluates [String(error)] on it, which throws a [TypeError],
    and nothing around the clause catches that: the top-level call ends by
    throwing.  So it does for the object whose [constructor] is a getter
    that throws such an object, when the named-composite table is looked
    up.  Only one level down is the raise contained: as the value of the
    property [s] the same instance is reported as an [error] by the [catch]
    clause of the property loop, and [ok] is analyzed. *)
Theorem analyze_raises_what_it_cannot_describe :
  analyzeRoot defaultConfig sensorHeap (VRef 1)
  = Some (Thrown (Message "Cannot convert object to primitive value"))
  /\ analyzeRoot defaultConfig sensorHeap (VRef 3)
     = Some (Thrown (Message "Cannot convert object to primitive value"))
  /\ analyzeRoot defaultConfig sensorHeap (VRef 2)
     = Some (Returned
               (ObjectResult "Object"
                  [ ("s", ErrorResult "Cannot convert object to primitive value"
                            [KeyString "s"]);
                    ("ok", PrimitiveResult "number" (PNumber 1) [KeyString "ok"]) ]
                  None None [])).
Proof. split; [|split]; vm_compute; reflexivity. Qed.

(** ** The cycle guard *)

Lemma analyze_visited_object config heap l o context vis :
  heap l = PlainObject o -> l ∈ vis -> depth context <= maxDepth config ->
  analyze config heap (VRef l) context vis
  = Some (Returned (CircularReferenceResult (path context)), vis).
Proof.
  intros Hl Hin Hd. rewrite analyze_within_depth by assumption.
  unfold catching, try_catch, dispatch. rewrite Hl. unfold bind, visited_has.
  now rewrite bool_decide_true.
Qed.

Lemma analyze_generic_object config heap l o context vis :
  heap l = PlainObject o -> l ∉ vis -> customHandler config o = None ->
  depth context <= maxDepth config ->
  analyze config heap (VRef l) context vis
  = catching context (handleObject config (analyze config heap) l o context) vis.
Proof.
  intros Hl Hin Hc Hd. rewrite analyze_within_depth by assumption.
  unfold catching. apply try_catch_ext.
  unfold dispatch. rewrite Hl. unfold bind at 1. unfold visited_has.
  rewrite bool_decide_false by assumption. now rewrite Hc.
Qed.

Lemma analyze_handled_object config heap l o h context vis :
  heap l = PlainObject o -> l ∉ vis -> customHandler config o = Some h ->
  depth context <= maxDepth config ->
  analyze config heap (VRef l) context vis
  = catching context (apply_handler config heap (analyze config heap) h l o context) vis.
Proof.
  intros Hl Hin Hc Hd. rewrite analyze_within_depth by assumption.
  unfold catching. apply try_catch_ext.
  unfold dispatch. rewrite Hl. unfold bind at 1. unfold visited_has.
  rewrite bool_decide_false by assumption. now rewrite Hc.
Qed.

Lemma analyze_array config heap l elements context vis :
  heap l = ArrayObject elements -> depth context <= maxDepth config ->
  analyze config heap (VRef l) context vis
  = catching context (handleArray (analyze config heap) l elements context) vis.
Proof.
  intros Hl Hd. rewrite analyze_within_depth by assumption.
  unfold catching. apply try_catch_ext. unfold dispatch. now rewrite Hl.
Qed.

(** What [analyze] returned for an object it sent to the generic object
    handler is the [object] result of the handler or the [error] made of
    what the handler threw. *)
Lemma analyze_generic_object_returned config heap l o context vis r vis' :
  heap l = PlainObject o -> l ∉ vis -> customHandler config o = None ->
  depth context <= maxDepth config ->
  analyze config heap (VRef l) context vis = Some (Returned r, vis') ->
  handleObject config (analyze config heap) l o context vis = Some (Returned r, vis')
  \/ exists msg, r = ErrorResult msg (path context).
Proof.
  intros Hl Hout Hc Hd E.
  rewrite (analyze_generic_object config heap l o) in E by assumption.
  apply catch_returned in E as [E|(msg & _ & ->)]; [now left|right; now exists msg].
Qed.

(** The generic object handler records the object before anything else, and
    what follows only adds to the visited set as long as the handlers of
    the caller leave it alone. *)
Lemma handleObject_visited config heap l o context vis out vis' :
  heap l = PlainObject o -> customHandler config o = None ->
  handleObject config (analyze config heap) l o context vis = Some (out, vis') ->
  grows config heap ({[ l ]} ∪ vis) vis'.
Proof.
  intros Hl Hc E. unfold handleObject in E.
  unfold bind at 1 in E. unfold visited_add at 1 in E.
  revert E. apply steady_grows.
  apply steady_bind.
  - apply steady_for_each. intros. apply steady_propertyStep. apply analyze_steady_call.
  - intros props. apply steady_bind.
    + apply steady_for_each. intros. apply steady_symbolStep. apply analyze_steady_call.
    + intros syms. apply steady_bind; [apply steady_prototype_info|].
      intros; apply steady_ret.
Qed.

(** The cycle guard does what is expected of it for objects.  For an object
    that is not an array, whose reference is already in the visited set: at
    a depth that does not exceed [maxDepth], [analyze] returns
    [circular-reference] at the path of the context and leaves the visited
    set as it is, whatever handlers are registered for the object's class
    name, the test being made before the lookup; beyond [maxDepth] the
    depth guard answers first.  Consequently, in the [object] result of an
    object sent to the generic handler below [maxDepth], each property that
    holds the object itself has [circular-reference] at the path extended
    by that property, as long as no handler of a caller has taken the
    object out of the visited set in between, and every other property the
    loop does not skip has its entry; the name ["__proto__"] apart, under
    which no entry can be made.  [a = {self: a, n: 1}] and
    [c = {child: {parent: c}}] are analyzed to the end with the marker at
    the re-encountered path. *)
Theorem revisit_of_object_is_circular config heap l o context vis
    (Hl : heap l = PlainObject o) (Hin : l ∈ vis) :
  (depth context <= maxDepth config ->
   analyze config heap (VRef l) context vis
   = Some (Returned (CircularReferenceResult (path context)), vis))
  /\ (depth context > maxDepth config ->
      analyze config heap (VRef l) context vis
      = Some (Returned (MaxDepthResult (path context)), vis))
  /\ (forall l0 o0 context0 vis0 c props syms proto p vis',
        heap l0 = PlainObject o0 -> l0 ∉ vis0 -> customHandler config o0 = None ->
        depth context0 < maxDepth config ->
        List.NoDup (List.map prop_name (propertyNames config o0)) ->
        analyze config heap (VRef l0) context0 vis0
        = Some (Returned (ObjectResult c props syms proto p), vis') ->
        (callers_spare_visited config heap ->
         forall q, In q (propertyNames config o0) -> skipped config q = false ->
           prop_name q <> "__proto__" ->
           prop_slot q = DataProperty (VRef l0) ->
           record_get (prop_name q) props
           = Some (CircularReferenceResult
                     (extend (path context0) (KeyString (prop_name q)))))
        /\ (forall q, In q (propertyNames config o0) -> skipped config q = false ->
              prop_name q <> "__proto__" ->
              is_Some (record_get (prop_name q) props)))
  /\ analyzeRoot defaultConfig cyclicHeap (VRef 1)
     = Some (Returned
               (ObjectResult "Object"
                  [ ("self", CircularReferenceResult [KeyString "self"]);
                    ("n", PrimitiveResult "number" (PNumber 1) [KeyString "n"]) ]
                  None None []))
  /\ analyzeRoot defaultConfig cyclicHeap (VRef 3)
     = Some (Returned
               (ObjectResult "Object"
                  [ ("child",
                     ObjectResult "Object"
                       [ ("parent",
                          CircularReferenceResult [KeyString "child"; KeyString "parent"]) ]
                       None None [KeyString "child"]) ]
                  None None [])).
Proof.
  split; [|split; [|split; [|split; vm_compute; reflexivity]]].
  - intros Hd. now apply (analyze_visited_object config heap l o).
  - intros Hd. now apply analyze_beyond_depth.
  - intros l0 o0 context0 vis0 c props syms proto p vis' Hl0 Hout Hc Hlt Hnd E.
    apply (analyze_generic_object_returned config heap l0 o0) in E
      as [E|[msg E]]; [|discriminate|assumption..|lia].
    apply handleObject_returned_parts in E as (vis1 & entries & Hprops & _).
    apply (property_loop_returned config heap (analyze config heap) context0
             (analyze_steady_call config heap _)) in Hprops as (_ & _ & P & R).
    split; [|exact P].
    intros Hspare q Hq Hsk Hproto Hslot.
    specialize (R Hnd q Hq Hsk Hproto). unfold recorded, shortcut in R.
    rewrite Hslot in R. simpl in R. rewrite andb_false_r in R.
    destruct R as (vis2 & vis3 & r & Hsub & Hm & Hg).
    erewrite analyzeMember_value in Hm.
    + injection Hm as Hr _. rewrite Hr. exact Hg.
    + reflexivity.
    + apply (analyze_visited_object config heap l0 o0); [exact Hl0| |simpl; lia].
      destruct (Hsub Hspare) as [Hsub' _]. set_solver.
Qed.

Lemma revisit_of_object_is_circular_witness :
  analyze pointConfig pointHeap (VRef 2) (mkContext 1 [KeyString "p"]) {[ 2%positive ]}
  = Some (Returned (CircularReferenceResult [KeyString "p"]), {[ 2%positive ]}).
Proof.
  refine (proj1 (revisit_of_object_is_circular pointConfig pointHeap 2%positive
                   (instanceOf "Point" [("x", VNumber 3); ("y", VNumber 4)])
                   (mkContext 1 [KeyString "p"]) {[ 2%positive ]} eq_refl _) _).
  - now apply elem_of_singleton.
  - vm_compute. discriminate.
Defined.

(** C3.  A self-reference through an array is not reported: the array
    [b = [b]] is in the visited set when it is met again, [handleArray]
    having recorded it, and yet the result is an [array] again, level after
    level, until the depth guard answers; no [circular-reference] appears
    anywhere in the result.  [analyze] returns through its [Array.isArray]
    branch before it reaches the test of the visited set. *)
Theorem revisit_of_array_is_not_circular :
  (2%positive ∈ ({[ 2%positive ]} : Visited)
   /\ option_map fst (analyze defaultConfig cyclicHeap (VRef 2)
                        (mkContext 1 [KeyNumber 0]) {[ 2%positive ]})
      <> Some (Returned (CircularReferenceResult [KeyNumber 0])))
  /\ analyzeRoot (TypeAnalyzer_new (withMaxDepth 1)) cyclicHeap (VRef 2)
     = Some (Returned
               (ArrayResult 1
                  [mkElementType
                     (ArrayResult 1
                        [mkElementType (MaxDepthResult [KeyNumber 0; KeyNumber 0]) 1 1 [0]]
                        [KeyNumber 0])
                     1 1 [0]]
                  [])).
Proof.
  split; [split; [now apply elem_of_singleton|]|]; vm_compute; [discriminate|reflexivity].
Qed.

(** C8, counterexample.  A value reached a second time through a sibling
    branch is not always reported as circular: the shared array [s] of
    [{x: s, y: s}] is analyzed in full both times, and so is a shared
    [Date], which no handler ever records as visited. *)
Lemma shared_reference_not_always_circular :
  analyzeRoot defaultConfig sharedHeap (VRef 3)
  = Some (Returned
            (ObjectResult "Object"
               [ ("x", ArrayResult 1
                         [mkElementType
                            (PrimitiveResult "number" (PNumber 1) [KeyString "x"; KeyNumber 0])
                            1 1 [0]]
                         [KeyString "x"]);
                 ("y", ArrayResult 1
                         [mkElementType
                            (PrimitiveResult "number" (PNumber 1) [KeyString "y"; KeyNumber 0])
                            1 1 [0]]
                         [KeyString "y"]) ]
               None None []))
  /\ analyzeRoot defaultConfig sharedHeap (VRef 5)
     = Some (Returned
               (ObjectResult "Object"
                  [ ("x", DateResult "2024-01-01T00:00:00.000Z" 1704067200000
                            [KeyString "x"]);
                    ("y", DateResult "2024-01-01T00:00:00.000Z" 1704067200000
                            [KeyString "y"]) ]
                  None None [])).
Proof. split; vm_compute; reflexivity. Qed.

(** C8, as amended.  For an object sent to the generic object handler: its
    first encounter within [maxDepth] is analyzed by that handler, which
    records it in the visited set before anything else; what comes back is
    the [object] result of the handler, or an [error] at the same path when
    the handler threw, as it does when a getter of the prototype throws.
    The analyzer never removes anything from the visited set, so that, as
    long as the handlers of the caller leave the set alone, the object is
    still in it when the call ends and in every visited set that follows.
    Every later encounter within [maxDepth] that finds it there, in
    whatever branch, returns [circular-reference] at the path of that
    encounter.  In [{x: s, y: s}] with [s = {v: 1}], [x] is analyzed in
    full and [y] is reported as circular. *)
Theorem shared_object_reported_circular config heap l o context vis
    (Hl : heap l = PlainObject o) (Hc : customHandler config o = None)
    (Hout : l ∉ vis) (Hd : depth context <= maxDepth config) :
  (exists out vis',
      analyze config heap (VRef l) context vis = Some (out, vis')
      /\ analyze config heap (VRef l) context vis
         = catching context (handleObject config (analyze config heap) l o context) vis
      /\ (forall r, out = Returned r ->
            (exists props syms proto,
                r = ObjectResult (or_else (className o) "Object") props syms proto
                      (path context))
            \/ exists msg, r = ErrorResult msg (path context))
      /\ (callers_spare_visited config heap -> l ∈ vis')
      /\ forall context2 vis2,
           l ∈ vis2 -> depth context2 <= maxDepth config ->
           analyze config heap (VRef l) context2 vis2
           = Some (Returned (CircularReferenceResult (path context2)), vis2))
  /\ (callers_spare_visited config heap ->
      forall value2 context2 vis2 out2 vis2',
        analyze config heap value2 context2 vis2 = Some (out2, vis2') -> vis2 ⊆ vis2')
  /\ analyzeRoot defaultConfig sharedHeap (VRef 1)
     = Some (Returned
               (ObjectResult "Object"
                  [ ("x", ObjectResult "Object"
                            [("v", PrimitiveResult "number" (PNumber 1)
                                     [KeyString "x"; KeyString "v"])]
                            None None [KeyString "x"]);
                    ("y", CircularReferenceResult [KeyString "y"]) ]
                  None None [])).
Proof.
  split; [|split; [|vm_compute; reflexivity]].
  - destruct (analyze_steady config heap (VRef l) context vis) as (out & vis' & E & _).
    exists out, vis'. split; [exact E|].
    split; [now apply analyze_generic_object|]. split; [|split].
    + intros r ->.
      apply (analyze_generic_object_returned config heap l o) in E as [E|E];
        try assumption; [left|now right].
      now apply handleObject_returned in E.
    + intros Hspare.
      rewrite (analyze_generic_object config heap l o) in E by assumption.
      unfold catching, try_catch in E.
      destruct (handleObject config (analyze config heap) l o context vis)
        as [[out0 vis0]|] eqn:E0; [|discriminate].
      pose proof (handleObject_visited config heap l o context vis out0 vis0 Hl Hc E0) as G.
      destruct (G Hspare) as [Hsub _].
      assert (vis0 = vis') as <-.
      { destruct out0 as [r|error]; [now injection E as _ <-|].
        unfold error_result, bind, of_outcome in E.
        destruct (describe error); now injection E as _ <-. }
      set_solver.
    + intros context2 vis2 Hin2 Hd2.
      now apply (analyze_visited_object config heap l o).
  - intros Hspare value2 context2 vis2 out2 vis2' E.
    pose proof (steady_grows config heap _ _ _ _ (analyze_steady config heap value2 context2) E)
      as G.
    now destruct (G Hspare).
Qed.

Lemma shared_object_reported_circular_witness :
  exists out vis',
    analyze defaultConfig sharedHeap (VRef 2) (mkContext 1 [KeyString "x"]) {[ 1%positive ]}
    = Some (out, vis')
    /\ 2%positive ∈ vis'
    /\ analyze defaultConfig sharedHeap (VRef 2) (mkContext 1 [KeyString "y"]) vis'
       = Some (Returned (CircularReferenceResult [KeyString "y"]), vis').
Proof.
  assert (Hout : 2%positive ∉ ({[ 1%positive ]} : Visited)).
  { intros H. apply elem_of_singleton in H. discriminate. }
  assert (Hd : depth (mkContext 1 [KeyString "x"]) <= maxDepth defaultConfig).
  { vm_compute. discriminate. }
  destruct (proj1 (shared_object_reported_circular defaultConfig sharedHeap 2%positive
                     (objectLiteral [("v", VNumber 1)])
                     (mkContext 1 [KeyString "x"]) {[ 1%positive ]}
                     eq_refl eq_refl Hout Hd))
    as (out & vis' & E & _ & _ & Hin & Hlater).
  exists out, vis'. split; [exact E|].
  pose proof (Hin (default_spares_visited sharedHeap)) as Hin'.
  split; [exact Hin'|].
  apply (Hlater (mkContext 1 [KeyString "y"]) vis' Hin'). vm_compute. discriminate.
Defined.


(** ** What enters the visited set *)

(** C9, counterexample.  A handler registered by a caller is handed the
    live visited set and may write to it: with a handler for [Point] that
    adds its value, the instance [p] of [{a: p, b: p}] is in the visited set
    after the first encounter, though it was never sent to the generic
    object handler or to the array handler, and the second encounter is
    reported as [circular-reference]. *)
Lemma caller_handler_marks_its_value :
  (exists vis',
      analyze markingConfig twiceHeap (VRef 1) rootContext ∅
      = Some (Returned
                (ObjectResult "Object"
                   [ ("a", CustomResult "Point" [] [KeyString "a"]);
                     ("b", CircularReferenceResult [KeyString "b"]) ]
                   None None []),
              vis')
      /\ 2%positive ∈ vis')
  /\ ~ tracked markingConfig twiceHeap 2%positive.
Proof.
  split.
  - eexists. split; [vm_compute; reflexivity|]. set_solver.
  - vm_compute. discriminate.
Qed.

(** C9, as amended.  As long as the handlers registered by a caller leave
    the visited set alone, only arrays and objects sent to the generic
    object handler are ever added to it: whatever [analyze] is called on,
    the visited set it leaves extends the one it found by tracked locations
    only.  An object whose class name has a handler in the named-composite
    table is therefore never in a visited set built by the analyzer: every
    encounter within [maxDepth] goes to its handler again, never to the
    cycle guard, and leaves the object out of the visited set.  The Map
    that contains itself is descended into level after level until the
    depth test of the Map handler stops it, with an empty visited set at the
    end. *)
Theorem only_tracked_values_are_visited config heap value context vis
    (Hspare : callers_spare_visited config heap) :
  (exists out vis',
      analyze config heap value context vis = Some (out, vis')
      /\ vis ⊆ vis'
      /\ forall l, l ∈ vis' -> l ∈ vis \/ tracked config heap l)
  /\ (forall l o h,
        heap l = PlainObject o -> customHandler config o = Some h ->
        (forall l', l' ∈ vis -> tracked config heap l') ->
        depth context <= maxDepth config ->
        analyze config heap (VRef l) context vis
        = catching context (apply_handler config heap (analyze config heap) h l o context) vis
        /\ forall out vis',
             analyze config heap (VRef l) context vis = Some (out, vis') ->
             (l ∉ vis') /\ forall l', l' ∈ vis' -> tracked config heap l')
  /\ analyze (TypeAnalyzer_new (withMaxDepth 2)) mapCycleHeap (VRef 1) rootContext ∅
     = Some (Returned
               (MapResult 1
                  (Some [ (PrimitiveResult "string" (PString "self") [],
                           MapResult 1
                             (Some [ (PrimitiveResult "string" (PString "self") [],
                                      MapResult 1 None []) ])
                             []) ])
                  []),
             ∅).
Proof.
  split; [|split; [|vm_compute; reflexivity]].
  - destruct (analyze_steady config heap value context vis) as (out & vis' & E & G).
    destruct (G Hspare) as [Hsub Hnew]. now exists out, vis'.
  - intros l o h Hl Hc Hvis Hd.
    assert (Huntracked : ~ tracked config heap l).
    { unfold tracked. rewrite Hl, Hc. discriminate. }
    assert (Hout : l ∉ vis) by (intros Hin; apply Huntracked, Hvis, Hin).
    split; [now apply analyze_handled_object|].
    intros out vis' E.
    pose proof (steady_grows config heap _ _ _ _ (analyze_steady config heap (VRef l) context) E)
      as G.
    destruct (G Hspare) as [Hsub Hnew].
    assert (Hall : forall l', l' ∈ vis' -> tracked config heap l').
    { intros l' Hl'. destruct (Hnew l' Hl'); auto. }
    split; [|exact Hall]. intros Hin. apply Huntracked, Hall, Hin.
Qed.

Lemma only_tracked_values_are_visited_witness :
  exists out vis',
    analyze defaultConfig mapCycleHeap (VRef 1) rootContext ∅ = Some (out, vis')
    /\ 1%positive ∉ vis'.
Proof.
  pose proof (only_tracked_values_are_visited defaultConfig mapCycleHeap (VRef 1)
                rootContext ∅ (default_spares_visited mapCycleHeap))
    as [(out & vis' & E & _) [H _]].
  exists out, vis'. split; [exact E|].
  refine (proj1 (proj2 (H 1%positive
            (builtInObject "Map" (MapSlots [(VString "self", VRef 1)]))
            (BuiltInHandler BuiltInMap) eq_refl _ _ _) out vis' E)).
  - vm_compute. reflexivity.
  - intros l' Hl'. set_solver.
  - vm_compute. discriminate.
Defined.

(** ** Dispatch order *)

Lemma customHandler_after_registration config name h o :
  truthy_name (className o) = Some name ->
  customHandler (registerCustomType name h config) o = Some h.
Proof.
  intros Hn. unfold customHandler. rewrite Hn. simpl. apply lookup_insert_eq.
Qed.

(** What [handleFunction] gives for a function whose [toString] does not
    throw a value without a message. *)
Lemma handleFunction_plain config f context vis :
  plain (fn_source f) = true ->
  exists parameters,
    handleFunction config f context vis
    = Some (Returned (FunctionResult (or_else (Some (fn_name f)) "(anonymous)")
                        (String.eqb (fn_constructor f) "AsyncFunction")
                        (String.eqb (fn_constructor f) "GeneratorFunction")
                        parameters (path context)), vis).
Proof.
  intros Hp. unfold handleFunction, analyzeFunctionParameters.
  destruct (includeMethods config); [|now eexists].
  destruct (fn_source f) as [text|[msg|raised]]; try discriminate; now eexists.
Qed.

(** C6.  Within [maxDepth], primitives and functions are resolved by their
    baseline handler, the one of their [typeof], and arrays by the array
    handler before the
    named-composite table is looked at, so registering a handler, under any
    name, changes nothing for them; the table is consulted before the generic
    object handler, so for an object not yet visited whose class name has a
    registered handler [analyze] returns exactly what that handler returns;
    the generic object handler is the fallback when the table has no entry.
    The analysis of a primitive or a function ends and leaves the visited
    set alone; what it returns is at the path of the context and, a
    function whose [toString] throws a value without a message apart (it
    makes the baseline handler throw), carries the tag of its [typeof].
    With a handler for [Point], the instance is described by the handler;
    handlers registered as [Array], [number] and [Number] leave [[1, 1, "x"]]
    and [7] as they were. *)
Theorem named_composite_precedence config heap context vis
    (Hd : depth context <= maxDepth config) :
  (forall value name h,
      (forall l, value <> VRef l) ->
      analyze (registerCustomType name h config) heap value context vis
      = analyze config heap value context vis
      /\ exists out,
           analyze config heap value context vis = Some (out, vis)
           /\ (plain_value value = true ->
               exists r,
                 out = Returned r
                 /\ result_path r = path context
                 /\ (value <> VNull -> result_type r = typeof value))
           /\ (forall r, out = Returned r -> result_path r = path context))
  /\ (forall l elements name h,
        heap l = ArrayObject elements ->
        analyze (registerCustomType name h config) heap (VRef l) context vis
        = catching context
            (handleArray (analyze (registerCustomType name h config) heap) l elements context)
            vis)
  /\ (forall l o name f r vis',
        heap l = PlainObject o -> l ∉ vis ->
        truthy_name (className o) = Some name ->
        f heap (VRef l) context vis = (Returned r, vis') ->
        analyze (registerCustomType name (CallerHandler f) config) heap (VRef l) context vis
        = Some (Returned r, vis'))
  /\ (forall l o,
        heap l = PlainObject o -> l ∉ vis -> customHandler config o = None ->
        analyze config heap (VRef l) context vis
        = catching context (handleObject config (analyze config heap) l o context) vis)
  /\ analyzeRoot pointConfig pointHeap (VRef 2)
     = Some (Returned (CustomResult "Point" [("x", PNumber 3)] []))
  /\ analyzeRoot defaultConfig pointHeap (VRef 2)
     = Some (Returned
               (ObjectResult "Point"
                  [ ("x", PrimitiveResult "number" (PNumber 3) [KeyString "x"]);
                    ("y", PrimitiveResult "number" (PNumber 4) [KeyString "y"]) ]
                  None (Some (mkPrototypeInfo (Some "Point") (Some ["constructor"]))) []))
  /\ analyzeRoot intrudedConfig arraysHeap (VRef 1) = analyzeRoot defaultConfig arraysHeap (VRef 1)
  /\ analyzeRoot intrudedConfig arraysHeap (VNumber 7)
     = Some (Returned (PrimitiveResult "number" (PNumber 7) [])).
Proof.
  split; [|split; [|split; [|split; [|split; [|split; [|split]]]]]];
    [| | | |vm_compute; reflexivity..].
  - intros value name h Hprim.
    rewrite !analyze_within_depth by (simpl; assumption).
    destruct value as [| |s|n|b|n|d|f|l]; try (now destruct (Hprim l));
      (split; [reflexivity|]);
      try (eexists; split; [reflexivity|]; split;
           [intros _; eexists; split; [reflexivity|split; [reflexivity|]];
            try reflexivity; intros Hnull; now destruct Hnull
           |intros r Hr; now injection Hr as <-]).
    unfold catching, try_catch, dispatch, handleFunction, analyzeFunctionParameters,
      bind, of_outcome, ret.
    cbn [plain_value plain].
    destruct (includeMethods config); [destruct (fn_source f) as [text|[m|[m|raised]]]|];
      cbn; eexists; (split; [reflexivity|]);
      (split;
       [intros Hp; first [discriminate|eexists; split; [reflexivity|split; reflexivity]]
       |intros r Hr; first [discriminate|now injection Hr as <-]]).
  - intros l elements name h Hl. apply analyze_array; [exact Hl|simpl; assumption].
  - intros l o name f r vis' Hl Hout Hn Hf.
    rewrite (analyze_handled_object _ heap l o (CallerHandler f));
      [|exact Hl|exact Hout|now apply customHandler_after_registration|simpl; assumption].
    unfold catching, try_catch, apply_handler. now rewrite Hf.
  - intros l o Hl Hout Hc. now apply analyze_generic_object.
Qed.

Lemma named_composite_precedence_witness :
  analyze (registerCustomType "Point" (CallerHandler pointHandler) defaultConfig)
    pointHeap (VRef 2) (mkContext 1 [KeyString "p"]) {[ 1%positive ]}
  = Some (Returned (CustomResult "Point" [("x", PNumber 3)] [KeyString "p"]),
          {[ 1%positive ]}).
Proof.
  refine (proj1 (proj2 (proj2 (named_composite_precedence defaultConfig pointHeap
            (mkContext 1 [KeyString "p"]) {[ 1%positive ]} _)))
            2%positive (instanceOf "Point" [("x", VNumber 3); ("y", VNumber 4)])
            "Point" pointHandler _ _ eq_refl _ eq_refl eq_refl).
  - vm_compute. discriminate.
  - intros H. apply elem_of_singleton in H. discriminate.
Defined.


(** ** The Map and Set handlers *)

(** The callback of the Map handler returns for every entry exactly when
    the analysis of every key and of every value returns, in turn. *)
Lemma map_each_entries (self : Analyze) (c : AnalyzerContext) (entries : list (Value * Value)) :
  forall vis es vis',
    map_each (fun kv => let* k := call_analyze self (fst kv) c in
                        let* v := call_analyze self (snd kv) c in
                        ret (k, v)) entries vis
    = Some (Returned es, vis')
    <-> entries_analysed self c entries vis es vis'.
Proof.
  induction entries as [|[k v] entries IH]; intros vis es vis'; simpl.
  - split.
    + intros H. apply ret_returned in H as [<- <-]. constructor.
    + intros H. inversion H; subst. reflexivity.
  - split.
    + intros H. apply bind_returned in H as ([rk rv] & vis2 & Hkv & H).
      apply bind_returned in Hkv as (rk' & vis1 & Hk & Hkv).
      apply bind_returned in Hkv as (rv' & vis2' & Hv & Hkv).
      apply ret_returned in Hkv as [Hkv <-]. injection Hkv as <- <-.
      apply bind_returned in H as (es' & vis3 & Hes & H).
      apply ret_returned in H as [<- <-].
      econstructor; [exact Hk|exact Hv|]. now apply IH.
    + intros H. inversion H as [|k0 v0 rest vis0 rk vis1 rv vis2 es' vis3 Hk Hv Hes]; subst.
      apply IH in Hes. unfold call_analyze.
      rewrite (bind_step _ _ _ (rk, rv) vis2).
      * now rewrite (bind_step _ _ _ _ _ Hes).
      * cbn [fst snd]. rewrite (bind_step _ _ _ _ _ Hk). now rewrite (bind_step _ _ _ _ _ Hv).
Qed.

Lemma map_each_members (self : Analyze) (c : AnalyzerContext) (members : list Value) :
  forall vis rs vis',
    map_each (fun v => call_analyze self v c) members vis = Some (Returned rs, vis')
    <-> members_analysed self c members vis rs vis'.
Proof.
  induction members as [|v members IH]; intros vis rs vis'; simpl.
  - split.
    + intros H. apply ret_returned in H as [<- <-]. constructor.
    + intros H. inversion H; subst. reflexivity.
  - split.
    + intros H. apply bind_returned in H as (r & vis1 & Hv & H).
      apply bind_returned in H as (rs' & vis2 & Hrs & H).
      apply ret_returned in H as [<- <-].
      econstructor; [exact Hv|]. now apply IH.
    + intros H. inversion H as [|v0 rest vis0 r vis1 rs' vis2 Hv Hrs]; subst.
      apply IH in Hrs. unfold call_analyze in *.
      rewrite (bind_step _ _ _ _ _ Hv). now rewrite (bind_step _ _ _ _ _ Hrs).
Qed.

Lemma entries_analysed_length self c entries vis es vis' :
  entries_analysed self c entries vis es vis' -> List.length es = List.length entries.
Proof. induction 1; simpl; congruence. Qed.

Lemma members_analysed_length self c members vis rs vis' :
  members_analysed self c members vis rs vis' -> List.length rs = List.length members.
Proof. induction 1; simpl; congruence. Qed.


(** ** Contexts of the recursive descents *)

(** C10.  Every recursive call made by the generic object handler (string
    keyed and symbol keyed members) and by the array handler is made at a
    context one level deeper than the caller's whose path is the caller's path
    with one key appended: the handlers cannot tell apart two recursive calls
    that agree on those contexts.  A member is analyzed at exactly the
    context [depth + 1], [path ++ [key]].  The caller's context is a value
    that no call changes: the results of both handlers carry the caller's
    own path, and in [{x: {y: 1}, z: [5]}] the descent into [x] down to
    [["x", "y"]] leaves [z] at [["z"]] and its element at [["z", 0]]. *)
Theorem descent_contexts config self1 self2 l o elements context vis
    (Hagree : agree_on (descends_from context) self1 self2) :
  handleObject config self1 l o context vis = handleObject config self2 l o context vis
  /\ handleArray self1 l elements context vis = handleArray self2 l elements context vis
  /\ (forall key slot v r vis',
        read_slot slot = Returned v ->
        self1 v (mkContext (depth context + 1) (path context ++ [key])%list) vis
        = Some (Returned r, vis') ->
        analyzeMember self1 context key slot vis = Some (Returned r, vis'))
  /\ (forall r vis',
        handleObject config self1 l o context vis = Some (Returned r, vis') ->
        result_path r = path context)
  /\ (forall r vis',
        handleArray self1 l elements context vis = Some (Returned r, vis') ->
        result_path r = path context)
  /\ analyzeRoot defaultConfig siblingsHeap (VRef 1)
     = Some (Returned
               (ObjectResult "Object"
                  [ ("x", ObjectResult "Object"
                            [("y", PrimitiveResult "number" (PNumber 1)
                                     [KeyString "x"; KeyString "y"])]
                            None None [KeyString "x"]);
                    ("z", ArrayResult 1
                            [mkElementType
                               (PrimitiveResult "number" (PNumber 5)
                                  [KeyString "z"; KeyNumber 0])
                               1 1 [0]]
                            [KeyString "z"]) ]
                  None None [])).
Proof.
  split; [now apply handleObject_ext|]. split; [now apply handleArray_ext|].
  split; [|split; [|split; [|vm_compute; reflexivity]]].
  - intros key slot v r vis' Hread Hcall. now apply (analyzeMember_value self1 context key slot v).
  - intros r vis' H. apply handleObject_returned in H as (props & syms & proto & ->).
    reflexivity.
  - intros r vis' H. apply handleArray_returned in H as (groups & ->). reflexivity.
Qed.

Lemma descent_contexts_witness :
  handleObject defaultConfig (analyze defaultConfig nestedHeap) 1%positive
    (objectLiteral [("a", VRef 2)]) rootContext ∅
  = handleObject defaultConfig (onlyAtDepthOne (analyze defaultConfig nestedHeap)) 1%positive
      (objectLiteral [("a", VRef 2)]) rootContext ∅.
Proof.
  refine (proj1 (descent_contexts defaultConfig (analyze defaultConfig nestedHeap)
                   (onlyAtDepthOne (analyze defaultConfig nestedHeap)) 1%positive
                   (objectLiteral [("a", VRef 2)]) [] rootContext ∅ _)).
  intros v c vis [Hdepth _]. unfold onlyAtDepthOne.
  now rewrite bool_decide_true by exact Hdepth.
Defined.

(** ** Array element aggregation *)

(** C1.  The array [[1, 1, "x"]] has two shapes, the number [1] twice and a
    string once, yet [elementTypes] has three groups of count 1 and
    frequency 1/3: the key of a group is the serialized result of the
    element, and that result holds the path of the element, which ends in
    its index, so no two elements of an array ever share a key. *)
Theorem mixed_array_is_not_grouped :
  analyzeRoot defaultConfig arraysHeap (VRef 1)
  = Some (Returned
            (ArrayResult 3
               [ mkElementType (PrimitiveResult "number" (PNumber 1) [KeyNumber 0]) (1 # 3) 1 [0];
                 mkElementType (PrimitiveResult "number" (PNumber 1) [KeyNumber 1]) (1 # 3) 1 [1];
                 mkElementType (PrimitiveResult "string" (PString "x") [KeyNumber 2]) (1 # 3) 1
                   [2] ]
               []))
  /\ JSON_stringify (PrimitiveResult "number" (PNumber 1) [KeyNumber 0])
     <> JSON_stringify (PrimitiveResult "number" (PNumber 1) [KeyNumber 1]).
Proof. split; [vm_compute; reflexivity|vm_compute; discriminate]. Qed.

(** ** Paths of nested results *)

Lemma analyze_result_path config heap value context vis r vis' :
  callers_keep_path config heap ->
  analyze config heap value context vis = Some (Returned r, vis') ->
  result_path r = path context.
Proof.
  intros Hcallers E.
  destruct (Z_gt_le_dec (depth context) (maxDepth config)) as [Hd|Hd].
  - rewrite analyze_beyond_depth in E by assumption. now inversion E.
  - rewrite analyze_within_depth in E by assumption.
    apply catch_returned in E as [Hdis|(msg & _ & ->)]; [|reflexivity].
    apply dispatch_returned in Hdis as [(l & o & f & _ & _ & _ & Hc & Hf)|(Hp & _)];
      [|exact Hp].
    unfold customHandler in Hc. destruct (truthy_name (className o)) as [name|];
      [|discriminate].
    exact (Hcallers name f value context vis r vis' Hc Hf).
Qed.

Lemma for_each_invariant {A S : Type} (I : S -> Prop) (body : S -> A -> M S) (l : list A) :
  (forall s a vis s' vis', I s -> body s a vis = Some (Returned s', vis') -> I s') ->
  forall s vis s' vis',
    I s -> for_each body l s vis = Some (Returned s', vis') -> I s'.
Proof.
  intros Hbody. induction l as [|a l IH]; intros s vis s' vis' Hs E; simpl in E.
  - apply ret_returned in E as [<- _]. exact Hs.
  - apply bind_returned in E as (s1 & vis1 & E1 & E2).
    eapply IH; [|exact E2]. eapply Hbody; eauto.
Qed.


Lemma Forall_sort_insert {A : Type} (P : A -> Prop) (cmp : A -> A -> Z) (x : A) (l : list A) :
  P x -> Forall P l -> Forall P (sort_insert cmp x l).
Proof.
  intros Hx Hl. induction Hl as [|y l Hy Hl IH]; simpl.
  - constructor; [exact Hx|constructor].
  - destruct (cmp x y <=? 0); repeat constructor; auto.
Qed.

Lemma Forall_sort {A : Type} (P : A -> Prop) (cmp : A -> A -> Z) (l : list A) :
  Forall P l -> Forall P (sort cmp l).
Proof.
  intros Hl. induction Hl as [|x l Hx Hl IH]; simpl; [constructor|].
  now apply Forall_sort_insert.
Qed.

Section NestedPaths.

Variable config : AnalyzerConfig.
Variable self : Analyze.
Variable context : AnalyzerContext.
Hypothesis Hself : pathed_call self.

Lemma analyzeMember_path key slot vis r vis' :
  analyzeMember self context key slot vis = Some (Returned r, vis') ->
  result_path r = extend (path context) key.
Proof.
  unfold analyzeMember. intros H.
  apply catch_returned in H as [H|(msg & _ & ->)]; [|reflexivity].
  apply bind_returned in H as (v & vis1 & _ & H).
  exact (Hself _ _ _ _ _ H).
Qed.

(** The results recorded by the two loops of the generic object handler sit
    one key below the object. *)
Lemma handleObject_nested_paths l o vis c props syms proto p vis' :
  handleObject config self l o context vis
  = Some (Returned (ObjectResult c props syms proto p), vis') ->
  p = path context
  /\ Forall (fun kv => one_key_below p (snd kv)) props
  /\ (forall s, syms = Some s -> Forall (fun kv => one_key_below p (snd kv)) s).
Proof.
  unfold handleObject. intros H.
  apply bind_returned in H as (_ & vis1 & _ & H).
  apply bind_returned in H as (props0 & vis2 & Hprops & H).
  apply bind_returned in H as (syms0 & vis3 & Hsyms & H).
  apply bind_returned in H as (proto0 & vis4 & _ & H).
  apply ret_returned in H as [H _]. injection H as _ <- <- _ <-.
  split; [reflexivity|]. split.
  - eapply (for_each_invariant
              (fun acc => Forall (fun kv => one_key_below (path context) (snd kv)) acc));
      [|constructor|exact Hprops].
    intros acc q v0 acc' v0' Hacc Hstep. unfold propertyStep in Hstep.
    destruct (skipped config q).
    + apply ret_returned in Hstep as [<- _]. exact Hacc.
    + destruct (shortcut config q).
      * apply ret_returned in Hstep as [<- _].
        apply Forall_property_assign; [now eexists|exact Hacc].
      * apply bind_returned in Hstep as (r & v1 & Hm & Hstep).
        apply ret_returned in Hstep as [<- _].
        apply Forall_property_assign; [|exact Hacc].
        eexists. exact (analyzeMember_path _ _ _ _ _ Hm).
  - assert (Hall : Forall (fun kv => one_key_below (path context) (snd kv)) syms0).
    { eapply (for_each_invariant
                (fun acc => Forall (fun kv => one_key_below (path context) (snd kv)) acc));
        [|constructor|exact Hsyms].
      intros acc q v0 acc' v0' Hacc Hstep. unfold symbolStep in Hstep.
      apply bind_returned in Hstep as (r & v1 & Hm & Hstep).
      apply ret_returned in Hstep as [<- _].
      apply Forall_property_assign; [|exact Hacc].
      eexists. exact (analyzeMember_path _ _ _ _ _ Hm). }
    intros s Hs. destruct syms0; [discriminate|]. injection Hs as <-. exact Hall.
Qed.

(** The representative of every element-type group of an array sits one
    index below the array. *)
Lemma handleArray_nested_paths l arr vis len groups p vis' :
  handleArray self l arr context vis = Some (Returned (ArrayResult len groups p), vis') ->
  p = path context
  /\ Forall (fun g => one_key_below p (et_type g)) groups.
Proof.
  unfold handleArray. intros H.
  apply bind_returned in H as (_ & vis1 & _ & H).
  apply bind_returned in H as (groups0 & vis2 & Hgroups & H).
  apply ret_returned in H as [H _]. injection H as _ <- <-.
  split; [reflexivity|].
  unfold analyzeArrayElements in Hgroups.
  apply bind_returned in Hgroups as (typeMap & vis3 & Hloop & Hgroups).
  apply ret_returned in Hgroups as [<- _].
  apply Forall_sort. apply Forall_map.
  eapply (for_each_invariant
            (fun tm => Forall (fun kv : string * TypeMapEntry =>
                                 one_key_below (path context) (tm_type (snd kv))) tm));
    [|constructor|exact Hloop].
  intros tm [i e] v0 tm' v0' Htm Hstep. unfold elementStep in Hstep. cbn [fst snd] in Hstep.
  apply bind_returned in Hstep as (r & v1 & Hcall & Hstep).
  apply bind_returned in Hstep as (key & v2 & _ & Hstep).
  assert (Hr : one_key_below (path context) r).
  { unfold call_analyze in Hcall. eexists. exact (Hself _ _ _ _ _ Hcall). }
  destruct (record_get key tm) as [entry|] eqn:Hget;
    apply ret_returned in Hstep as [<- _];
    apply (Forall_record_set (fun en => one_key_below (path context) (tm_type en)));
    try exact Htm; simpl; [|exact Hr].
  exact (Forall_record_get (fun en => one_key_below (path context) (tm_type en))
           _ _ _ Htm Hget).
Qed.

End NestedPaths.

(** C5.  The results nested in a Map or Set result carry the path of the Map
    or Set itself, with nothing appended: under the property [m] the key and
    the value of the entry both have the path [["m"]] of the Map, and under
    [s] the member of the Set has the path [["s"]] of the Set. *)
Theorem map_and_set_members_keep_parent_path :
  analyzeRoot defaultConfig collectionsHeap (VRef 1)
  = Some (Returned
            (ObjectResult "Object"
               [ ("m", MapResult 1
                         (Some [ (PrimitiveResult "string" (PString "k") [KeyString "m"],
                                  PrimitiveResult "number" (PNumber 1) [KeyString "m"]) ])
                         [KeyString "m"]);
                 ("s", SetResult 1
                         (Some [ ObjectResult "Object"
                                   [("four", PrimitiveResult "number" (PNumber 4)
                                               [KeyString "s"; KeyString "four"])]
                                   None None [KeyString "s"] ])
                         [KeyString "s"]) ]
               None None [])).
Proof. vm_compute. reflexivity. Qed.


(** * Further properties *)

(** ** The stable sort *)

Lemma sort_insert_Permutation {A : Type} (cmp : A -> A -> Z) (x : A) (l : list A) :
  Permutation (sort_insert cmp x l) (x :: l).
Proof.
  induction l as [|y l IH]; simpl; [reflexivity|].
  destruct (cmp x y <=? 0); [reflexivity|].
  rewrite IH. apply perm_swap.
Qed.

Lemma sort_Permutation {A : Type} (cmp : A -> A -> Z) (l : list A) :
  Permutation (sort cmp l) l.
Proof.
  induction l as [|x l IH]; simpl; [reflexivity|].
  rewrite sort_insert_Permutation. now constructor.
Qed.

Lemma sort_insert_ordered (x : ElementType AnalysisResult) l :
  StronglySorted group_order l ->
  Forall (fun y => first_index x < first_index y) l ->
  StronglySorted group_order (sort_insert (fun a b => et_count b - et_count a) x l).
Proof.
  intros Hs Hx. induction Hs as [|y l Hs IH Hy]; simpl.
  - repeat constructor.
  - apply Forall_cons_1 in Hx as [Hxy Hx].
    destruct (Z.leb_spec (et_count y - et_count x) 0) as [Hle|Hgt].
    + constructor; [now constructor|].
      assert (Hxy' : group_order x y) by (unfold group_order; lia).
      constructor; [exact Hxy'|].
      rewrite Forall_forall in Hy, Hx |- *. intros z Hz.
      specialize (Hy z Hz). specialize (Hx z Hz).
      unfold group_order in *. lia.
    + constructor; [now apply IH|].
      rewrite (sort_insert_Permutation _ x l). constructor; [|exact Hy].
      unfold group_order. lia.
Qed.

Lemma sort_ordered (l : list (ElementType AnalysisResult)) :
  StronglySorted (fun a b => first_index a < first_index b) l ->
  StronglySorted group_order (sort (fun a b => et_count b - et_count a) l).
Proof.
  intros Hs. induction Hs as [|x l Hs IH Hx]; simpl; [constructor|].
  apply sort_insert_ordered; [exact IH|].
  now rewrite (sort_Permutation _ l).
Qed.

(** ** Records kept in insertion order *)

Lemma record_get_None {A : Type} (k : string) (r : list (string * A)) (a : A) :
  record_get k r = None ->
  ~ In k (List.map fst r) /\ record_set k a r = (r ++ [(k, a)])%list.
Proof.
  induction r as [|[k' b] r IH]; simpl; intros H.
  - split; [tauto|reflexivity].
  - destruct (String.eqb_spec k' k) as [->|Hne]; [discriminate|].
    destruct (IH H) as [Hn ->]. split; [|reflexivity].
    intros [Hk|Hk]; [congruence|tauto].
Qed.

Lemma record_get_Some {A : Type} (k : string) (r : list (string * A)) (a b : A) :
  record_get k r = Some b ->
  exists r1 r2, r = (r1 ++ (k, b) :: r2)%list
                /\ record_set k a r = (r1 ++ (k, a) :: r2)%list.
Proof.
  induction r as [|[k' b'] r IH]; simpl; intros H; [discriminate|].
  destruct (String.eqb_spec k' k) as [->|Hne].
  - injection H as ->. now exists [], r.
  - destruct (IH H) as (r1 & r2 & -> & ->). now exists ((k', b') :: r1), r2.
Qed.

Lemma StronglySorted_snoc {A : Type} (R : A -> A -> Prop) (l : list A) (x : A) :
  StronglySorted R l -> Forall (fun y => R y x) l -> StronglySorted R (l ++ [x]).
Proof.
  induction 1 as [|y l Hs IH Hy]; intros Hx; simpl.
  - repeat constructor.
  - apply Forall_cons_1 in Hx as [Hyx Hx]. constructor; [now apply IH|].
    apply Forall_app. split; [exact Hy|]. now repeat constructor.
Qed.

Lemma hd_snoc {A : Type} (d x : A) (l : list A) : l <> [] -> hd d (l ++ [x]) = hd d l.
Proof. now destruct l. Qed.

(** ** The loop of [analyzeArrayElements] *)

Lemma entry_ok_bound seen b b' kv : b <= b' -> entry_ok seen b kv -> entry_ok seen b' kv.
Proof.
  intros Hb (H1 & H2 & H3 & H4). repeat (split; [tauto|]). split; [|tauto].
  eapply List.Forall_impl; [|exact H3]. simpl. intros. lia.
Qed.

Lemma entry_ok_head seen b kv : entry_ok seen b kv -> hd 0 (tm_indices (snd kv)) < b.
Proof.
  intros (_ & Hne & Hb & _). destruct (tm_indices (snd kv)) as [|i l]; [congruence|].
  now apply Forall_cons_1 in Hb as [Hb _].
Qed.

Lemma typeMap_note_ok seen b done k r tm :
  typeMap_ok seen b done tm ->
  JSON_stringify r = Some k -> seen b r ->
  typeMap_ok seen (b + 1) (done ++ [b]) (typeMap_note k r b tm).
Proof.
  intros (Hnd & Hall & Hheads & Hperm) Hk Hseen. unfold typeMap_note.
  assert (Hall' : Forall (entry_ok seen (b + 1)) tm).
  { eapply List.Forall_impl; [|exact Hall]. intros kv. apply entry_ok_bound. lia. }
  destruct (record_get k tm) as [entry|] eqn:Hget.
  - destruct (record_get_Some k tm
                (mkTypeMapEntry (tm_type entry) (tm_count entry + 1)
                   (tm_indices entry ++ [b])%list) entry Hget)
      as (r1 & r2 & -> & ->).
    apply Forall_app in Hall as [_ Hentry]. apply Forall_cons_1 in Hentry as [Hentry _].
    apply Forall_app in Hall' as [Hall1 Hall2]. apply Forall_cons_1 in Hall2 as [_ Hall2].
    destruct Hentry as (Hc & Hne & Hb & Hs & Hkey & Hrep & Hidx). simpl in *.
    split; [|split; [|split]].
    + rewrite map_app in Hnd |- *. exact Hnd.
    + apply Forall_app. split; [exact Hall1|]. constructor; [|exact Hall2].
      unfold entry_ok. simpl. rewrite hd_snoc by assumption.
      split; [rewrite length_app; simpl; lia|].
      split; [now destruct (tm_indices entry)|].
      split; [apply Forall_app; split;
              [eapply List.Forall_impl; [|exact Hb]; simpl; intros; lia
              |repeat constructor; lia]|].
      split; [now apply StronglySorted_snoc|].
      split; [exact Hkey|]. split; [exact Hrep|].
      apply Forall_app. split; [exact Hidx|]. repeat constructor. now exists r.
    + rewrite map_app in Hheads |- *. simpl in *. now rewrite hd_snoc by assumption.
    + rewrite map_app, concat_app in Hperm |- *. simpl in *.
      rewrite <- Hperm. rewrite <- !app_assoc.
      apply Permutation_app_head. apply Permutation_app_head.
      apply Permutation_app_comm.
  - destruct (record_get_None k tm (mkTypeMapEntry r 1 [b]) Hget) as [Hfresh ->].
    split; [|split; [|split]].
    + rewrite map_app. simpl.
      apply (Permutation_NoDup (Permutation_cons_append (List.map fst tm) k)).
      now constructor.
    + apply Forall_app. split; [exact Hall'|]. repeat constructor; simpl; try lia.
      * discriminate.
      * exact Hk.
      * exact Hseen.
      * now exists r.
    + rewrite map_app. simpl. apply StronglySorted_snoc; [exact Hheads|].
      apply Forall_map. eapply List.Forall_impl; [|exact Hall]. intros kv. apply entry_ok_head.
    + rewrite map_app, concat_app. simpl. now rewrite Hperm.
Qed.

Lemma elementStep_returned self context tm i e vis tm' vis' :
  elementStep self context tm (i, e) vis = Some (Returned tm', vis') ->
  exists r k,
    self e (child_context context (KeyNumber i)) vis = Some (Returned r, vis')
    /\ JSON_stringify r = Some k
    /\ tm' = typeMap_note k r i tm.
Proof.
  unfold elementStep, child_context. simpl. intros H.
  apply bind_returned in H as (r & vis1 & Hr & H).
  apply bind_returned in H as (k & vis2 & Hk & H).
  unfold call_analyze in Hr.
  unfold stringify_or_throw in Hk.
  destruct (JSON_stringify r) as [text|] eqn:Htext; [|discriminate].
  apply ret_returned in Hk as [-> ->].
  exists r, k. unfold typeMap_note.
  destruct (record_get k tm); apply ret_returned in H as [<- <-]; auto.
Qed.

(** The positions [forEach] visits: those of an array without holes are
    all of them; in general they increase and stay within the array. *)
Lemma indexed_from_dense {A : Type} (l : list A) (b : Z) :
  indexed_from b (List.map Some l) = List.map (fun ia => (b + fst ia, snd ia)) (indexed_from 0 (List.map Some l))
  /\ List.map fst (indexed_from b (List.map Some l)) = seqZ b (Z.of_nat (List.length l))
  /\ List.map snd (indexed_from b (List.map Some l)) = l.
Proof.
  revert b. induction l as [|a l IH]; intros b; [now repeat split|].
  cbn [indexed_from List.map fst snd List.length].
  destruct (IH (b + 1)) as (H1 & H2 & H3). destruct (IH (0 + 1)) as (H1' & _ & _).
  split; [|split].
  - rewrite Z.add_0_r. f_equal. rewrite H1, H1', List.map_map.
    apply List.map_ext. intros [i x]. simpl. f_equal. lia.
  - rewrite seqZ_cons by lia. rewrite H2. do 2 f_equal; lia.
  - now rewrite H3.
Qed.

Lemma positions_dense (l : list Value) :
  positions (List.map Some l) = seqZ 0 (Z.of_nat (List.length l)).
Proof. apply indexed_from_dense. Qed.

Lemma present_dense (l : list Value) : present (List.map Some l) = l.
Proof. apply indexed_from_dense. Qed.

Lemma indexed_from_bounds {A : Type} (l : list (option A)) :
  forall b,
    Forall (fun i => b <= i < b + Z.of_nat (List.length l)) (List.map fst (indexed_from b l))
    /\ StronglySorted Z.lt (List.map fst (indexed_from b l)).
Proof.
  induction l as [|[a|] l IH]; intros b; [split; constructor| |].
  - destruct (IH (b + 1)) as [Hb Hs]. cbn [indexed_from List.map fst List.length]. split.
    + constructor; [lia|]. eapply List.Forall_impl; [|exact Hb]. simpl. intros. lia.
    + constructor; [exact Hs|]. eapply List.Forall_impl; [|exact Hb]. simpl. intros. lia.
  - destruct (IH (b + 1)) as [Hb Hs]. cbn [indexed_from List.length]. split; [|exact Hs].
    eapply List.Forall_impl; [|exact Hb]. simpl. intros. lia.
Qed.

Lemma typeMap_ok_bound seen b b' done tm :
  b <= b' -> typeMap_ok seen b done tm -> typeMap_ok seen b' done tm.
Proof.
  intros Hb (Hnd & Hall & Hheads & Hperm). repeat split; try assumption.
  eapply List.Forall_impl; [|exact Hall]. intros kv. now apply entry_ok_bound.
Qed.

Lemma element_loop self context arr rest :
  forall b done tm vis tm' vis',
    for_each (elementStep self context) (indexed_from b rest) tm vis
    = Some (Returned tm', vis') ->
    (forall x, In x (indexed_from b rest) -> In x (indexed_from 0 arr)) ->
    typeMap_ok (analysed_to self context arr) b done tm ->
    typeMap_ok (analysed_to self context arr) (b + Z.of_nat (List.length rest))
      (done ++ List.map fst (indexed_from b rest)) tm'.
Proof.
  induction rest as [|[e|] rest IH]; intros b done tm vis tm' vis' E Hin Hok.
  - simpl in E. apply ret_returned in E as [<- _]. simpl.
    rewrite Z.add_0_r, app_nil_r. exact Hok.
  - cbn [indexed_from for_each] in E.
    apply bind_returned in E as (tm1 & vis1 & Estep & E).
    apply elementStep_returned in Estep as (r & k & Hself & Hk & ->).
    eapply IH in E.
    + cbn [List.length indexed_from List.map fst].
      replace (b + Z.of_nat (S (List.length rest)))
        with (b + 1 + Z.of_nat (List.length rest)) by lia.
      rewrite <- (List.app_assoc done [b]) in E. exact E.
    + intros x Hx. apply Hin. now right.
    + apply typeMap_note_ok; [exact Hok|exact Hk|].
      exists e, vis, vis1. split; [|exact Hself]. apply Hin. now left.
  - cbn [indexed_from] in E, Hin |- *.
    eapply IH in E.
    + cbn [List.length].
      replace (b + Z.of_nat (S (List.length rest)))
        with (b + 1 + Z.of_nat (List.length rest)) by lia.
      exact E.
    + exact Hin.
    + eapply typeMap_ok_bound; [|exact Hok]. lia.
Qed.

Lemma analyzeArrayElements_returned self arr context vis groups vis' :
  analyzeArrayElements self arr context vis = Some (Returned groups, vis') ->
  exists tm,
    groups = sort (fun a b => et_count b - et_count a)
               (List.map (group_of (Z.of_nat (List.length arr))) tm)
    /\ typeMap_ok (analysed_to self context arr) (Z.of_nat (List.length arr))
         (positions arr) tm.
Proof.
  unfold analyzeArrayElements. intros H.
  apply bind_returned in H as (tm & vis1 & Hloop & H).
  apply ret_returned in H as [<- _]. exists tm. split; [reflexivity|].
  apply (element_loop self context arr arr 0 [] [] vis tm vis1 Hloop).
  - auto.
  - repeat split; simpl; constructor.
Qed.


(** An array result of [analyze] is what [handleArray] built. *)
Lemma analyze_array_result config heap l arr context vis len groups p vis' :
  heap l = ArrayObject arr ->
  analyze config heap (VRef l) context vis = Some (Returned (ArrayResult len groups p), vis') ->
  len = Z.of_nat (List.length arr) /\ p = path context
  /\ depth context <= maxDepth config
  /\ analyzeArrayElements (analyze config heap) arr context ({[ l ]} ∪ vis)
     = Some (Returned groups, vis').
Proof.
  intros Hl E.
  destruct (Z_gt_le_dec (depth context) (maxDepth config)) as [Hd|Hd].
  { rewrite analyze_beyond_depth in E by assumption. discriminate. }
  rewrite (analyze_array _ _ _ _ _ _ Hl Hd) in E.
  apply catch_returned in E as [Hh|(msg & _ & Hr)]; [|discriminate].
  unfold handleArray in Hh.
  apply bind_returned in Hh as (u & vis1 & Hadd & Hh).
  unfold visited_add in Hadd. injection Hadd as _ <-.
  apply bind_returned in Hh as (groups0 & vis2 & Hgroups & Hh).
  apply ret_returned in Hh as [Hr <-]. injection Hr as <- <- <-.
  auto.
Qed.

Lemma group_of_typeMap_ok seen len done tm :
  typeMap_ok seen len done tm ->
  Forall (fun g => et_count g = Z.of_nat (List.length (et_indices g))
                   /\ 1 <= et_count g
                   /\ StronglySorted Z.lt (et_indices g)
                   /\ et_frequency g = divide (et_count g) len)
    (List.map (group_of len) tm).
Proof.
  intros (_ & Hall & _). apply Forall_map. eapply List.Forall_impl; [|exact Hall].
  intros kv (Hc & Hne & _ & Hs & _). simpl.
  repeat split; try assumption.
  rewrite Hc. destruct (tm_indices (snd kv)); [congruence|simpl; lia].
Qed.

Lemma total_count_length (groups : list (ElementType AnalysisResult)) :
  Forall (fun g => et_count g = Z.of_nat (List.length (et_indices g))) groups ->
  total_count groups = Z.of_nat (List.length (concat (List.map et_indices groups))).
Proof.
  unfold total_count. induction 1 as [|g groups Hg _ IH]; [reflexivity|].
  simpl. rewrite length_app, IH, Hg. lia.
Qed.

Lemma concat_map_Permutation {A B : Type} (f : A -> list B) (l l' : list A) :
  Permutation l l' -> Permutation (concat (List.map f l)) (concat (List.map f l')).
Proof.
  induction 1 as [|x l l' _ IH|x y l|l l' l'' _ IH1 _ IH2]; simpl.
  - reflexivity.
  - now apply Permutation_app_head.
  - rewrite !List.app_assoc. apply Permutation_app_tail. apply Permutation_app_comm.
  - now transitivity (concat (List.map f l')).
Qed.

(** X1.  The groups of an array result partition the positions that hold
    an element: whenever [analyze] describes an array as an [array] result,
    [length] is the length of the array, holes included, and the [indices]
    of its groups, taken together, are the positions [forEach] visits, each
    exactly once: all of [0 .. length-1] for an array without holes, the
    positions that are not holes in general.  Inside a group the indices
    increase; [count] is the number of indices of the group and is at least
    1; [frequency] is the quotient of [count] by [length]; the counts add
    up to the number of elements, which is the length when there is no
    hole.  An array without elements has no group. *)
Theorem element_groups_partition_the_positions config heap l arr context vis len groups p vis' :
  heap l = ArrayObject arr ->
  analyze config heap (VRef l) context vis = Some (Returned (ArrayResult len groups p), vis') ->
  len = Z.of_nat (List.length arr)
  /\ Permutation (concat (List.map et_indices groups)) (positions arr)
  /\ Forall (fun g => StronglySorted Z.lt (et_indices g)
                      /\ et_count g = Z.of_nat (List.length (et_indices g))
                      /\ 1 <= et_count g
                      /\ et_frequency g = divide (et_count g) len) groups
  /\ total_count groups = Z.of_nat (List.length (positions arr))
  /\ (forall elements, arr = List.map Some elements ->
        positions arr = seqZ 0 len /\ total_count groups = len)
  /\ (positions arr = [] -> groups = []).
Proof.
  intros Hl E.
  destruct (analyze_array_result _ _ _ _ _ _ _ _ _ _ Hl E) as (-> & _ & _ & Hgroups).
  apply analyzeArrayElements_returned in Hgroups as (tm & -> & Hok).
  set (len := Z.of_nat (List.length arr)) in *.
  set (cmp := fun a b : ElementType AnalysisResult => et_count b - et_count a).
  pose proof (sort_Permutation cmp (List.map (group_of len) tm)) as Hsort.
  pose proof (group_of_typeMap_ok _ _ _ _ Hok) as Hall.
  assert (Hperm : Permutation
                    (concat (List.map et_indices (sort cmp (List.map (group_of len) tm))))
                    (positions arr)).
  { rewrite (concat_map_Permutation et_indices _ _ Hsort).
    destruct Hok as (_ & _ & _ & Hperm). rewrite <- Hperm.
    rewrite List.map_map. reflexivity. }
  assert (Hall' : Forall (fun g => StronglySorted Z.lt (et_indices g)
                      /\ et_count g = Z.of_nat (List.length (et_indices g))
                      /\ 1 <= et_count g
                      /\ et_frequency g = divide (et_count g) len)
                    (sort cmp (List.map (group_of len) tm))).
  { apply Forall_sort. eapply List.Forall_impl; [|exact Hall]. simpl. tauto. }
  assert (Htotal : total_count (sort cmp (List.map (group_of len) tm))
                   = Z.of_nat (List.length (positions arr))).
  { rewrite total_count_length.
    - now rewrite (Permutation_length Hperm).
    - eapply List.Forall_impl; [|exact Hall']. simpl. tauto. }
  split; [reflexivity|]. split; [exact Hperm|]. split; [exact Hall'|].
  split; [exact Htotal|]. split.
  - intros elements Harr. rewrite Htotal. unfold len. rewrite Harr.
    rewrite positions_dense, length_map, length_seqZ. split; [reflexivity|lia].
  - intros Hnone. revert Hperm Hall'. rewrite Hnone.
    destruct (sort cmp (List.map (group_of len) tm)) as [|g gs]; [reflexivity|].
    intros Hperm Hall'.
    apply Forall_cons_1 in Hall' as [(_ & Hc & H1 & _) _].
    simpl in Hperm. symmetry in Hperm. apply Permutation_nil in Hperm.
    apply app_eq_nil in Hperm as [Hnil _]. rewrite Hnil in Hc. simpl in Hc. lia.
Qed.

Lemma element_groups_partition_the_positions_witness :
  exists groups vis',
    analyze defaultConfig sparseHeap (VRef 1) rootContext ∅
    = Some (Returned (ArrayResult 3 groups []), vis')
    /\ Permutation (concat (List.map et_indices groups)) [0; 2]
    /\ total_count groups = 2.
Proof.
  destruct (analyze defaultConfig sparseHeap (VRef 1) rootContext ∅)
    as [[r vis']|] eqn:E; [|vm_compute in E; discriminate].
  assert (Hr : exists groups, r = Returned (ArrayResult 3 groups [])).
  { vm_compute in E. injection E as <- _. eexists. reflexivity. }
  destruct Hr as [groups ->]. exists groups, vis'. split; [reflexivity|].
  destruct (element_groups_partition_the_positions defaultConfig sparseHeap 1%positive
              [Some (VNumber 1); None; Some (VNumber 3)] rootContext ∅ 3 groups [] vis'
              eq_refl E)
    as (_ & Hperm & _ & Htotal & _).
  split; [exact Hperm|exact Htotal].
Defined.


Lemma StronglySorted_map {A B : Type} (R : B -> B -> Prop) (f : A -> B) (l : list A) :
  StronglySorted R (List.map f l) -> StronglySorted (fun a b => R (f a) (f b)) l.
Proof.
  induction l as [|a l IH]; simpl; intros H; [constructor|].
  apply StronglySorted_inv in H as [Hs Ha].
  constructor; [now apply IH|]. exact (proj1 (List.Forall_map f (R (f a)) l) Ha).
Qed.

Lemma StronglySorted_map_back {A B : Type} (R : B -> B -> Prop) (f : A -> B) (l : list A) :
  StronglySorted (fun a b => R (f a) (f b)) l -> StronglySorted R (List.map f l).
Proof.
  induction 1 as [|a l Hs IH Ha]; simpl; constructor; [exact IH|].
  exact (proj2 (List.Forall_map f (R (f a)) l) Ha).
Qed.

(** X2.  The order of [elementTypes]: a group with a larger count comes
    before a group with a smaller one, and of two groups with the same count
    the one whose shape was met first in the array comes first. *)
Theorem element_groups_order config heap l arr context vis len groups p vis' :
  heap l = ArrayObject arr ->
  analyze config heap (VRef l) context vis = Some (Returned (ArrayResult len groups p), vis') ->
  StronglySorted group_order groups.
Proof.
  intros Hl E.
  destruct (analyze_array_result _ _ _ _ _ _ _ _ _ _ Hl E) as (_ & _ & _ & Hgroups).
  apply analyzeArrayElements_returned in Hgroups as (tm & -> & (_ & _ & Hheads & _)).
  apply sort_ordered.
  apply (StronglySorted_map_back (fun a b => first_index a < first_index b)).
  apply StronglySorted_map in Hheads. exact Hheads.
Qed.

Lemma element_groups_order_witness :
  exists groups vis',
    analyze defaultConfig arraysHeap (VRef 2) rootContext ∅
    = Some (Returned (ArrayResult 2 groups []), vis')
    /\ StronglySorted group_order groups.
Proof.
  destruct (analyze defaultConfig arraysHeap (VRef 2) rootContext ∅)
    as [[r vis']|] eqn:E; [|vm_compute in E; discriminate].
  assert (Hr : exists groups, r = Returned (ArrayResult 2 groups [])).
  { vm_compute in E. injection E as <- _. eexists. reflexivity. }
  destruct Hr as [groups ->]. exists groups, vis'. split; [reflexivity|].
  exact (element_groups_order defaultConfig arraysHeap 2%positive
           [Some (VString "reading"); Some (VString "coding")] rootContext ∅ 2 groups []
           vis' eq_refl E).
Defined.

(** X3.  Groups are keyed by the serialized description.  In an [array]
    result no two groups have the same [JSON.stringify] text of their
    [type]; the [type] of a group is the description [analyze] returned for
    the element at the group's first index, under the context of the descent
    (depth plus one, path extended by the index); and every index of the
    group is the position of an element whose description has the same
    text. *)
Theorem element_groups_keyed_by_text config heap l arr context vis len groups p vis' :
  heap l = ArrayObject arr ->
  analyze config heap (VRef l) context vis = Some (Returned (ArrayResult len groups p), vis') ->
  List.NoDup (List.map (fun g => JSON_stringify (et_type g)) groups)
  /\ Forall (fun g =>
               JSON_stringify (et_type g) <> None
               /\ analysed_to (analyze config heap) context arr (first_index g) (et_type g)
               /\ Forall (fun i => exists r,
                            analysed_to (analyze config heap) context arr i r
                            /\ JSON_stringify r = JSON_stringify (et_type g))
                    (et_indices g)) groups.
Proof.
  intros Hl E.
  destruct (analyze_array_result _ _ _ _ _ _ _ _ _ _ Hl E) as (_ & _ & _ & Hgroups).
  apply analyzeArrayElements_returned in Hgroups as (tm & -> & (Hnd & Hall & _ & _)).
  set (len' := Z.of_nat (List.length arr)).
  set (cmp := fun a b : ElementType AnalysisResult => et_count b - et_count a).
  pose proof (sort_Permutation cmp (List.map (group_of len') tm)) as Hsort.
  split.
  - apply (Permutation_NoDup
             (Permutation_map (fun g => JSON_stringify (et_type g)) (Permutation_sym Hsort))).
    rewrite List.map_map. simpl.
    assert (Hkeys : List.map (fun kv => JSON_stringify (tm_type (snd kv))) tm
                    = List.map Some (List.map fst tm)).
    { rewrite List.map_map. apply map_ext_in. intros kv Hin.
      rewrite List.Forall_forall in Hall. now destruct (Hall kv Hin) as (_ & _ & _ & _ & Hk & _). }
    rewrite Hkeys. apply Finite.Injective_map_NoDup; [|exact Hnd].
    intros a b Hab. congruence.
  - apply Forall_sort. apply Forall_map. eapply List.Forall_impl; [|exact Hall].
    intros kv (_ & _ & _ & _ & Hk & Hrep & Hidx). simpl. rewrite Hk.
    split; [discriminate|]. split; [exact Hrep|exact Hidx].
Qed.

Lemma element_groups_keyed_by_text_witness :
  exists groups vis',
    analyze defaultConfig arraysHeap (VRef 1) rootContext ∅
    = Some (Returned (ArrayResult 3 groups []), vis')
    /\ List.NoDup (List.map (fun g => JSON_stringify (et_type g)) groups).
Proof.
  destruct (analyze defaultConfig arraysHeap (VRef 1) rootContext ∅)
    as [[r vis']|] eqn:E; [|vm_compute in E; discriminate].
  assert (Hr : exists groups, r = Returned (ArrayResult 3 groups [])).
  { vm_compute in E. injection E as <- _. eexists. reflexivity. }
  destruct Hr as [groups ->]. exists groups, vis'. split; [reflexivity|].
  exact (proj1 (element_groups_keyed_by_text defaultConfig arraysHeap 1%positive
                  [Some (VNumber 1); Some (VNumber 1); Some (VString "x")] rootContext ∅ 3
                  groups [] vis' eq_refl E)).
Defined.

(** ** Arrays whose elements cannot be serialized *)









(** ** The serialized text ends with the path *)

Lemma append_cons (x : ascii) (a b : string) :
  (String x a ++ b = String x (a ++ b))%string.
Proof. reflexivity. Qed.

Lemma append_assoc (a b c : string) : ((a ++ b) ++ c = a ++ (b ++ c))%string.
Proof.
  induction a as [|x a IH]; [reflexivity|]. rewrite !append_cons. now rewrite IH.
Qed.

Lemma append_nil_r (a : string) : (a ++ EmptyString = a)%string.
Proof.
  induction a as [|x a IH]; [reflexivity|]. rewrite append_cons. now rewrite IH.
Qed.

Lemma length_append (a b : string) :
  String.length (a ++ b) = (String.length a + String.length b)%nat.
Proof.
  induction a as [|x a IH]; [reflexivity|]. rewrite append_cons. simpl. now rewrite IH.
Qed.

Lemma concat_cons (sep a : string) (l : list string) :
  l <> [] -> String.concat sep (a :: l) = (a ++ sep ++ String.concat sep l)%string.
Proof. now destruct l. Qed.

Lemma concat_snoc (sep : string) (l : list string) (x : string) :
  exists P, String.concat sep (l ++ [x]) = (P ++ x)%string
            /\ (P = EmptyString \/ exists P', P = (P' ++ sep)%string).
Proof.
  induction l as [|a l IH].
  - exists EmptyString. split; [reflexivity|now left].
  - destruct IH as (P & HP & Hor).
    exists (a ++ sep ++ P)%string. split.
    + change ((a :: l) ++ [x])%list with (a :: (l ++ [x]))%list.
      rewrite concat_cons by (now destruct l). rewrite HP.
      now rewrite !append_assoc.
    + right. destruct Hor as [->|(P' & ->)].
      * exists a. now rewrite append_nil_r.
      * exists (a ++ sep ++ P')%string. now rewrite !append_assoc.
Qed.

Lemma object_text_last (l : list string) (m : string) :
  last l = Some m -> exists X, object_text l = (X ++ m ++ "}")%string.
Proof.
  intros Hlast. apply last_Some in Hlast as [l' ->].
  destruct (concat_snoc "," l' m) as (P & HP & _).
  exists ("{" ++ P)%string. unfold object_text. rewrite HP.
  now rewrite !append_assoc.
Qed.

Lemma stringify_path_last r k :
  path_last r = true -> JSON_stringify r = Some k ->
  exists X, k = (X ++ path_text (result_path r) ++ "}")%string.
Proof.
  intros Hlast Hk.
  assert (H : exists l, k = object_text l
                        /\ last l = Some (member "path" (path_text (result_path r)))).
  { destruct r; try discriminate; cbn [JSON_stringify result_path] in Hk |- *.
    all: repeat match type of Hk with
         | context [option_map _ ?o] => destruct o; cbn [option_map] in Hk
         | context [match ?o with _ => _ end] => destruct o
         end; try discriminate.
    all: injection Hk as <-; eexists; split; [reflexivity|].
    all: rewrite ?List.app_comm_cons, ?last_snoc; reflexivity. }
  destruct H as (l & -> & Hl). apply object_text_last in Hl as [X ->].
  exists (X ++ quote "path" ++ ":")%string. unfold member. now rewrite !append_assoc.
Qed.

Lemma path_text_index p i :
  exists w c, path_text (extend p (KeyNumber i)) = (w ++ String c (pretty i ++ "]"))%string
              /\ is_digit c = false.
Proof.
  unfold path_text, extend, array_text. rewrite List.map_app. simpl.
  destruct (concat_snoc "," (List.map key_text p) (number_text i)) as (P & -> & [->|[P' ->]]).
  - exists EmptyString, "["%char. split; reflexivity.
  - exists ("[" ++ P')%string, ","%char. split; [|reflexivity].
    rewrite !append_assoc. reflexivity.
Qed.

Lemma stringify_ends_in_index r k p i :
  path_last r = true -> JSON_stringify r = Some k ->
  result_path r = extend p (KeyNumber i) ->
  ends_in_index k i.
Proof.
  intros Hlast Hk Hp. apply stringify_path_last in Hk as [X ->]; [|exact Hlast].
  rewrite Hp. destruct (path_text_index p i) as (w & c & -> & Hc).
  exists (X ++ w)%string, c. split; [|exact Hc].
  rewrite !append_assoc. rewrite !append_cons. now rewrite !append_assoc.
Qed.

(** ** Decimal spellings *)

Lemma pretty_N_char_digit (n : N) : is_digit (pretty_N_char n) = true.
Proof. unfold pretty_N_char. repeat case_match; reflexivity. Qed.

Lemma pretty_N_go_digits (x : N) (s : string) :
  all_digits s = true -> all_digits (pretty_N_go x s) = true.
Proof.
  revert s. induction (N.lt_wf_0 x) as [x _ IH]; intros s Hs.
  destruct (decide (x = 0)%N) as [->|Hx]; [now rewrite pretty_N_go_0|].
  rewrite pretty_N_go_step by lia. apply IH.
  - apply N.div_lt; lia.
  - simpl. now rewrite pretty_N_char_digit, Hs.
Qed.

Lemma pretty_Z_digits (z : Z) : 0 <= z -> all_digits (pretty z) = true.
Proof.
  intros Hz. destruct z as [|q|q]; [reflexivity| |lia].
  unfold pretty, pretty_Z, pretty, pretty_positive, pretty, pretty_N.
  destruct (decide (N.pos q = 0%N)); [reflexivity|]. now apply pretty_N_go_digits.
Qed.

Lemma all_digits_cons c s :
  all_digits (String c s) = true -> is_digit c = true /\ all_digits s = true.
Proof. simpl. intros H. now apply andb_prop in H. Qed.

Lemma digits_no_gap n : forall x c y t,
  all_digits n = true -> is_digit c = false ->
  (n ++ t = x ++ String c (y ++ t))%string -> False.
Proof.
  induction n as [|a n IH]; intros x c y t Hn Hc E.
  - apply (f_equal String.length) in E.
    rewrite !length_append in E. simpl in E. rewrite length_append in E. lia.
  - apply all_digits_cons in Hn as [Ha Hn]. destruct x as [|b x].
    + injection E as -> _. congruence.
    + rewrite !append_cons in E. injection E as _ E. exact (IH x c y t Hn Hc E).
Qed.

Lemma digits_before_tail n1 : forall n2 c t,
  all_digits n1 = true -> all_digits n2 = true -> is_digit c = false ->
  (n1 ++ String c t = n2 ++ String c t)%string -> n1 = n2.
Proof.
  induction n1 as [|a n1 IH]; intros [|b n2] c t H1 H2 Hc E; [reflexivity| | |].
  - apply all_digits_cons in H2 as [Hb _]. injection E as -> _. congruence.
  - apply all_digits_cons in H1 as [Ha _]. injection E as -> _. congruence.
  - apply all_digits_cons in H1 as [_ H1]. apply all_digits_cons in H2 as [_ H2].
    rewrite !append_cons in E. injection E as -> E. f_equal.
    exact (IH n2 c t H1 H2 Hc E).
Qed.

Lemma digits_after_last_mark w1 : forall w2 c1 c2 n1 n2 c t,
  all_digits n1 = true -> all_digits n2 = true ->
  is_digit c1 = false -> is_digit c2 = false -> is_digit c = false ->
  (w1 ++ String c1 (n1 ++ String c t) = w2 ++ String c2 (n2 ++ String c t))%string ->
  n1 = n2.
Proof.
  induction w1 as [|a w1 IH]; intros [|b w2] c1 c2 n1 n2 c t H1 H2 Hc1 Hc2 Hc E.
  - injection E as _ E. exact (digits_before_tail n1 n2 c t H1 H2 Hc E).
  - rewrite append_cons in E. injection E as _ E.
    exact (False_ind _ (digits_no_gap n1 w2 c2 n2 (String c t) H1 Hc2 E)).
  - rewrite append_cons in E. injection E as _ E.
    symmetry in E. exact (False_ind _ (digits_no_gap n2 w1 c1 n1 (String c t) H2 Hc1 E)).
  - rewrite !append_cons in E. injection E as _ E.
    exact (IH w2 c1 c2 n1 n2 c t H1 H2 Hc1 Hc2 Hc E).
Qed.

Lemma ends_in_index_inj k i j :
  0 <= i -> 0 <= j -> ends_in_index k i -> ends_in_index k j -> i = j.
Proof.
  intros Hi Hj (w1 & c1 & -> & Hc1) (w2 & c2 & E & Hc2).
  apply (inj pretty).
  apply (digits_after_last_mark w1 w2 c1 c2 (pretty i) (pretty j) "]"%char "}" );
    auto using pretty_Z_digits.
Qed.


(** ** Arrays of elements whose description ends with its path *)

Lemma apply_builtin_path_last config self b o context vis r vis' :
  apply_builtin config self b o context vis = Some (Returned r, vis') ->
  path_last r = true.
Proof.
  unfold apply_builtin. intros H.
  destruct b, (slots o) as [|[[iso time]|]| | | | | |];
    try discriminate; try (now apply ret_returned in H as [<- _]).
  - destruct (maxDepth config >? depth context).
    + apply bind_returned in H as (es & vis1 & _ & H).
      now apply ret_returned in H as [<- _].
    + now apply ret_returned in H as [<- _].
  - destruct (maxDepth config >? depth context).
    + apply bind_returned in H as (es & vis1 & _ & H).
      now apply ret_returned in H as [<- _].
    + now apply ret_returned in H as [<- _].
Qed.

Lemma analyze_simple config heap v context vis r vis' :
  simple_element config heap v = true ->
  analyze config heap v context vis = Some (Returned r, vis') ->
  path_last r = true /\ result_path r = path context.
Proof.
  intros Hsimple E.
  destruct (Z_gt_le_dec (depth context) (maxDepth config)) as [Hd|Hd].
  { rewrite analyze_beyond_depth in E by assumption. now injection E as <- _. }
  rewrite analyze_within_depth in E by assumption. unfold catching in E.
  apply catch_returned in E as [Hdis|(msg & _ & ->)]; [|now split].
  destruct v as [| |s|n|b|n|d|f|l]; simpl in Hdis, Hsimple; try discriminate;
    try (apply ret_returned in Hdis as [<- _]; now split).
  destruct (heap l) as [elements|o|error] eqn:Hl; [| |discriminate].
  - apply handleArray_returned in Hdis as [groups ->]. now split.
  - apply bind_returned in Hdis as (seen & vis1 & _ & Hdis).
    destruct seen; [apply ret_returned in Hdis as [<- _]; now split|].
    destruct (customHandler config o) as [[b|f]|]; try discriminate.
    simpl in Hdis. split.
    + eapply apply_builtin_path_last; eauto.
    + eapply apply_builtin_returned; eauto.
Qed.

Lemma indexed_from_In {A : Type} (l : list (option A)) : forall b i (e : A),
  In (i, e) (indexed_from b l) -> b <= i /\ In e (List.map snd (indexed_from b l)).
Proof.
  intros b i e Hin. split.
  - destruct (indexed_from_bounds l b) as [Hb _]. rewrite List.Forall_forall in Hb.
    apply (Hb i). change i with (fst (i, e)). now apply List.in_map.
  - change e with (snd (i, e)). now apply List.in_map.
Qed.

Lemma sort_equal_counts (l : list (ElementType AnalysisResult)) :
  Forall (fun g => et_count g = 1) l ->
  sort (fun a b => et_count b - et_count a) l = l.
Proof.
  induction 1 as [|g l Hg Hl IH]; [reflexivity|].
  simpl. rewrite IH. destruct Hl as [|g' l Hg' _]; [reflexivity|].
  simpl. rewrite Hg, Hg'. reflexivity.
Qed.

Lemma singleton_indices (idx : list Z) :
  idx <> [] -> StronglySorted Z.lt idx ->
  (forall i j, In i idx -> In j idx -> i = j) ->
  idx = [hd 0 idx].
Proof.
  intros Hne Hs Hall. destruct idx as [|i [|j idx]]; [congruence|reflexivity|].
  exfalso. apply StronglySorted_inv in Hs as [_ Hs].
  apply Forall_cons_1 in Hs as [Hij _].
  assert (i = j) by (apply Hall; simpl; auto). lia.
Qed.

Lemma simple_typeMap config heap arr context tm :
  typeMap_ok (analysed_to (analyze config heap) context arr) (Z.of_nat (List.length arr))
    (positions arr) tm ->
  forallb (simple_element config heap) (present arr) = true ->
  Forall (fun kv => tm_indices (snd kv) = [hd 0 (tm_indices (snd kv))]
                    /\ tm_count (snd kv) = 1) tm
  /\ List.map (fun kv => hd 0 (tm_indices (snd kv))) tm = positions arr
  /\ sort (fun a b => et_count b - et_count a)
        (List.map (group_of (Z.of_nat (List.length arr))) tm)
     = List.map (group_of (Z.of_nat (List.length arr))) tm.
Proof.
  intros (_ & Hall & Hheads & Hperm) Hsimple.
  set (len := Z.of_nat (List.length arr)) in *.
  assert (Hsingle : Forall (fun kv => tm_indices (snd kv) = [hd 0 (tm_indices (snd kv))]
                                      /\ tm_count (snd kv) = 1) tm).
  { eapply List.Forall_impl; [|exact Hall].
    intros kv (Hc & Hne & _ & Hs & _ & _ & Hidx).
    assert (Hkey : forall i, In i (tm_indices (snd kv)) -> 0 <= i /\ ends_in_index (fst kv) i).
    { intros i Hi. rewrite List.Forall_forall in Hidx.
      destruct (Hidx i Hi) as (r & (e & vis1 & vis2 & Hin & Hr) & Hk).
      apply indexed_from_In in Hin as [Hi0 Hin]. split; [exact Hi0|].
      rewrite forallb_forall in Hsimple.
      destruct (analyze_simple _ _ _ _ _ _ _ (Hsimple e Hin) Hr) as [Hlast Hpath].
      exact (stringify_ends_in_index r (fst kv) (path context) i Hlast Hk Hpath). }
    assert (Hidx1 : tm_indices (snd kv) = [hd 0 (tm_indices (snd kv))]).
    { apply singleton_indices; [exact Hne|exact Hs|].
      intros i j Hi Hj. destruct (Hkey i Hi), (Hkey j Hj).
      eapply ends_in_index_inj; eauto. }
    split; [exact Hidx1|]. rewrite Hc, Hidx1. reflexivity. }
  split; [exact Hsingle|]. split.
  - apply (StronglySorted_unique_strong Z.lt).
    + intros. lia.
    + exact Hheads.
    + apply (indexed_from_bounds arr 0).
    + rewrite <- Hperm. clear - Hsingle.
      induction Hsingle as [|kv tm [Hkv _] _ IH]; [reflexivity|].
      simpl. rewrite Hkv at 2. simpl. now constructor.
  - apply sort_equal_counts. apply Forall_map.
    eapply List.Forall_impl; [|exact Hsingle]. simpl. tauto.
Qed.

(** X5.  Elements are not grouped by their shape.  In an [array] result for
    an array none of whose elements is a function or an object described by
    the generic object handler or by a caller's handler (so: primitives,
    [null], [undefined], symbols, arrays and instances of the built-in
    classes), every element forms a group of its own, however alike the
    elements are: the groups are in element order, one for each position
    that holds an element (a hole of a sparse array is skipped and has no
    group), the group of position [i] has [indices = [i]], [count = 1] and
    [frequency = 1 / length], the length counting the holes.  In an array
    without holes these are the positions [0 .. length - 1] and there are
    [length] groups.  The serialized description that keys the groups ends
    with the [path] of the element, whose last key is the index. *)
Theorem simple_elements_are_never_grouped config heap l arr context vis len groups p vis' :
  heap l = ArrayObject arr ->
  analyze config heap (VRef l) context vis = Some (Returned (ArrayResult len groups p), vis') ->
  forallb (simple_element config heap) (present arr) = true ->
  List.map et_indices groups = List.map (fun i => [i]) (positions arr)
  /\ Forall (fun g => et_count g = 1 /\ et_frequency g = divide 1 len) groups
  /\ List.length groups = List.length (positions arr)
  /\ (forall elements,
        arr = List.map Some elements ->
        List.map et_indices groups = List.map (fun i => [i]) (seqZ 0 len)
        /\ List.length groups = List.length elements).
Proof.
  intros Hl E Hsimple.
  destruct (analyze_array_result _ _ _ _ _ _ _ _ _ _ Hl E) as (-> & _ & _ & Hgroups).
  apply analyzeArrayElements_returned in Hgroups as (tm & -> & Hok).
  destruct (simple_typeMap _ _ _ _ _ Hok Hsimple) as (Hsingle & Hpositions & ->).
  set (len := Z.of_nat (List.length arr)) in *.
  assert (Hindices : List.map et_indices (List.map (group_of len) tm)
                     = List.map (fun i => [i]) (positions arr)).
  { rewrite <- Hpositions, !List.map_map. apply map_ext_in. intros kv Hin.
    rewrite List.Forall_forall in Hsingle. simpl. now destruct (Hsingle kv Hin). }
  assert (Hlength : List.length (List.map (group_of len) tm) = List.length (positions arr)).
  { rewrite length_map. rewrite <- (length_map (fun kv => hd 0 (tm_indices (snd kv)))).
    now rewrite Hpositions. }
  split; [exact Hindices|]. split; [|split; [exact Hlength|]].
  - apply Forall_map. eapply List.Forall_impl; [|exact Hsingle].
    intros kv [_ Hc]. simpl. now rewrite Hc.
  - intros elements ->. rewrite Hindices, Hlength, positions_dense.
    unfold len. now rewrite !length_map, length_seqZ, Nat2Z.id.
Qed.

Lemma simple_elements_are_never_grouped_witness :
  exists groups vis',
    analyze defaultConfig sparseHeap (VRef 1) rootContext ∅
    = Some (Returned (ArrayResult 3 groups []), vis')
    /\ List.map et_indices groups = [[0]; [2]].
Proof.
  destruct (analyze defaultConfig sparseHeap (VRef 1) rootContext ∅)
    as [[r vis']|] eqn:E; [|vm_compute in E; discriminate].
  assert (Hr : exists groups, r = Returned (ArrayResult 3 groups [])).
  { vm_compute in E. injection E as <- _. eexists. reflexivity. }
  destruct Hr as [groups ->]. exists groups, vis'. split; [reflexivity|].
  exact (proj1 (simple_elements_are_never_grouped defaultConfig sparseHeap 1%positive
                  [Some (VNumber 1); None; Some (VNumber 3)] rootContext ∅ 3 groups [] vis'
                  eq_refl E eq_refl)).
Defined.


(** ** The constructor and [registerCustomType] *)

Lemma registered_flags (hs : list (string * TypeHandler)) : forall config,
  let config' := fold_left (fun c th => registerCustomType (fst th) (snd th) c) hs config in
  maxDepth config' = maxDepth config
  /\ includeMethods config' = includeMethods config
  /\ includeGettersSetters config' = includeGettersSetters config
  /\ includePrototype config' = includePrototype config
  /\ includePrivateProps config' = includePrivateProps config.
Proof.
  induction hs as [|[k h] hs IH]; intros config; simpl; [tauto|].
  destruct (IH (registerCustomType k h config)) as (H1 & H2 & H3 & H4 & H5).
  simpl in *. tauto.
Qed.

Lemma builtIn_installed (name : string) (h : TypeHandler) config :
  In (name, h) builtInHandlers ->
  customTypes (registerBuiltInHandlers config) !! name = Some h.
Proof.
  intros Hin. unfold registerBuiltInHandlers. rewrite registered_lookup.
  assert (Hget : record_get name (List.rev builtInHandlers) = Some h).
  { vm_compute in Hin.
    repeat (destruct Hin as [Hin|Hin]; [injection Hin as <- <-; reflexivity|]).
    destruct Hin. }
  now rewrite Hget.
Qed.

Lemma other_names_kept (name : string) config :
  ~ In name (List.map fst builtInHandlers) ->
  customTypes (registerBuiltInHandlers config) !! name = customTypes config !! name.
Proof.
  intros Hout. unfold registerBuiltInHandlers. rewrite registered_lookup.
  assert (Hget : record_get name (List.rev builtInHandlers) = None).
  { assert (Hall : forall hs : list (string * TypeHandler),
               ~ In name (List.map fst hs) -> record_get name hs = None).
    { induction hs as [|[k h] hs IH]; simpl; intros Hn; [reflexivity|].
      destruct (String.eqb_spec k name) as [->|_]; [tauto|]. apply IH. tauto. }
    apply Hall. intros Hin. apply Hout.
    rewrite List.map_rev in Hin. now apply in_rev in Hin. }
  now rewrite Hget.
Qed.

Lemma TypeAnalyzer_new_installs (partial : PartialConfig) (name : string) :
  (forall h, In (name, h) builtInHandlers ->
             customTypes (TypeAnalyzer_new partial) !! name = Some h)
  /\ (~ In name (List.map fst builtInHandlers) ->
      customTypes (TypeAnalyzer_new partial) !! name
      = default ∅ (p_customTypes partial) !! name)
  /\ maxDepth (TypeAnalyzer_new partial) = default 10 (p_maxDepth partial)
  /\ includeMethods (TypeAnalyzer_new partial) = default true (p_includeMethods partial)
  /\ includeGettersSetters (TypeAnalyzer_new partial)
     = default true (p_includeGettersSetters partial)
  /\ includePrototype (TypeAnalyzer_new partial) = default true (p_includePrototype partial)
  /\ includePrivateProps (TypeAnalyzer_new partial)
     = default false (p_includePrivateProps partial).
Proof.
  unfold TypeAnalyzer_new. set (base := mkConfig _ _ _ _ _ _).
  split; [|split].
  - intros h Hin. now apply builtIn_installed.
  - intros Hout. now rewrite other_names_kept by exact Hout.
  - apply (registered_flags builtInHandlers base).
Qed.

(** X6.  The constructor spreads the caller's configuration over the
    defaults it has computed and then installs the built-in handlers into
    the resulting [customTypes], which is the caller's own [Map] when one
    was given.  It throws exactly when [customTypes] was given as
    [undefined]; short of that, a [maxDepth] given as [undefined] leaves an
    analyzer without a depth bound.  In every other case the built-in
    handlers replace whatever the caller's [customTypes] holds under the
    names [Date], [RegExp], [Map], [Set], [Promise], [Error] and the eleven
    typed-array names, and every other name keeps the caller's handler;
    [maxDepth] is the caller's where given and 10 otherwise, an explicit 0
    included; each boolean option is the caller's where given, its default
    (true, true, true, false) where the field is absent, and reads as false
    where the field was given as [undefined]. *)
Theorem constructor_installs_built_ins (given : ConfigObject) (name : string) :
  (TypeAnalyzer_constructor given = ConstructorThrows <-> o_customTypes given = Undefined)
  /\ (TypeAnalyzer_constructor given = WithoutDepthBound
      <-> o_customTypes given <> Undefined /\ o_maxDepth given = Undefined)
  /\ (forall config,
        TypeAnalyzer_constructor given = Constructed config ->
        (forall h, In (name, h) builtInHandlers -> customTypes config !! name = Some h)
        /\ (~ In name (List.map fst builtInHandlers) ->
            customTypes config !! name = default ∅ (held (o_customTypes given)) !! name)
        /\ maxDepth config = default 10 (held (o_maxDepth given))
        /\ includeMethods config
           = match o_includeMethods given with
             | Absent => true | Undefined => false | Holds b => b end
        /\ includeGettersSetters config
           = match o_includeGettersSetters given with
             | Absent => true | Undefined => false | Holds b => b end
        /\ includePrototype config
           = match o_includePrototype given with
             | Absent => true | Undefined => false | Holds b => b end
        /\ includePrivateProps config
           = match o_includePrivateProps given with
             | Absent => false | Undefined => false | Holds b => b end).
Proof.
  unfold TypeAnalyzer_constructor. split; [|split].
  - destruct (o_customTypes given), (o_maxDepth given); split; congruence.
  - destruct (o_customTypes given), (o_maxDepth given); split;
      try congruence; try (intros [? ?]; congruence); intros _; split; congruence.
  - intros config Hc.
    set (partial := mkPartialConfig (held (o_maxDepth given))
                      (spread (o_includeMethods given))
                      (spread (o_includeGettersSetters given))
                      (spread (o_includePrototype given))
                      (spread (o_includePrivateProps given))
                      (held (o_customTypes given))).
    assert (Hnew : config = TypeAnalyzer_new partial).
    { unfold partial.
      destruct (o_customTypes given) as [| |types], (o_maxDepth given) as [| |depth];
        try discriminate; now injection Hc as <-. }
    rewrite Hnew.
    destruct (TypeAnalyzer_new_installs partial name)
      as (Hin & Hout & Hdepth & Hm & Hg & Hp & Hv).
    split; [exact Hin|]. split; [exact Hout|]. split; [exact Hdepth|].
    rewrite Hm, Hg, Hp, Hv. unfold partial.
    cbn [p_includeMethods p_includeGettersSetters p_includePrototype p_includePrivateProps].
    destruct (o_includeMethods given), (o_includeGettersSetters given),
      (o_includePrototype given), (o_includePrivateProps given);
      (split; [reflexivity|split; [reflexivity|split; reflexivity]]).
Qed.

Lemma constructor_installs_built_ins_witness :
  exists config,
    TypeAnalyzer_constructor
      (mkConfigObject (Holds 0) Undefined Absent Absent Absent
         (Holds {[ "Date" := CallerHandler intruder ]}))
    = Constructed config
    /\ customTypes config !! "Date" = Some (BuiltInHandler BuiltInDate)
    /\ maxDepth config = 0
    /\ includeMethods config = false.
Proof.
  exists (TypeAnalyzer_new
            (mkPartialConfig (Some 0) (Some false) None None None
               (Some {[ "Date" := CallerHandler intruder ]}))).
  split; [reflexivity|].
  pose proof (proj2 (proj2 (constructor_installs_built_ins
                (mkConfigObject (Holds 0) Undefined Absent Absent Absent
                   (Holds {[ "Date" := CallerHandler intruder ]})) "Date")) _ eq_refl) as H.
  split; [apply (proj1 H); left; reflexivity|].
  split; [exact (proj1 (proj2 (proj2 H)))|exact (proj1 (proj2 (proj2 (proj2 H))))].
Defined.

Lemma dispatch_registered config heap self name h value context vis :
  (forall l o, heap l = PlainObject o -> truthy_name (className o) <> Some name) ->
  dispatch (registerCustomType name h config) heap self value context vis
  = dispatch config heap self value context vis.
Proof.
  intros Hname. destruct value as [| |s|n|b|n|d|f|l]; try reflexivity.
  simpl. destruct (heap l) as [elements|o|error] eqn:Hl; [reflexivity| |reflexivity].
  assert (Hc : customHandler (registerCustomType name h config) o = customHandler config o).
  { unfold customHandler. specialize (Hname l o Hl).
    destruct (truthy_name (className o)) as [k|]; [|reflexivity].
    simpl. apply lookup_insert_ne. congruence. }
  rewrite Hc. reflexivity.
Qed.

Lemma analyzeF_registered config heap name h :
  (forall l o, heap l = PlainObject o -> truthy_name (className o) <> Some name) ->
  forall fuel value context vis,
    analyzeF (registerCustomType name h config) heap fuel value context vis
    = analyzeF config heap fuel value context vis.
Proof.
  intros Hname. induction fuel as [|fuel IH]; intros value context vis; [reflexivity|].
  cbn [analyzeF]. unfold analyze_body, catching.
  change (maxDepth (registerCustomType name h config)) with (maxDepth config).
  destruct (depth context >? maxDepth config); [reflexivity|].
  apply try_catch_ext. rewrite dispatch_registered by exact Hname.
  apply dispatch_ext. intros v c vis' _. apply IH.
Qed.

(** X7.  A registration only concerns the objects of its class:
    registering a handler under a name that is the class name of no object
    of the heap changes the result of no analysis, whatever the value, the
    context and the visited set. *)
Theorem registration_leaves_other_classes_alone config heap name h value context vis :
  (forall l o, heap l = PlainObject o -> truthy_name (className o) <> Some name) ->
  analyze (registerCustomType name h config) heap value context vis
  = analyze config heap value context vis.
Proof.
  intros Hname. unfold analyze. apply analyzeF_registered. exact Hname.
Qed.

Lemma registration_leaves_other_classes_alone_witness :
  analyze (registerCustomType "Point" (CallerHandler pointHandler) defaultConfig)
    nestedHeap (VRef 1) rootContext ∅
  = analyze defaultConfig nestedHeap (VRef 1) rootContext ∅.
Proof.
  apply registration_leaves_other_classes_alone.
  intros l o Hl.
  destruct l as [[l|l|]|[l|l|]|]; cbv in Hl; injection Hl as <-; cbv; discriminate.
Defined.


(** ** The keys of an [object] result *)

Lemma record_set_keys_old {A : Type} (k : string) (a : A) (r : list (string * A)) :
  In k (List.map fst r) -> List.map fst (record_set k a r) = List.map fst r.
Proof.
  induction r as [|[k' b] r IH]; simpl; intros Hin; [destruct Hin|].
  destruct (String.eqb_spec k' k) as [->|Hne]; [reflexivity|].
  simpl. f_equal. apply IH. destruct Hin; [congruence|assumption].
Qed.

Lemma record_set_keys_new {A : Type} (k : string) (a : A) (r : list (string * A)) :
  ~ In k (List.map fst r) -> List.map fst (record_set k a r) = (List.map fst r ++ [k])%list.
Proof.
  induction r as [|[k' b] r IH]; simpl; intros Hout; [reflexivity|].
  destruct (String.eqb_spec k' k) as [->|Hne]; [tauto|].
  simpl. f_equal. apply IH. tauto.
Qed.

Lemma record_set_keys_In {A : Type} (k k' : string) (a : A) (r : list (string * A)) :
  In k' (List.map fst (record_set k a r)) <-> k' = k \/ In k' (List.map fst r).
Proof.
  destruct (in_dec string_dec k (List.map fst r)) as [Hin|Hout].
  - rewrite record_set_keys_old by exact Hin. split; [auto|]. intros [->|H]; assumption.
  - rewrite record_set_keys_new by exact Hout. rewrite in_app_iff. simpl.
    split; [intros [H|[<-|[]]]; auto|intros [->|H]; auto].
Qed.

Lemma record_set_keys_NoDup {A : Type} (k : string) (a : A) (r : list (string * A)) :
  List.NoDup (List.map fst r) -> List.NoDup (List.map fst (record_set k a r)).
Proof.
  intros Hnd. destruct (in_dec string_dec k (List.map fst r)) as [Hin|Hout].
  - now rewrite record_set_keys_old.
  - rewrite record_set_keys_new by exact Hout.
    apply (Permutation_NoDup (Permutation_cons_append (List.map fst r) k)).
    now constructor.
Qed.

Lemma property_assign_keys {A : Type} (k : string) (a : A) (r : list (string * A)) :
  ~ In k (List.map fst r) ->
  List.map fst (property_assign k a r)
  = (List.map fst r ++ (if String.eqb k "__proto__" then [] else [k]))%list.
Proof.
  intros Hout. unfold property_assign. destruct (String.eqb k "__proto__").
  - now rewrite app_nil_r.
  - now apply record_set_keys_new.
Qed.

Lemma property_assign_keys_In {A : Type} (k k' : string) (a : A) (r : list (string * A)) :
  In k' (List.map fst (property_assign k a r)) -> k' = k \/ In k' (List.map fst r).
Proof.
  unfold property_assign. destruct (String.eqb k "__proto__"); [auto|].
  apply record_set_keys_In.
Qed.

Lemma propertyStep_keys config self context acc q vis acc1 vis1 :
  propertyStep config self context acc q vis = Some (Returned acc1, vis1) ->
  (skipped config q = true /\ acc1 = acc)
  \/ (skipped config q = false /\ exists r, acc1 = property_assign (prop_name q) r acc).
Proof.
  unfold propertyStep. intros H. destruct (skipped config q).
  - left. now apply ret_returned in H as [<- _].
  - right. split; [reflexivity|]. destruct (shortcut config q).
    + apply ret_returned in H as [<- _]. eauto.
    + apply bind_returned in H as (r & vis2 & _ & H).
      apply ret_returned in H as [<- _]. eauto.
Qed.

Lemma property_loop_keys config self context (names : list OwnProperty) :
  forall acc vis props vis',
    for_each (propertyStep config self context) names acc vis = Some (Returned props, vis') ->
    List.NoDup (List.map prop_name names) ->
    (forall q, In q names -> ~ In (prop_name q) (List.map fst acc)) ->
    List.map fst props
    = (List.map fst acc
       ++ List.map prop_name (List.filter (kept_key_of config) names))%list.
Proof.
  induction names as [|q names IH]; intros acc vis props vis' E Hnd Hfresh.
  - simpl in E. apply ret_returned in E as [<- _]. simpl. now rewrite app_nil_r.
  - cbn [for_each] in E. apply bind_returned in E as (acc1 & vis1 & Estep & E).
    apply NoDup_cons_iff in Hnd as [Hq Hnd]. simpl in Hq.
    apply propertyStep_keys in Estep as [[Hsk ->]|[Hsk [r ->]]];
      cbn [List.filter]; unfold kept_key_of at 1; rewrite Hsk; cbn [negb andb].
    + apply (IH _ _ _ _ E Hnd). intros q' Hq'. apply Hfresh. now right.
    + rewrite (IH _ _ _ _ E Hnd).
      * rewrite property_assign_keys by (apply Hfresh; now left).
        destruct (String.eqb (prop_name q) "__proto__"); cbn [negb List.map].
        -- now rewrite app_nil_r.
        -- now rewrite <- List.app_assoc.
      * intros q' Hq' Hin. apply property_assign_keys_In in Hin as [Heq|Hin].
        -- apply Hq. rewrite <- Heq. now apply in_map.
        -- apply (Hfresh q'); [now right|exact Hin].
Qed.

Lemma NoDup_map_filter {A B : Type} (f : A -> B) (g : A -> bool) (l : list A) :
  List.NoDup (List.map f l) -> List.NoDup (List.map f (List.filter g l)).
Proof.
  induction l as [|a l IH]; simpl; intros Hnd; [constructor|].
  apply NoDup_cons_iff in Hnd as [Ha Hnd]. destruct (g a); [|now apply IH].
  simpl. constructor; [|now apply IH].
  intros Hin. apply Ha. apply in_map_iff in Hin as (x & Hx & Hin).
  apply filter_In in Hin as [Hin _]. apply in_map_iff. eauto.
Qed.

Lemma propertyNames_NoDup config o :
  List.NoDup (List.map prop_name (ownProperties o)) ->
  List.NoDup (List.map prop_name (propertyNames config o)).
Proof.
  intros Hnd. unfold propertyNames. destruct (includePrivateProps config); [exact Hnd|].
  now apply NoDup_map_filter.
Qed.

(** An [object] result of [analyze] for an object without a handler is what
    [handleObject] built. *)
Lemma analyze_object_result config heap l o context vis c props syms proto p vis' :
  heap l = PlainObject o -> customHandler config o = None ->
  analyze config heap (VRef l) context vis
  = Some (Returned (ObjectResult c props syms proto p), vis') ->
  handleObject config (analyze config heap) l o context vis
  = Some (Returned (ObjectResult c props syms proto p), vis').
Proof.
  intros Hl Hc E.
  destruct (Z_gt_le_dec (depth context) (maxDepth config)) as [Hd|Hd].
  { rewrite analyze_beyond_depth in E by assumption. discriminate. }
  destruct (decide (l ∈ vis)) as [Hin|Hout].
  { rewrite (analyze_visited_object _ _ _ _ _ _ Hl Hin Hd) in E. discriminate. }
  destruct (analyze_generic_object_returned _ _ _ _ _ _ _ _ Hl Hout Hc Hd E)
    as [H|[msg H]]; [exact H|discriminate].
Qed.

(** X8.  The keys of [properties].  In an [object] result for an object
    described by the generic object handler, [properties] has one key per
    listed own property other than one named [__proto__], in the order of
    the listing: with [includePrivateProps] every own property name,
    enumerable or not, and ["#"]-prefixed ones included; without it the
    enumerable names that do not start with ["#"], and nothing else.  An
    own property named [__proto__] never gets a key: assigning to that name
    on the object literal that collects the properties goes to the
    inherited setter.  The [constructor] field is the class name, or
    ["Object"] when it is absent or empty, and [path] is the path of the
    context. *)
Theorem object_properties_are_the_listed_names
    config heap l o context vis c props syms proto p vis' :
  heap l = PlainObject o -> customHandler config o = None ->
  analyze config heap (VRef l) context vis
  = Some (Returned (ObjectResult c props syms proto p), vis') ->
  List.NoDup (List.map prop_name (ownProperties o)) ->
  (includePrivateProps config = true ->
   List.map fst props
   = List.filter (fun k => negb (String.eqb k "__proto__"))
       (List.map prop_name (ownProperties o)))
  /\ (includePrivateProps config = false ->
      List.map fst props
      = List.filter (fun k => negb (String.eqb k "__proto__"))
          (List.map prop_name
             (List.filter (fun q => prop_enumerable q && negb (startsWith (prop_name q) "#"))
                (ownProperties o))))
  /\ ~ In "__proto__" (List.map fst props)
  /\ c = or_else (className o) "Object"
  /\ p = path context.
Proof.
  intros Hl Hc E Hnd.
  apply (analyze_object_result _ _ _ _ _ _ _ _ _ _ _ _ Hl Hc) in E.
  apply handleObject_returned_parts in E
    as (vis1 & entries & Hprops & _ & _ & -> & _ & ->).
  apply property_loop_keys in Hprops;
    [|now apply propertyNames_NoDup|intros q _ []].
  simpl in Hprops. rewrite Hprops. unfold propertyNames, kept_key_of, skipped.
  split; [|split; [|split; [|split; reflexivity]]].
  - intros Hp. rewrite Hp. cbn [negb andb]. clear.
    induction (ownProperties o) as [|q qs IH]; [reflexivity|].
    cbn [List.filter List.map].
    destruct (String.eqb (prop_name q) "__proto__"); cbn [negb List.map]; now rewrite IH.
  - intros Hp. rewrite Hp. cbn [negb andb]. clear.
    induction (ownProperties o) as [|q qs IH]; [reflexivity|].
    cbn [List.filter List.map].
    destruct (prop_enumerable q); cbn [List.filter List.map andb]; [|exact IH].
    destruct (startsWith (prop_name q) "#"); cbn [negb andb List.filter List.map];
      [exact IH|].
    destruct (String.eqb (prop_name q) "__proto__"); cbn [negb List.map]; now rewrite IH.
  - intros Hin. apply in_map_iff in Hin as (q & Hq & Hin).
    apply filter_In in Hin as [_ Hin]. rewrite Hq in Hin.
    apply andb_true_iff in Hin as [_ Hin]. discriminate.
Qed.

Lemma object_properties_are_the_listed_names_witness :
  exists props syms proto vis',
    analyze defaultConfig pointHeap (VRef 1) rootContext ∅
    = Some (Returned (ObjectResult "Object" props syms proto []), vis')
    /\ List.map fst props = ["p"; "n"].
Proof.
  destruct (analyze defaultConfig pointHeap (VRef 1) rootContext ∅)
    as [[r vis']|] eqn:E; [|vm_compute in E; discriminate].
  assert (Hr : exists props syms proto,
             r = Returned (ObjectResult "Object" props syms proto [])).
  { vm_compute in E. injection E as <- _. do 3 eexists. reflexivity. }
  destruct Hr as (props & syms & proto & ->). exists props, syms, proto, vis'.
  split; [reflexivity|].
  refine (proj1 (proj2 (object_properties_are_the_listed_names defaultConfig pointHeap
                          1%positive (objectLiteral [("p", VRef 2); ("n", VNumber 7)])
                          rootContext ∅ "Object" props syms proto [] vis'
                          eq_refl eq_refl E _)) eq_refl).
  vm_compute. repeat constructor; simpl; intuition discriminate.
Defined.

(** ** Accessors *)

Lemma record_get_absent {A : Type} (k : string) (r : list (string * A)) :
  ~ In k (List.map fst r) -> record_get k r = None.
Proof.
  induction r as [|[k' b] r IH]; simpl; intros Hout; [reflexivity|].
  destruct (String.eqb_spec k' k) as [->|_]; [tauto|]. apply IH. tauto.
Qed.

(** What a member that got an entry was recorded from. *)
Lemma analyzeMember_returned self context key slot vis r vis' :
  analyzeMember self context key slot vis = Some (Returned r, vis') ->
  (exists v,
      read_slot slot = Returned v
      /\ (self v (mkContext (depth context + 1) (extend (path context) key)) vis
          = Some (Returned r, vis')
          \/ exists msg,
               self v (mkContext (depth context + 1) (extend (path context) key)) vis
               = Some (Thrown (Message msg), vis')
               /\ r = ErrorResult msg (extend (path context) key)))
  \/ (exists msg,
         read_slot slot = Thrown (Message msg)
         /\ r = ErrorResult msg (extend (path context) key)).
Proof.
  unfold analyzeMember. intros H.
  apply catch_returned in H as [H|(msg & H & ->)];
    unfold bind, of_outcome, call_analyze in H;
    destruct (read_slot slot) as [v|error].
  - left. exists v. split; [reflexivity|]. now left.
  - discriminate.
  - left. exists v. split; [reflexivity|]. right. exists msg. now split.
  - right. exists msg. injection H as -> _. now split.
Qed.

(** X9.  Accessors are described, not invoked, while
    [includeGettersSetters] is on: the entry of an own property that has a
    getter or a setter is an [accessor] result with the two flags, at the
    path extended by the property name, whatever the getter would return or
    throw.  With the option off the property is read like any other: when
    the getter returns a value, the entry is what [analyze] returns for that
    value one level deeper, or an [error] with the message of what that
    analysis raised; when the getter throws a value with a message, the
    entry is an [error] with that message.  All entries are at the path
    extended by the property name.  The one property that has no entry is
    an own property named [__proto__], accessor or not. *)
Theorem accessors_are_described_not_invoked
    config heap l o context vis c props syms proto p vis' q :
  heap l = PlainObject o -> customHandler config o = None ->
  analyze config heap (VRef l) context vis
  = Some (Returned (ObjectResult c props syms proto p), vis') ->
  List.NoDup (List.map prop_name (ownProperties o)) ->
  In q (propertyNames config o) -> skipped config q = false ->
  is_accessor (prop_slot q) = true ->
  (record_get "__proto__" props = None)
  /\ (prop_name q <> "__proto__" ->
      (includeGettersSetters config = true ->
       record_get (prop_name q) props
       = Some (AccessorResult (has_getter (prop_slot q)) (has_setter (prop_slot q))
                 (extend (path context) (KeyString (prop_name q)))))
      /\ (includeGettersSetters config = false ->
          (forall v, read_slot (prop_slot q) = Returned v ->
             exists vis1 vis2,
               (exists r,
                   analyze config heap v (child_context context (KeyString (prop_name q)))
                     vis1
                   = Some (Returned r, vis2)
                   /\ record_get (prop_name q) props = Some r)
               \/ (exists msg,
                      analyze config heap v
                        (child_context context (KeyString (prop_name q))) vis1
                      = Some (Thrown (Message msg), vis2)
                      /\ record_get (prop_name q) props
                         = Some (ErrorResult msg
                                   (extend (path context) (KeyString (prop_name q))))))
          /\ (forall msg, read_slot (prop_slot q) = Thrown (Message msg) ->
                record_get (prop_name q) props
                = Some (ErrorResult msg
                          (extend (path context) (KeyString (prop_name q))))))).
Proof.
  intros Hl Hc E Hnd Hq Hsk Hacc.
  apply (analyze_object_result _ _ _ _ _ _ _ _ _ _ _ _ Hl Hc) in E.
  apply handleObject_returned_parts in E as (vis1 & entries & Hprops & _).
  split.
  - apply record_get_absent.
    apply property_loop_keys in Hprops;
      [|now apply propertyNames_NoDup|intros q0 _ []].
    simpl in Hprops. rewrite Hprops. intros Hin.
    apply in_map_iff in Hin as (q0 & Hq0 & Hin).
    apply filter_In in Hin as [_ Hin]. unfold kept_key_of in Hin. rewrite Hq0 in Hin.
    apply andb_true_iff in Hin as [_ Hin]. discriminate.
  - intros Hproto.
    apply (property_loop_returned config heap (analyze config heap) context
             (analyze_steady_call config heap _)) in Hprops as (_ & _ & _ & Hrec).
    specialize (Hrec (propertyNames_NoDup config o Hnd) q Hq Hsk Hproto).
    unfold recorded, shortcut in Hrec. rewrite Hacc in Hrec. split.
    + intros Hg. rewrite Hg in Hrec. exact Hrec.
    + intros Hg. rewrite Hg in Hrec. cbn [andb] in Hrec.
      destruct Hrec as (vis2 & vis3 & r & _ & Hmember & Hget).
      apply analyzeMember_returned in Hmember
        as [(v0 & Hread0 & Hself)|(msg0 & Hread0 & ->)]; split.
      * intros v Hread. rewrite Hread in Hread0. injection Hread0 as <-.
        exists vis2, vis3. unfold child_context.
        destruct Hself as [Hself|(msg & Hself & ->)]; [left|right]; eauto.
      * intros msg Hread. rewrite Hread in Hread0. discriminate.
      * intros v Hread. rewrite Hread in Hread0. discriminate.
      * intros msg Hread. rewrite Hread in Hread0. now injection Hread0 as <-.
Qed.

Lemma accessors_are_described_not_invoked_witness :
  exists props syms proto vis',
    analyze defaultConfig faultyHeap (VRef 1) rootContext ∅
    = Some (Returned (ObjectResult "Object" props syms proto []), vis')
    /\ record_get "bad" props = Some (AccessorResult true false [KeyString "bad"]).
Proof.
  destruct (analyze defaultConfig faultyHeap (VRef 1) rootContext ∅)
    as [[r vis']|] eqn:E; [|vm_compute in E; discriminate].
  assert (Hr : exists props syms proto,
             r = Returned (ObjectResult "Object" props syms proto [])).
  { vm_compute in E. injection E as <- _. do 3 eexists. reflexivity. }
  destruct Hr as (props & syms & proto & ->). exists props, syms, proto, vis'.
  split; [reflexivity|].
  refine (proj1 (proj2 (accessors_are_described_not_invoked defaultConfig faultyHeap
                          1%positive _ rootContext ∅ "Object" props syms proto [] vis'
                          (mkOwnProperty "bad" true
                             (AccessorProperty (Some (GetterThrows "boom")) false))
                          eq_refl eq_refl E _ _ eq_refl eq_refl) _) eq_refl).
  - vm_compute. repeat constructor; simpl; intuition discriminate.
  - vm_compute. auto.
  - discriminate.
Defined.

(** ** Symbol-keyed properties *)

Lemma symbolStep_returned self context acc s vis acc1 vis1 :
  symbolStep self context acc s vis = Some (Returned acc1, vis1) ->
  exists r,
    analyzeMember self context (KeyString (or_else (sym_description s) "Symbol"))
      (sym_slot s) vis
    = Some (Returned r, vis1)
    /\ acc1 = record_set (symbol_toString (sym_description s)) r acc.
Proof.
  unfold symbolStep. intros H. apply bind_returned in H as (r & vis2 & Hr & H).
  apply ret_returned in H as [<- <-].
  rewrite property_assign_other by apply symbol_toString_other. eauto.
Qed.

Lemma symbol_loop_keys self context (names : list SymbolProperty) :
  forall acc vis entries vis',
    for_each (symbolStep self context) names acc vis = Some (Returned entries, vis') ->
    (List.NoDup (List.map fst acc) -> List.NoDup (List.map fst entries))
    /\ (forall k, In k (List.map fst entries)
                  <-> In k (List.map fst acc)
                      \/ exists s, In s names /\ k = symbol_toString (sym_description s))
    /\ (forall k, (forall s, In s names -> symbol_toString (sym_description s) <> k) ->
          record_get k entries = record_get k acc).
Proof.
  induction names as [|s names IH]; intros acc vis entries vis' E.
  - simpl in E. apply ret_returned in E as [<- _].
    split; [auto|]. split; [|reflexivity].
    intros k. split; [auto|]. intros [H|(s & [] & _)]. exact H.
  - cbn [for_each] in E. apply bind_returned in E as (acc1 & vis1 & Estep & E).
    apply symbolStep_returned in Estep as (r & _ & ->).
    destruct (IH _ _ _ _ E) as (Hnd & Hkeys & Hframe).
    split; [|split].
    + intros Hacc. apply Hnd. now apply record_set_keys_NoDup.
    + intros k. rewrite Hkeys, record_set_keys_In. split.
      * intros [[->|H]|(s' & Hs' & ->)]; [right; exists s; simpl; auto|auto|].
        right. exists s'. simpl. auto.
      * intros [H|(s' & [<-|Hs'] & ->)]; [auto|auto|]. right. eauto.
    + intros k Hk. rewrite Hframe by (intros s' Hs'; apply Hk; now right).
      apply record_get_set_ne. apply Hk. now left.
Qed.

Lemma symbol_loop_last self context (names : list SymbolProperty) :
  forall acc vis entries vis' pre s post,
    for_each (symbolStep self context) names acc vis = Some (Returned entries, vis') ->
    names = (pre ++ s :: post)%list ->
    (forall s', In s' post ->
       symbol_toString (sym_description s') <> symbol_toString (sym_description s)) ->
    exists vis1 vis2 r,
      analyzeMember self context (KeyString (or_else (sym_description s) "Symbol"))
        (sym_slot s) vis1
      = Some (Returned r, vis2)
      /\ record_get (symbol_toString (sym_description s)) entries = Some r.
Proof.
  induction names as [|s0 names IH]; intros acc vis entries vis' pre s post E Hsplit Hpost.
  - now destruct pre.
  - cbn [for_each] in E. apply bind_returned in E as (acc1 & vis1 & Estep & E).
    destruct pre as [|s1 pre]; simpl in Hsplit; injection Hsplit as -> ->.
    + apply symbolStep_returned in Estep as (r & Hr & ->).
      exists vis, vis1, r. split; [exact Hr|].
      destruct (symbol_loop_keys _ _ _ _ _ _ _ E) as (_ & _ & Hframe).
      rewrite Hframe by exact Hpost. apply record_get_set_eq.
    + eapply IH; eauto.
Qed.

(** X10.  Symbol-keyed properties are keyed by the text of the symbol,
    [Symbol(description)], so symbols that share a description share one
    entry: [symbolProperties] is absent when the object has no symbol-keyed
    property, and otherwise has exactly one key per distinct text, the entry
    under a text being the description of the last property with that text
    (the earlier ones are overwritten). *)
Theorem symbol_properties_are_keyed_by_text
    config heap l o context vis c props syms proto p vis' :
  heap l = PlainObject o -> customHandler config o = None ->
  analyze config heap (VRef l) context vis
  = Some (Returned (ObjectResult c props syms proto p), vis') ->
  (ownSymbols o = [] -> syms = None)
  /\ (ownSymbols o <> [] ->
      exists entries,
        syms = Some entries
        /\ List.NoDup (List.map fst entries)
        /\ (forall k, In k (List.map fst entries)
                      <-> exists s, In s (ownSymbols o)
                                    /\ k = symbol_toString (sym_description s))
        /\ (forall pre s post,
              ownSymbols o = (pre ++ s :: post)%list ->
              (forall s', In s' post ->
                 symbol_toString (sym_description s')
                 <> symbol_toString (sym_description s)) ->
              exists vis1 vis2 r,
                analyzeMember (analyze config heap) context
                  (KeyString (or_else (sym_description s) "Symbol")) (sym_slot s) vis1
                = Some (Returned r, vis2)
                /\ record_get (symbol_toString (sym_description s)) entries = Some r)).
Proof.
  intros Hl Hc E.
  apply (analyze_object_result _ _ _ _ _ _ _ _ _ _ _ _ Hl Hc) in E.
  apply handleObject_returned_parts in E
    as (vis1 & entries & _ & Hloop & -> & _ & _ & _).
  destruct (symbol_loop_keys _ _ _ _ _ _ _ Hloop) as (Hnd & Hkeys & _).
  split.
  - intros Hnil. rewrite Hnil in Hloop. simpl in Hloop.
    now apply ret_returned in Hloop as [<- _].
  - intros Hne. exists entries.
    assert (Hentries : entries <> []).
    { intros ->. destruct (ownSymbols o) as [|s ss]; [congruence|].
      apply (proj2 (Hkeys (symbol_toString (sym_description s)))).
      right. exists s. split; [now left|reflexivity]. }
    split; [now destruct entries|]. split; [apply Hnd; constructor|]. split.
    + intros k. rewrite Hkeys. simpl. tauto.
    + intros pre s post Hsplit Hpost.
      exact (symbol_loop_last _ _ _ _ _ _ _ _ _ _ Hloop Hsplit Hpost).
Qed.

Lemma symbol_properties_are_keyed_by_text_witness :
  exists props entries proto vis',
    analyze defaultConfig symbolsHeap (VRef 1) rootContext ∅
    = Some (Returned (ObjectResult "Object" props (Some entries) proto []), vis')
    /\ List.NoDup (List.map fst entries)
    /\ (In "Symbol(id)" (List.map fst entries)).
Proof.
  destruct (analyze defaultConfig symbolsHeap (VRef 1) rootContext ∅)
    as [[r vis']|] eqn:E; [|vm_compute in E; discriminate].
  assert (Hr : exists props syms proto,
             r = Returned (ObjectResult "Object" props syms proto [])).
  { vm_compute in E. injection E as <- _. do 3 eexists. reflexivity. }
  destruct Hr as (props & syms & proto & ->).
  destruct (proj2 (symbol_properties_are_keyed_by_text defaultConfig symbolsHeap
                     1%positive _ rootContext ∅ "Object" props syms proto [] vis'
                     eq_refl eq_refl E) ltac:(discriminate))
    as (entries & -> & Hnd & Hkeys & _).
  exists props, entries, proto, vis'. split; [reflexivity|]. split; [exact Hnd|].
  apply Hkeys. eexists. split; [left; reflexivity|reflexivity].
Defined.


(** ** Functions *)

Lemma contains_rev_app c s : forall t,
  contains c (String.rev_app s t) = contains c s || contains c t.
Proof.
  induction s as [|d s IH]; intros t; [reflexivity|].
  simpl. rewrite IH. simpl.
  destruct (Ascii.eqb c d), (contains c s), (contains c t); reflexivity.
Qed.

Lemma contains_rev c s : contains c (String.rev s) = contains c s.
Proof. unfold String.rev. rewrite contains_rev_app. simpl. apply orb_false_r. Qed.

Lemma contains_trim_start c s : contains c s = false -> contains c (trim_start s) = false.
Proof.
  induction s as [|d s IH]; [reflexivity|]. intros H. simpl.
  destruct (is_white d); [|exact H].
  apply IH. simpl in H. now apply orb_false_elim in H as [_ H].
Qed.

Lemma contains_trim c s : contains c s = false -> contains c (trim s) = false.
Proof.
  intros H. unfold trim. rewrite contains_rev. apply contains_trim_start.
  rewrite contains_rev. now apply contains_trim_start.
Qed.

Lemma split_commas_pieces s : forall cur,
  contains ","%char cur = false ->
  Forall (fun piece => contains ","%char piece = false) (split_commas s cur).
Proof.
  induction s as [|c s IH]; intros cur Hcur; simpl.
  - constructor; [|constructor]. now rewrite contains_rev.
  - destruct (Ascii.eqb_spec c ","%char) as [->|Hne].
    + constructor; [now rewrite contains_rev|]. now apply IH.
    + apply IH. cbn [contains].
      destruct (Ascii.eqb_spec ","%char c) as [Heq|_]; [congruence|exact Hcur].
Qed.

Lemma parameters_of_names funcStr :
  let info := parameters_of funcStr in
  param_count info = Z.of_nat (List.length (param_names info))
  /\ param_error info = None
  /\ Forall (fun name => name <> EmptyString /\ contains ","%char name = false)
       (param_names info).
Proof.
  unfold parameters_of.
  destruct (args_match funcStr) as [args|]; simpl; [|auto].
  destruct (nonempty (trim args)); simpl; [|auto].
  split; [reflexivity|]. split; [reflexivity|].
  apply List.Forall_forall. intros name Hin.
  apply filter_In in Hin as [Hin Hne]. split; [now destruct name|].
  apply in_map_iff in Hin as (piece & <- & Hin).
  apply contains_trim.
  pose proof (split_commas_pieces (trim args) EmptyString eq_refl) as Hall.
  rewrite List.Forall_forall in Hall. now apply Hall.
Qed.

(** X11.  A function within [maxDepth] leaves the visited set alone.  Its
    description is a [function] result at the path of the context whose
    [name] is never empty (an unnamed function is ["(anonymous)"]) and whose
    [isAsync] and [isGenerator] are never both set.  [parameters] is absent
    when [includeMethods] is off.  When it is on and [toString] returns the
    source text, [parameters] carries no [error], its [count] is the number
    of [names], and no name is empty or contains a comma; when [toString]
    throws a value with a message, [parameters] is [{count: 0, names: [],
    error: message}]; when it throws a value whose message cannot be had,
    the [catch] clause of [analyzeFunctionParameters] throws in turn and
    the function is described by what the [catch] clause of [analyze] makes
    of that: an [error] result, or a raise. *)
Theorem function_description config heap f context vis :
  depth context <= maxDepth config ->
  exists name isAsync isGenerator,
    name <> EmptyString
    /\ (fn_name f <> EmptyString -> name = fn_name f)
    /\ isAsync && isGenerator = false
    /\ (includeMethods config = false ->
        analyze config heap (VFunction f) context vis
        = Some (Returned (FunctionResult name isAsync isGenerator None (path context)), vis))
    /\ (includeMethods config = true ->
        (forall funcStr,
            fn_source f = Returned funcStr ->
            exists info,
              analyze config heap (VFunction f) context vis
              = Some (Returned (FunctionResult name isAsync isGenerator (Some info)
                                  (path context)), vis)
              /\ param_count info = Z.of_nat (List.length (param_names info))
              /\ param_error info = None
              /\ Forall (fun n => n <> EmptyString /\ contains ","%char n = false)
                   (param_names info))
        /\ (forall msg,
               fn_source f = Thrown (Message msg) ->
               analyze config heap (VFunction f) context vis
               = Some (Returned (FunctionResult name isAsync isGenerator
                                   (Some (mkParameterInfo 0 [] (Some msg)))
                                   (path context)), vis))
        /\ (forall raised,
               fn_source f = Thrown (Opaque raised) ->
               analyze config heap (VFunction f) context vis
               = error_result (path context) raised vis)).
Proof.
  intros Hd. rewrite analyze_within_depth by assumption.
  exists (or_else (Some (fn_name f)) "(anonymous)"),
    (String.eqb (fn_constructor f) "AsyncFunction"),
    (String.eqb (fn_constructor f) "GeneratorFunction").
  split; [|split; [|split; [|split]]].
  - unfold or_else, truthy_name. simpl. now destruct (fn_name f).
  - unfold or_else, truthy_name. simpl. now destruct (fn_name f).
  - destruct (String.eqb_spec (fn_constructor f) "AsyncFunction") as [->|]; reflexivity.
  - intros Hm. unfold catching, try_catch, dispatch, handleFunction, bind, ret.
    now rewrite Hm.
  - intros Hm.
    unfold catching, try_catch, dispatch, handleFunction, bind, ret, of_outcome,
      analyzeFunctionParameters.
    rewrite Hm. split; [|split].
    + intros funcStr ->. exists (parameters_of funcStr).
      split; [reflexivity|]. apply parameters_of_names.
    + now intros msg ->.
    + now intros raised ->.
Qed.

Lemma function_description_witness :
  exists info,
    analyze defaultConfig nestedHeap
      (VFunction (mkFunctionData EmptyString "Function" (Returned "(a, b) => a + b")))
      rootContext ∅
    = Some (Returned (FunctionResult "(anonymous)" false false (Some info) []), ∅)
    /\ param_error info = None.
Proof.
  destruct (function_description defaultConfig nestedHeap
              (mkFunctionData EmptyString "Function" (Returned "(a, b) => a + b"))
              rootContext ∅)
    as (name & a & g & _ & _ & _ & _ & H); [vm_compute; discriminate|].
  destruct (proj1 (H eq_refl) _ eq_refl) as (info & E & _ & Herr & _).
  exists info. split; [|exact Herr]. rewrite E.
  pose proof E as E'. vm_compute in E'. injection E' as <- <- <- _. reflexivity.
Defined.


(** ** The descriptions the analyzer builds *)

Lemma map_each_Forall {A B : Type} (P : B -> Prop) (f : A -> M B) (l : list A) :
  (forall a vis b vis', f a vis = Some (Returned b, vis') -> P b) ->
  forall vis bs vis', map_each f l vis = Some (Returned bs, vis') -> Forall P bs.
Proof.
  intros Hf. induction l as [|a l IH]; intros vis bs vis' E; simpl in E.
  - apply ret_returned in E as [<- _]. constructor.
  - apply bind_returned in E as (b & vis1 & Eb & E).
    apply bind_returned in E as (bs0 & vis2 & Ebs & E).
    apply ret_returned in E as [<- _]. constructor; eauto.
Qed.

Lemma call_analyze_returned (self : Analyze) v c vis r vis' :
  call_analyze self v c vis = Some (Returned r, vis') ->
  self v c vis = Some (Returned r, vis').
Proof. unfold call_analyze. auto. Qed.

Section Made.

Variable config : AnalyzerConfig.
Variable heap : Heap.
Variable self : Analyze.
Hypothesis Hbuilt : built_ins_only config.
Hypothesis Hself :
  forall v c vis r vis', self v c vis = Some (Returned r, vis') -> analyzer_made r.

Lemma analyzeMember_made context key slot vis r vis' :
  analyzeMember self context key slot vis = Some (Returned r, vis') -> analyzer_made r.
Proof.
  intros H.
  apply analyzeMember_returned in H
    as [(v & _ & [H|(msg & _ & ->)])|(msg & _ & ->)]; [eauto|constructor..].
Qed.

Lemma handleObject_made l o context vis r vis' :
  handleObject config self l o context vis = Some (Returned r, vis') -> analyzer_made r.
Proof.
  unfold handleObject. intros H.
  apply bind_returned in H as (_ & vis1 & _ & H).
  apply bind_returned in H as (props & vis2 & Hprops & H).
  apply bind_returned in H as (syms & vis3 & Hsyms & H).
  apply bind_returned in H as (proto & vis4 & _ & H).
  apply ret_returned in H as [<- _].
  assert (Hp : Forall (fun kv => analyzer_made (snd kv)) props).
  { eapply (for_each_invariant (fun acc => Forall (fun kv => analyzer_made (snd kv)) acc));
      [|constructor|exact Hprops].
    intros acc q v0 acc' v0' Hacc Hstep. unfold propertyStep in Hstep.
    destruct (skipped config q).
    - apply ret_returned in Hstep as [<- _]. exact Hacc.
    - destruct (shortcut config q).
      + apply ret_returned in Hstep as [<- _].
        apply Forall_property_assign; [constructor|exact Hacc].
      + apply bind_returned in Hstep as (r0 & v1 & Hm & Hstep).
        apply ret_returned in Hstep as [<- _].
        apply Forall_property_assign; [|exact Hacc].
        exact (analyzeMember_made _ _ _ _ _ _ Hm). }
  assert (Hs : Forall (fun kv => analyzer_made (snd kv)) syms).
  { eapply (for_each_invariant (fun acc => Forall (fun kv => analyzer_made (snd kv)) acc));
      [|constructor|exact Hsyms].
    intros acc q v0 acc' v0' Hacc Hstep. unfold symbolStep in Hstep.
    apply bind_returned in Hstep as (r0 & v1 & Hm & Hstep).
    apply ret_returned in Hstep as [<- _].
    apply Forall_property_assign; [|exact Hacc].
    exact (analyzeMember_made _ _ _ _ _ _ Hm). }
  rewrite List.Forall_forall in Hp, Hs. constructor; [exact Hp|].
  intros entries kv Hentries. destruct syms; [discriminate|].
  injection Hentries as <-. apply Hs.
Qed.

Lemma handleArray_made l arr context vis r vis' :
  handleArray self l arr context vis = Some (Returned r, vis') -> analyzer_made r.
Proof.
  unfold handleArray. intros H.
  apply bind_returned in H as (_ & vis1 & _ & H).
  apply bind_returned in H as (groups & vis2 & Hgroups & H).
  apply ret_returned in H as [<- _].
  apply analyzeArrayElements_returned in Hgroups as (tm & -> & (_ & Hall & _)).
  constructor. intros g Hg.
  apply (Permutation_in _ (sort_Permutation _ _)) in Hg.
  apply in_map_iff in Hg as (kv & <- & Hkv).
  rewrite List.Forall_forall in Hall.
  destruct (Hall kv Hkv) as (_ & _ & _ & _ & _ & (e & v1 & v2 & _ & Hrep) & _).
  simpl. exact (Hself _ _ _ _ _ Hrep).
Qed.

Lemma apply_builtin_made b o context vis r vis' :
  apply_builtin config self b o context vis = Some (Returned r, vis') -> analyzer_made r.
Proof.
  unfold apply_builtin. intros H.
  destruct b, (slots o) as [|[[iso time]|]| | | | | |];
    try discriminate; try (apply ret_returned in H as [<- _]; now constructor).
  - destruct (maxDepth config >? depth context).
    + apply bind_returned in H as (es & vis1 & Hes & H).
      apply ret_returned in H as [<- _].
      assert (Hall : Forall (fun kv => analyzer_made (fst kv) /\ analyzer_made (snd kv)) es).
      { eapply map_each_Forall; [|exact Hes].
        intros kv v0 [k v] v0' Hkv.
        apply bind_returned in Hkv as (k0 & v1 & Hk & Hkv).
        apply bind_returned in Hkv as (v2 & v3 & Hv & Hkv).
        apply ret_returned in Hkv as [Hpair _]. injection Hpair as <- <-.
        apply call_analyze_returned in Hk, Hv. simpl. eauto. }
      rewrite List.Forall_forall in Hall.
      constructor; intros l0 kv Hl0 Hin; injection Hl0 as <-; now apply Hall.
    + apply ret_returned in H as [<- _]. constructor; discriminate.
  - destruct (maxDepth config >? depth context).
    + apply bind_returned in H as (vs & vis1 & Hvs & H).
      apply ret_returned in H as [<- _].
      assert (Hall : Forall analyzer_made vs).
      { eapply map_each_Forall; [|exact Hvs].
        intros v v0 r0 v0' Hv. apply call_analyze_returned in Hv. eauto. }
      rewrite List.Forall_forall in Hall.
      constructor. intros l0 r0 Hl0 Hin. injection Hl0 as <-. now apply Hall.
    + apply ret_returned in H as [<- _]. constructor. discriminate.
Qed.

Lemma dispatch_made value context vis r vis' :
  dispatch config heap self value context vis = Some (Returned r, vis') -> analyzer_made r.
Proof.
  intros H.
  destruct value as [| |s|n|b|n|d|f|l]; simpl in H;
    try (apply ret_returned in H as [<- _]; constructor).
  - apply ret_returned in H as [<- _]. exact (made_primitive (PString s) _).
  - apply ret_returned in H as [<- _]. exact (made_primitive (PNumber n) _).
  - apply ret_returned in H as [<- _]. exact (made_primitive (PBoolean b) _).
  - apply ret_returned in H as [<- _]. exact (made_primitive (PBigInt n) _).
  - apply handleFunction_returned in H as (_ & ps & ->). constructor.
  - destruct (heap l) as [elements|o|error] eqn:Hl.
    + exact (handleArray_made _ _ _ _ _ _ H).
    + apply bind_returned in H as (seen & vis1 & _ & H).
      destruct seen; [apply ret_returned in H as [<- _]; constructor|].
      destruct (customHandler config o) as [[b|f]|] eqn:Hc.
      * exact (apply_builtin_made _ _ _ _ _ _ H).
      * exfalso. unfold customHandler in Hc.
        destruct (truthy_name (className o)) as [name|]; [|discriminate].
        exact (Hbuilt name f Hc).
      * exact (handleObject_made _ _ _ _ _ _ H).
    + apply bind_returned in H as (seen & vis1 & _ & H).
      destruct seen; [apply ret_returned in H as [<- _]; constructor|discriminate].
Qed.

End Made.

Lemma analyzeF_made config heap :
  built_ins_only config ->
  forall fuel value context vis r vis',
    analyzeF config heap fuel value context vis = Some (Returned r, vis') ->
    analyzer_made r.
Proof.
  intros Hbuilt. induction fuel as [|fuel IH]; intros value context vis r vis' E;
    [discriminate|].
  cbn [analyzeF] in E. unfold analyze_body, catching in E.
  destruct (depth context >? maxDepth config).
  - injection E as <- _. constructor.
  - apply catch_returned in E as [Hdis|(msg & _ & ->)]; [|constructor].
    exact (dispatch_made config heap _ Hbuilt IH _ _ _ _ _ Hdis).
Qed.

(** ** Where every thrown value has a message, [analyze] returns *)

Lemma for_each_thrown {A S : Type} (body : S -> A -> M S) (P : Exn -> Prop) (l : list A) :
  (forall s a vis e vis', In a l -> body s a vis = Some (Thrown e, vis') -> P e) ->
  forall s vis e vis', for_each body l s vis = Some (Thrown e, vis') -> P e.
Proof.
  induction l as [|a l IH]; intros Hbody s vis e vis' E; [discriminate|].
  cbn [for_each] in E. unfold bind in E.
  destruct (body s a vis) as [[[s1|e1] vis1]|] eqn:Estep; [| |discriminate].
  - apply (IH (fun s0 a0 v0 e0 v0' Hin => Hbody s0 a0 v0 e0 v0' (or_intror Hin)) _ _ _ _ E).
  - injection E as <- _. exact (Hbody _ _ _ _ _ (or_introl eq_refl) Estep).
Qed.

Lemma map_each_thrown {A B : Type} (f : A -> M B) (P : Exn -> Prop) (l : list A) :
  (forall a vis e vis', In a l -> f a vis = Some (Thrown e, vis') -> P e) ->
  forall vis e vis', map_each f l vis = Some (Thrown e, vis') -> P e.
Proof.
  induction l as [|a l IH]; intros Hf vis e vis' E; [discriminate|].
  cbn [map_each] in E. unfold bind in E.
  destruct (f a vis) as [[[b|e1] vis1]|] eqn:Ea; [| |discriminate].
  - destruct (map_each f l vis1) as [[[bs|e2] vis2]|] eqn:El; [discriminate| |discriminate].
    injection E as <- _.
    exact (IH (fun a0 v0 e0 v0' Hin => Hf a0 v0 e0 v0' (or_intror Hin)) _ _ _ El).
  - injection E as <- _. exact (Hf _ _ _ _ (or_introl eq_refl) Ea).
Qed.

Lemma filter_each_thrown {A : Type} (f : A -> M bool) (P : Exn -> Prop) (l : list A) :
  (forall a vis e vis', In a l -> f a vis = Some (Thrown e, vis') -> P e) ->
  forall vis e vis', filter_each f l vis = Some (Thrown e, vis') -> P e.
Proof.
  induction l as [|a l IH]; intros Hf vis e vis' E; [discriminate|].
  cbn [filter_each] in E. unfold bind in E.
  destruct (f a vis) as [[[b|e1] vis1]|] eqn:Ea; [| |discriminate].
  - destruct (filter_each f l vis1) as [[[bs|e2] vis2]|] eqn:El;
      [discriminate| |discriminate].
    injection E as <- _.
    exact (IH (fun a0 v0 e0 v0' Hin => Hf a0 v0 e0 v0' (or_intror Hin)) _ _ _ El).
  - injection E as <- _. exact (Hf _ _ _ _ (or_introl eq_refl) Ea).
Qed.

Lemma bind_thrown_inv {A B : Type} (m : M A) (k : A -> M B) vis e vis' :
  bind m k vis = Some (Thrown e, vis') ->
  m vis = Some (Thrown e, vis')
  \/ exists a vis1, m vis = Some (Returned a, vis1) /\ k a vis1 = Some (Thrown e, vis').
Proof.
  unfold bind. destruct (m vis) as [[[a|e1] vis1]|]; [eauto| |discriminate].
  intros H. injection H as <- <-. now left.
Qed.

Section Quiet.

Variable config : AnalyzerConfig.
Variable heap : Heap.
Variable self : Analyze.
Hypothesis Hbuilt : built_ins_only config.
Hypothesis Hheap : plain_heap heap.
Hypothesis Hself :
  forall v c vis e vis', plain_value v = true -> self v c vis <> Some (Thrown e, vis').

Lemma analyzeMember_quiet context key slot vis e vis' :
  plain_slot slot = true ->
  analyzeMember self context key slot vis <> Some (Thrown e, vis').
Proof.
  intros Hslot H. unfold analyzeMember in H. apply catch_thrown in H.
  unfold plain_slot in Hslot. unfold bind, of_outcome, call_analyze in H.
  destruct (read_slot slot) as [v|error].
  - exact (Hself _ _ _ _ _ Hslot H).
  - injection H as -> _. discriminate.
Qed.

Lemma handleArray_messages l arr context vis e vis' :
  forallb plain_value (present arr) = true ->
  handleArray self l arr context vis = Some (Thrown e, vis') -> has_message e = true.
Proof.
  intros Harr H. unfold handleArray in H.
  apply bind_thrown_inv in H as [H|(u & vis1 & _ & H)]; [discriminate|].
  apply bind_thrown_inv in H as [H|(groups & vis2 & _ & H)]; [|discriminate].
  unfold analyzeArrayElements in H.
  apply bind_thrown_inv in H as [H|(tm & vis2 & _ & H)]; [|discriminate].
  apply (for_each_thrown _ (fun e => has_message e = true)) in H; [exact H|].
  intros tm [i v] vis0 e0 vis0' Hin Hstep. unfold elementStep in Hstep.
  apply bind_thrown_inv in Hstep as [Hstep|(r & vis3 & _ & Hstep)].
  - exfalso. apply indexed_from_In in Hin as [_ Hin].
    rewrite forallb_forall in Harr. exact (Hself _ _ _ _ _ (Harr v Hin) Hstep).
  - apply bind_thrown_inv in Hstep as [Hstep|(text & vis4 & _ & Hstep)].
    + unfold stringify_or_throw in Hstep.
      destruct (JSON_stringify r); [discriminate|]. now injection Hstep as <- _.
    + unfold ret in Hstep. now destruct (record_get text tm).
Qed.

Lemma propertyStep_quiet context acc q vis e vis' :
  plain_slot (prop_slot q) = true ->
  propertyStep config self context acc q vis <> Some (Thrown e, vis').
Proof.
  intros Hslot H. unfold propertyStep in H.
  destruct (skipped config q); [discriminate|].
  destruct (shortcut config q); [discriminate|].
  apply bind_thrown_inv in H as [H|(r & vis1 & _ & H)]; [|discriminate].
  exact (analyzeMember_quiet _ _ _ _ _ _ Hslot H).
Qed.

Lemma symbolStep_quiet context acc s vis e vis' :
  plain_slot (sym_slot s) = true ->
  symbolStep self context acc s vis <> Some (Thrown e, vis').
Proof.
  intros Hslot H. unfold symbolStep in H.
  apply bind_thrown_inv in H as [H|(r & vis1 & _ & H)]; [|discriminate].
  exact (analyzeMember_quiet _ _ _ _ _ _ Hslot H).
Qed.

Lemma prototype_info_messages o vis e vis' :
  plain_prototype (prototype o) = true ->
  prototype_info config o vis = Some (Thrown e, vis') -> has_message e = true.
Proof.
  intros Hp H. unfold prototype_info in H.
  destruct (includePrototype config); [|discriminate].
  destruct (prototype o) as [| |c members]; try discriminate.
  simpl in Hp. apply andb_true_iff in Hp as [Hc Hp].
  apply bind_thrown_inv in H as [H|(name & vis0 & _ & H)].
  { unfold of_outcome in H. injection H as H _. now rewrite H in Hc. }
  destruct (includeMethods config); [|discriminate].
  apply bind_thrown_inv in H as [H|(ms & vis1 & _ & H)]; [|discriminate].
  apply (filter_each_thrown _ (fun e => has_message e = true)) in H; [exact H|].
  intros m vis2 e0 vis0' Hin Hm. unfold of_outcome in Hm.
  rewrite forallb_forall in Hp. specialize (Hp m Hin).
  injection Hm as Hm _. rewrite Hm in Hp. exact Hp.
Qed.

Lemma handleObject_messages l o context vis e vis' :
  plain_object o = true ->
  handleObject config self l o context vis = Some (Thrown e, vis') -> has_message e = true.
Proof.
  intros Ho H. unfold plain_object in Ho.
  apply andb_true_iff in Ho as [Ho Hslots]. apply andb_true_iff in Ho as [Ho Hproto].
  apply andb_true_iff in Ho as [Hprops Hsyms].
  rewrite forallb_forall in Hprops, Hsyms.
  unfold handleObject in H.
  apply bind_thrown_inv in H as [H|(u & vis1 & _ & H)]; [discriminate|].
  apply bind_thrown_inv in H as [H|(props & vis2 & _ & H)].
  { exfalso. apply (for_each_thrown _ (fun _ => False)) in H; [exact H|].
    intros acc q vis0 e0 vis0' Hin Hstep.
    apply (propertyStep_quiet _ _ _ _ _ _ (Hprops q ltac:(
      unfold propertyNames in Hin; destruct (includePrivateProps config);
      [exact Hin|now apply filter_In in Hin as [Hin _]])) Hstep). }
  apply bind_thrown_inv in H as [H|(syms & vis3 & _ & H)].
  { exfalso. apply (for_each_thrown _ (fun _ => False)) in H; [exact H|].
    intros acc s vis0 e0 vis0' Hin Hstep.
    exact (symbolStep_quiet _ _ _ _ _ _ (Hsyms s Hin) Hstep). }
  apply bind_thrown_inv in H as [H|(proto & vis4 & _ & H)]; [|discriminate].
  exact (prototype_info_messages _ _ _ _ Hproto H).
Qed.

Lemma apply_builtin_messages b o context vis e vis' :
  plain_slots (slots o) = true ->
  apply_builtin config self b o context vis = Some (Thrown e, vis') -> has_message e = true.
Proof.
  intros Hslots H. unfold apply_builtin in H.
  destruct b, (slots o) as [|[[iso time]|]| |entries|members| | |];
    try discriminate; try (unfold throw in H; now injection H as <- _).
  - destruct (maxDepth config >? depth context); [|discriminate].
    apply bind_thrown_inv in H as [H|(es & vis1 & _ & H)]; [|discriminate].
    exfalso. apply (map_each_thrown _ (fun _ => False)) in H; [exact H|].
    intros [k v] vis0 e0 vis0' Hin Hkv.
    simpl in Hslots. rewrite forallb_forall in Hslots.
    specialize (Hslots _ Hin). apply andb_true_iff in Hslots as [Hk Hv].
    apply bind_thrown_inv in Hkv as [Hkv|(rk & vis2 & _ & Hkv)].
    + exact (Hself _ _ _ _ _ Hk Hkv).
    + apply bind_thrown_inv in Hkv as [Hkv|(rv & vis3 & _ & Hkv)]; [|discriminate].
      exact (Hself _ _ _ _ _ Hv Hkv).
  - destruct (maxDepth config >? depth context); [|discriminate].
    apply bind_thrown_inv in H as [H|(es & vis1 & _ & H)]; [|discriminate].
    exfalso. apply (map_each_thrown _ (fun _ => False)) in H; [exact H|].
    intros v vis0 e0 vis0' Hin Hv.
    simpl in Hslots. rewrite forallb_forall in Hslots.
    exact (Hself _ _ _ _ _ (Hslots _ Hin) Hv).
Qed.

Lemma dispatch_messages value context vis e vis' :
  plain_value value = true ->
  dispatch config heap self value context vis = Some (Thrown e, vis') ->
  has_message e = true.
Proof.
  intros Hv H. destruct value as [| |s|n|b|n|d|f|l]; simpl in H; try discriminate.
  - simpl in Hv. destruct (handleFunction_plain config f context vis Hv) as [ps E].
    rewrite E in H. discriminate.
  - pose proof (Hheap l) as Hl. destruct (heap l) as [arr|o|error].
    + exact (handleArray_messages _ _ _ _ _ _ Hl H).
    + apply bind_thrown_inv in H as [H|(seen & vis1 & _ & H)]; [discriminate|].
      destruct seen; [discriminate|].
      apply andb_true_iff in Hl as Hparts. destruct Hparts as [_ Hslots].
      destruct (customHandler config o) as [[b|f]|] eqn:Hc.
      * exact (apply_builtin_messages _ _ _ _ _ _ Hslots H).
      * exfalso. unfold customHandler in Hc.
        destruct (truthy_name (className o)) as [name|]; [|discriminate].
        exact (Hbuilt name f Hc).
      * exact (handleObject_messages _ _ _ _ _ _ Hl H).
    + apply bind_thrown_inv in H as [H|(seen & vis1 & _ & H)]; [discriminate|].
      destruct seen; [discriminate|]. unfold throw in H. now injection H as <- _.
Qed.

End Quiet.

Lemma analyzeF_quiet config heap :
  built_ins_only config -> plain_heap heap ->
  forall fuel value context vis e vis',
    plain_value value = true ->
    analyzeF config heap fuel value context vis <> Some (Thrown e, vis').
Proof.
  intros Hbuilt Hheap.
  induction fuel as [|fuel IH]; intros value context vis e vis' Hv E; [discriminate|].
  cbn [analyzeF] in E. unfold analyze_body, catching in E. apply catch_thrown in E.
  destruct (depth context >? maxDepth config); [discriminate|].
  apply (dispatch_messages config heap _ Hbuilt Hheap IH) in E; [discriminate|exact Hv].
Qed.

(** With no handler of a caller and no thrown value without a message,
    [analyze] returns a description of every value. *)
Lemma analyze_returns_on_plain config heap value context vis :
  built_ins_only config -> plain_heap heap -> plain_value value = true ->
  exists r vis', analyze config heap value context vis = Some (Returned r, vis').
Proof.
  intros Hbuilt Hheap Hv.
  destruct (analyze_steady config heap value context vis) as ([r|e] & vis' & E & _).
  - eauto.
  - exfalso. exact (analyzeF_quiet config heap Hbuilt Hheap _ _ _ _ _ _ Hv E).
Qed.


(** ** The schema adapters *)

Lemma sequence_returned {A : Type} (f : A -> option (Outcome string)) (l : list A) :
  (forall a, In a l -> exists s, f a = Some (Returned s)) ->
  exists ss, sequence (List.map f l) = Some (Returned ss)
             /\ List.length ss = List.length l.
Proof.
  induction l as [|a l IH]; intros Hall; simpl.
  - now exists [].
  - destruct (Hall a (or_introl eq_refl)) as [s ->].
    destruct IH as (ss & -> & Hlen); [intros a' Ha'; apply Hall; now right|].
    exists (s :: ss). simpl. now rewrite Hlen.
Qed.

Lemma zod_total r :
  analyzer_made r -> exists s, ZodSchemaAdapter.generateSchema true r = Some (Returned s).
Proof.
  induction 1 as [| | | | |v p| | |len groups p _ IH|c props syms proto p _ IH _ _
                  | | | | | | | |k len bl bo sh p];
    try (eexists; reflexivity).
  - destruct v; eexists; reflexivity.
  - destruct groups as [|[t f c idx] [|g2 groups]].
    + eexists; reflexivity.
    + destruct (IH _ (or_introl eq_refl)) as [s Hs].
      cbn [ZodSchemaAdapter.generateSchema negb]. simpl in Hs. rewrite Hs.
      eexists; reflexivity.
    + destruct (sequence_returned
                  (fun g => match g with
                            | mkElementType type _ _ _ =>
                                ZodSchemaAdapter.generateSchema true type
                            end) (mkElementType t f c idx :: g2 :: groups))
        as (ss & Hss & _).
      { intros [t' f' c' idx'] Hin. exact (IH _ Hin). }
      cbn [ZodSchemaAdapter.generateSchema negb]. rewrite Hss. eexists; reflexivity.
  - destruct (sequence_returned
                (fun kv => option_map (outcome_map (fun s => fst kv ++ ": " ++ s))
                             (ZodSchemaAdapter.generateSchema true (snd kv))) props)
      as (ss & Hss & _).
    { intros kv Hin. destruct (IH kv Hin) as [s ->]. eexists; reflexivity. }
    cbn [ZodSchemaAdapter.generateSchema negb]. rewrite Hss. eexists; reflexivity.
  - destruct k; eexists; reflexivity.
Qed.

Lemma yup_total r :
  analyzer_made r -> exists s, YupSchemaAdapter.generateSchema true r = Some (Returned s).
Proof.
  induction 1 as [| | | | |v p| | |len groups p _ IH|c props syms proto p _ IH _ _
                  | | | | | | | |k len bl bo sh p];
    try (eexists; reflexivity).
  - destruct v; eexists; reflexivity.
  - destruct groups as [|[t f c idx] [|g2 groups]]; try (eexists; reflexivity).
    destruct (IH _ (or_introl eq_refl)) as [s Hs].
    cbn [YupSchemaAdapter.generateSchema negb]. simpl in Hs. rewrite Hs.
    eexists; reflexivity.
  - destruct (sequence_returned
                (fun kv => option_map (outcome_map (fun s => fst kv ++ ": " ++ s))
                             (YupSchemaAdapter.generateSchema true (snd kv))) props)
      as (ss & Hss & _).
    { intros kv Hin. destruct (IH kv Hin) as [s ->]. eexists; reflexivity. }
    cbn [YupSchemaAdapter.generateSchema negb]. rewrite Hss. eexists; reflexivity.
  - destruct k; eexists; reflexivity.
Qed.

Lemma joi_total r :
  analyzer_made r -> exists s, JoiSchemaAdapter.generateSchema true r = Some (Returned s).
Proof.
  induction 1 as [| | | | |v p| | |len groups p _ IH|c props syms proto p _ IH _ _
                  | | | | | | | |k len bl bo sh p];
    try (eexists; reflexivity).
  - destruct v; eexists; reflexivity.
  - destruct groups as [|[t f c idx] [|g2 groups]].
    + eexists; reflexivity.
    + destruct (IH _ (or_introl eq_refl)) as [s Hs].
      cbn [JoiSchemaAdapter.generateSchema negb]. simpl in Hs. rewrite Hs.
      eexists; reflexivity.
    + destruct (sequence_returned
                  (fun g => match g with
                            | mkElementType type _ _ _ =>
                                JoiSchemaAdapter.generateSchema true type
                            end) (mkElementType t f c idx :: g2 :: groups))
        as (ss & Hss & _).
      { intros [t' f' c' idx'] Hin. exact (IH _ Hin). }
      cbn [JoiSchemaAdapter.generateSchema negb]. rewrite Hss. eexists; reflexivity.
  - destruct (sequence_returned
                (fun kv => option_map (outcome_map (fun s => fst kv ++ ": " ++ s))
                             (JoiSchemaAdapter.generateSchema true (snd kv))) props)
      as (ss & Hss & _).
    { intros kv Hin. destruct (IH kv Hin) as [s ->]. eexists; reflexivity. }
    cbn [JoiSchemaAdapter.generateSchema negb]. rewrite Hss. eexists; reflexivity.
  - destruct k; eexists; reflexivity.
Qed.

Lemma analyze_made config heap value context vis r vis' :
  built_ins_only config ->
  analyze config heap value context vis = Some (Returned r, vis') ->
  analyzer_made r.
Proof. intros Hbuilt E. exact (analyzeF_made config heap Hbuilt _ _ _ _ _ _ E). Qed.

Lemma default_analysis_ends heap data :
  exists out, analyzeRoot (TypeAnalyzer_new emptyPartial) heap data = Some out.
Proof.
  unfold analyzeRoot.
  destruct (analyze_steady (TypeAnalyzer_new emptyPartial) heap data rootContext ∅)
    as (out & vis' & E & _).
  exists out. now rewrite E.
Qed.

Lemma default_analysis_made heap data r :
  analyzeRoot (TypeAnalyzer_new emptyPartial) heap data = Some (Returned r) ->
  analyzer_made r.
Proof.
  unfold analyzeRoot. intros H.
  destruct (analyze (TypeAnalyzer_new emptyPartial) heap data rootContext ∅)
    as [[out vis']|] eqn:E; [|discriminate].
  injection H as ->.
  exact (analyze_made _ heap data rootContext ∅ r vis'
           (constructor_built_ins_only emptyPartial eq_refl) E).
Qed.

Lemma default_analysis_returns heap data :
  plain_heap heap -> plain_value data = true ->
  exists r, analyzeRoot (TypeAnalyzer_new emptyPartial) heap data = Some (Returned r).
Proof.
  intros Hheap Hdata. unfold analyzeRoot.
  destruct (analyze_returns_on_plain (TypeAnalyzer_new emptyPartial) heap data rootContext ∅
              (constructor_built_ins_only emptyPartial eq_refl) Hheap Hdata)
    as (r & vis' & E).
  exists r. now rewrite E.
Qed.

(** X12.  What the analyzer returns is of its own making: with no handler
    of a caller registered, every description [analyze] returns, and every
    description nested in it, is one of the analyzer's variants; the tag of
    a primitive is the [typeof] of its value and the tag of a typed array is
    the name of one of the eleven typed-array constructors. *)
Theorem analysis_is_analyzer_made config heap value context vis r vis' :
  built_ins_only config ->
  analyze config heap value context vis = Some (Returned r, vis') ->
  analyzer_made r.
Proof. intros Hbuilt E. exact (analyze_made config heap value context vis r vis' Hbuilt E). Qed.

Lemma analysis_is_analyzer_made_witness :
  exists r vis',
    analyze defaultConfig collectionsHeap (VRef 1) rootContext ∅ = Some (Returned r, vis')
    /\ analyzer_made r.
Proof.
  destruct (analyze defaultConfig collectionsHeap (VRef 1) rootContext ∅)
    as [[[r|e] vis']|] eqn:E; [|vm_compute in E; discriminate..].
  exists r, vis'. split; [reflexivity|].
  exact (analysis_is_analyzer_made defaultConfig collectionsHeap (VRef 1) rootContext ∅
           r vis' (constructor_built_ins_only emptyPartial eq_refl) E).
Defined.

(** X13.  With its library installed, [generateSchemaFromData] of the Zod,
    Yup and Joi adapters returns a schema text whenever the analysis of the
    data returns a description, and raises what the analysis raised
    otherwise; it always ends.  The analysis returns, and so the adapters
    return a schema, for all data in which every value thrown by a getter,
    by a [toString] or by a read on a prototype has a message.  Without the
    library [generateSchemaFromData] throws the installation hint, and
    [generateSchema] throws the same hint behind the adapter's
    ["Failed to generate ... schema: "] prefix. *)
Theorem adapters_return_a_schema_when_installed heap data :
  (exists out, analyzeRoot (TypeAnalyzer_new emptyPartial) heap data = Some out)
  /\ (forall r,
        analyzeRoot (TypeAnalyzer_new emptyPartial) heap data = Some (Returned r) ->
        (exists s, ZodSchemaAdapter.generateSchemaFromData true heap data
                   = Some (Returned s))
        /\ (exists s, YupSchemaAdapter.generateSchemaFromData true heap data
                      = Some (Returned s))
        /\ (exists s, JoiSchemaAdapter.generateSchemaFromData true heap data
                      = Some (Returned s)))
  /\ (forall error,
        analyzeRoot (TypeAnalyzer_new emptyPartial) heap data = Some (Thrown error) ->
        ZodSchemaAdapter.generateSchemaFromData true heap data = Some (Thrown error)
        /\ YupSchemaAdapter.generateSchemaFromData true heap data = Some (Thrown error)
        /\ JoiSchemaAdapter.generateSchemaFromData true heap data = Some (Thrown error))
  /\ (plain_heap heap -> plain_value data = true ->
      (exists s, ZodSchemaAdapter.generateSchemaFromData true heap data
                 = Some (Returned s))
      /\ (exists s, YupSchemaAdapter.generateSchemaFromData true heap data
                    = Some (Returned s))
      /\ (exists s, JoiSchemaAdapter.generateSchemaFromData true heap data
                    = Some (Returned s)))
  /\ ZodSchemaAdapter.generateSchemaFromData false heap data
     = Some (Thrown "Zod is not installed. Please install it using: npm install zod")
  /\ YupSchemaAdapter.generateSchemaFromData false heap data
     = Some (Thrown "Yup is not installed. Please install it using: npm install yup")
  /\ JoiSchemaAdapter.generateSchemaFromData false heap data
     = Some (Thrown "Joi is not installed. Please install it using: npm install joi")
  /\ (forall typeInfo,
        ZodSchemaAdapter.generateSchema false typeInfo
        = Some (Thrown ("Failed to generate Zod schema: "
                        ++ "Zod is not installed. Please install it using: npm install zod"))
        /\ YupSchemaAdapter.generateSchema false typeInfo
           = Some (Thrown ("Failed to generate Yup schema: "
                           ++ "Yup is not installed. Please install it using: npm install yup"))
        /\ JoiSchemaAdapter.generateSchema false typeInfo
           = Some (Thrown ("Failed to generate Joi schema: "
                           ++ "Joi is not installed. Please install it using: npm install joi"))).
Proof.
  assert (Hreturned : forall r,
             analyzeRoot (TypeAnalyzer_new emptyPartial) heap data = Some (Returned r) ->
             (exists s, ZodSchemaAdapter.generateSchemaFromData true heap data
                        = Some (Returned s))
             /\ (exists s, YupSchemaAdapter.generateSchemaFromData true heap data
                           = Some (Returned s))
             /\ (exists s, JoiSchemaAdapter.generateSchemaFromData true heap data
                           = Some (Returned s))).
  { intros r Hr. pose proof (default_analysis_made heap data r Hr) as Hmade.
    unfold ZodSchemaAdapter.generateSchemaFromData, YupSchemaAdapter.generateSchemaFromData,
      JoiSchemaAdapter.generateSchemaFromData.
    cbn [negb]. rewrite Hr.
    split; [exact (zod_total r Hmade)|]. split; [exact (yup_total r Hmade)|].
    exact (joi_total r Hmade). }
  split; [apply default_analysis_ends|]. split; [exact Hreturned|].
  split; [|split].
  - intros error He.
    unfold ZodSchemaAdapter.generateSchemaFromData, YupSchemaAdapter.generateSchemaFromData,
      JoiSchemaAdapter.generateSchemaFromData.
    cbn [negb]. rewrite He. split; [reflexivity|]. split; reflexivity.
  - intros Hheap Hdata.
    destruct (default_analysis_returns heap data Hheap Hdata) as [r Hr].
    exact (Hreturned r Hr).
  - split; [reflexivity|]. split; [reflexivity|]. split; [reflexivity|].
    intros typeInfo. split; [|split]; destruct typeInfo; reflexivity.
Qed.

Lemma adapters_return_a_schema_when_installed_witness :
  plain_heap itemsHeap
  /\ exists s,
       ZodSchemaAdapter.generateSchemaFromData true itemsHeap (VRef 1) = Some (Returned s).
Proof.
  assert (Hheap : plain_heap itemsHeap).
  { intros l. destruct l as [l|[l|l|]|]; reflexivity. }
  split; [exact Hheap|].
  exact (proj1 (proj1 (proj2 (proj2 (proj2
           (adapters_return_a_schema_when_installed itemsHeap (VRef 1))))) Hheap eq_refl)).
Defined.


(** ** Arrays of scalars and the adapters *)

Lemma indexed_from_functional {A : Type} (l : list (option A)) : forall b i (e e' : A),
  In (i, e) (indexed_from b l) -> In (i, e') (indexed_from b l) -> e = e'.
Proof.
  induction l as [|[a|] l IH]; intros b i e e' H H'; [destruct H| |].
  - destruct H as [H|H], H' as [H'|H'].
    + congruence.
    + injection H as <- _. apply indexed_from_In in H' as [Hb _]. lia.
    + injection H' as <- _. apply indexed_from_In in H as [Hb _]. lia.
    + exact (IH _ _ _ _ H H').
  - exact (IH _ _ _ _ H H').
Qed.

Lemma Forall2_of_maps {A B C : Type} (f : A -> C) (g : B -> C) (P : A -> Prop)
    (Q : A -> B -> Prop) (l1 : list A) : forall l2 : list B,
  List.map f l1 = List.map g l2 -> Forall P l1 ->
  (forall a b, P a -> In b l2 -> f a = g b -> Q a b) ->
  Forall2 Q l1 l2.
Proof.
  induction l1 as [|a l1 IH]; intros [|b l2] Hmap Hall HQ; try discriminate.
  - constructor.
  - injection Hmap as Hab Hmap. apply Forall_cons_1 in Hall as [Ha Hall].
    constructor; [apply HQ; simpl; auto|].
    apply IH; [exact Hmap|exact Hall|]. intros a' b' Ha' Hb'. apply HQ; simpl; auto.
Qed.

(** The groups of an array of simple elements, one per element. *)
Lemma simple_groups config heap arr context vis groups vis' :
  analyzeArrayElements (analyze config heap) arr context vis = Some (Returned groups, vis') ->
  forallb (simple_element config heap) (present arr) = true ->
  Forall2 (fun g ie =>
             exists vis1 vis2,
               analyze config heap (snd ie) (child_context context (KeyNumber (fst ie))) vis1
               = Some (Returned (et_type g), vis2))
    groups (indexed_from 0 arr).
Proof.
  intros Hgroups Hsimple.
  apply analyzeArrayElements_returned in Hgroups as (tm & -> & Hok).
  destruct (simple_typeMap _ _ _ _ _ Hok Hsimple) as (_ & Hpositions & ->).
  destruct Hok as (_ & Hall & _ & _).
  unfold positions in Hpositions.
  assert (H : Forall2 (fun kv ie =>
                         exists vis1 vis2,
                           analyze config heap (snd ie)
                             (child_context context (KeyNumber (fst ie))) vis1
                           = Some (Returned (tm_type (snd kv)), vis2))
                tm (indexed_from 0 arr)).
  { eapply Forall2_of_maps; [exact Hpositions|exact Hall|].
    intros kv [i e] (_ & _ & _ & _ & _ & (e' & v1 & v2 & Hin' & Hrep) & _) Hin Heq.
    simpl in Heq. rewrite Heq in Hin', Hrep.
    rewrite (indexed_from_functional _ _ _ _ _ Hin' Hin) in Hrep.
    exists v1, v2. exact Hrep. }
  clear - H. induction H as [|kv ie tm ies Hhead _ IH]; simpl; constructor; assumption.
Qed.

Lemma scalar_simple config heap v : scalar v = true -> simple_element config heap v = true.
Proof. now destruct v. Qed.

Lemma scalar_analysis config heap v context vis :
  scalar v = true ->
  exists r, analyze config heap v context vis = Some (Returned r, vis)
            /\ JSON_stringify r <> None.
Proof.
  intros Hs. destruct (Z_gt_le_dec (depth context) (maxDepth config)) as [Hd|Hd].
  - rewrite analyze_beyond_depth by assumption. eexists. split; [reflexivity|discriminate].
  - rewrite analyze_within_depth by assumption.
    destruct v; try discriminate; eexists; (split; [reflexivity|]); discriminate.
Qed.

Lemma scalar_loop config heap context rest :
  forall b tm vis,
    forallb scalar (List.map snd (indexed_from b rest)) = true ->
    exists tm',
      for_each (elementStep (analyze config heap) context) (indexed_from b rest) tm vis
      = Some (Returned tm', vis).
Proof.
  induction rest as [|[e|] rest IH]; intros b tm vis Hs.
  - exists tm. reflexivity.
  - cbn [indexed_from List.map snd forallb] in Hs.
    apply andb_prop in Hs as [He Hs]. cbn [indexed_from for_each].
    destruct (scalar_analysis config heap e
                (mkContext (depth context + 1) (extend (path context) (KeyNumber b))) vis He)
      as (r & Hr & Hjson).
    assert (Hstep : exists tm1,
               elementStep (analyze config heap) context tm (b, e) vis
               = Some (Returned tm1, vis)).
    { unfold elementStep, bind, call_analyze. cbn [fst snd]. rewrite Hr.
      unfold stringify_or_throw. destruct (JSON_stringify r) as [k|]; [|congruence].
      unfold ret. destruct (record_get k tm); eauto. }
    destruct Hstep as [tm1 Hstep]. rewrite (bind_step _ _ _ _ _ Hstep). now apply IH.
  - cbn [indexed_from] in *. now apply IH.
Qed.

(** The analysis of an array of scalars: an [array] result with one group
    per element. *)
Lemma scalar_array_analysis config heap l arr context vis :
  heap l = ArrayObject arr -> depth context <= maxDepth config ->
  forallb scalar (present arr) = true ->
  exists groups,
    analyze config heap (VRef l) context vis
    = Some (Returned (ArrayResult (Z.of_nat (List.length arr)) groups (path context)),
            {[ l ]} ∪ vis)
    /\ Forall2 (fun g ie =>
                  exists vis1 vis2,
                    analyze config heap (snd ie)
                      (child_context context (KeyNumber (fst ie))) vis1
                    = Some (Returned (et_type g), vis2))
         groups (indexed_from 0 arr).
Proof.
  intros Hl Hd Hs. rewrite (analyze_array _ _ _ _ _ _ Hl Hd).
  destruct (scalar_loop config heap context arr 0 [] ({[ l ]} ∪ vis) Hs) as [tm Hloop].
  assert (Hgroups : exists groups,
             analyzeArrayElements (analyze config heap) arr context ({[ l ]} ∪ vis)
             = Some (Returned groups, {[ l ]} ∪ vis)).
  { unfold analyzeArrayElements. rewrite (bind_step _ _ _ _ _ Hloop). eexists. reflexivity. }
  destruct Hgroups as [groups Hgroups]. exists groups. split.
  - assert (Hadd : visited_add l vis = Some (Returned tt, {[ l ]} ∪ vis)) by reflexivity.
    apply catch_step_returned. unfold handleArray.
    rewrite (bind_step _ _ _ _ _ Hadd), (bind_step _ _ _ _ _ Hgroups). reflexivity.
  - apply (simple_groups _ _ _ _ _ _ _ Hgroups).
    apply forallb_forall. intros e He. apply scalar_simple.
    rewrite forallb_forall in Hs. now apply Hs.
Qed.

Lemma sequence_Forall2 {A : Type} (f : A -> option (Outcome string)) (l : list A)
    (ss : list string) :
  Forall2 (fun a s => f a = Some (Returned s)) l ss ->
  sequence (List.map f l) = Some (Returned ss).
Proof.
  induction 1 as [|a s l ss Ha _ IH]; [reflexivity|].
  simpl. now rewrite Ha, IH.
Qed.

Lemma Forall2_indexed {A B : Type} (l : list (A * B)) :
  Forall2 (fun ie e => snd ie = e) l (List.map snd l).
Proof. induction l as [|a l IH]; simpl; constructor; auto. Qed.

Lemma default_maxDepth : maxDepth (TypeAnalyzer_new emptyPartial) = 10.
Proof. reflexivity. Qed.

Lemma Forall2_compose {A B C : Type} (P : A -> B -> Prop) (Q : B -> C -> Prop)
    (l1 : list A) (l2 : list B) (l3 : list C) :
  Forall2 P l1 l2 -> Forall2 Q l2 l3 ->
  Forall2 (fun a c => exists b, In b l2 /\ P a b /\ Q b c) l1 l3.
Proof.
  intros H. revert l3. induction H as [|a b l1 l2 Hab _ IH]; intros l3 H'.
  - inversion H'. constructor.
  - inversion H' as [|b' c l2' l3' Hbc Hrest]; subst. constructor.
    + exists b. simpl. auto.
    + eapply List.Forall2_impl; [|exact (IH _ Hrest)].
      intros a' c' (b' & Hin & HP & HQ). exists b'. simpl. auto.
Qed.

Lemma analyzeRoot_unfold config heap value :
  analyzeRoot config heap value = option_map fst (analyze config heap value rootContext ∅).
Proof. reflexivity. Qed.

(** The descriptions of the elements of an array of scalars, as an adapter
    [generate] that only reads the tag of a scalar's description sees
    them. *)
Lemma scalar_group_schemas (generate : AnalysisResult -> option (Outcome string))
    heap l arr ss :
  (forall e c c' vis vis' r r' v v',
      scalar e = true ->
      depth c <= maxDepth (TypeAnalyzer_new emptyPartial) ->
      depth c' <= maxDepth (TypeAnalyzer_new emptyPartial) ->
      analyze (TypeAnalyzer_new emptyPartial) heap e c vis = Some (Returned r, v) ->
      analyze (TypeAnalyzer_new emptyPartial) heap e c' vis' = Some (Returned r', v') ->
      generate r = generate r') ->
  heap l = ArrayObject arr -> forallb scalar (present arr) = true ->
  Forall2 (fun e s =>
             match analyzeRoot (TypeAnalyzer_new emptyPartial) heap e with
             | Some (Returned r) => generate r
             | Some (Thrown error) => Some (Thrown error)
             | None => None
             end = Some (Returned s)) (present arr) ss ->
  exists groups,
    analyzeRoot (TypeAnalyzer_new emptyPartial) heap (VRef l)
    = Some (Returned (ArrayResult (Z.of_nat (List.length arr)) groups []))
    /\ Forall2 (fun g s => generate (et_type g) = Some (Returned s)) groups ss.
Proof.
  intros Hgen Hl Hs Hss.
  assert (Hd : depth rootContext <= maxDepth (TypeAnalyzer_new emptyPartial)).
  { rewrite default_maxDepth. simpl. lia. }
  assert (Hd' : forall i, depth (child_context rootContext (KeyNumber i))
                          <= maxDepth (TypeAnalyzer_new emptyPartial)).
  { intros i. rewrite default_maxDepth. simpl. lia. }
  destruct (scalar_array_analysis (TypeAnalyzer_new emptyPartial) heap l arr rootContext ∅
              Hl Hd Hs)
    as (groups & Hanalysis & Hgroups).
  exists groups. rewrite analyzeRoot_unfold, Hanalysis. split; [reflexivity|].
  pose proof (Forall2_compose _ _ _ _ _ Hgroups
                (Forall2_compose _ _ _ _ _ (Forall2_indexed (indexed_from 0 arr)) Hss))
    as H.
  eapply List.Forall2_impl; [|exact H].
  intros g s ([i e] & Hin & (vis1 & vis2 & Hg) & (e' & He' & Heq & Hschema)).
  cbn [fst snd] in Heq, Hg. subst e'.
  rewrite forallb_forall in Hs. specialize (Hs e He').
  destruct (scalar_analysis (TypeAnalyzer_new emptyPartial) heap e rootContext ∅ Hs)
    as (r0 & Hroot & _).
  rewrite analyzeRoot_unfold, Hroot in Hschema.
  cbn [option_map fst] in Hschema. rewrite <- Hschema.
  exact (Hgen e (child_context rootContext (KeyNumber i)) rootContext vis1 ∅
           (et_type g) r0 vis2 ∅ Hs (Hd' i) Hd Hg Hroot).
Qed.

Lemma zod_installed heap data :
  ZodSchemaAdapter.generateSchemaFromData true heap data
  = match analyzeRoot (TypeAnalyzer_new emptyPartial) heap data with
    | Some (Returned typeInfo) => ZodSchemaAdapter.generateSchema true typeInfo
    | Some (Thrown error) => Some (Thrown error)
    | None => None
    end.
Proof. reflexivity. Qed.

(** X14.  The Zod schema of an array of scalars (strings, numbers,
    booleans, [null], [undefined], symbols) is built from the schemas of its
    elements, one per element and in their order: ["z.array(z.any())"] for
    the empty array, ["z.array(S)"] for one element, and for two or more a
    ["z.union"] that lists the schema of every element, also when the
    elements are all of one type.  The holes of a sparse array count for
    nothing: the elements are those the array holds. *)
Theorem zod_schema_of_scalar_array heap l arr ss :
  heap l = ArrayObject arr -> forallb scalar (present arr) = true ->
  Forall2 (fun e s =>
             ZodSchemaAdapter.generateSchemaFromData true heap e = Some (Returned s))
    (present arr) ss ->
  ZodSchemaAdapter.generateSchemaFromData true heap (VRef l)
  = Some (Returned
            match ss with
            | [] => "z.array(z.any())"
            | [s] => "z.array(" ++ s ++ ")"
            | _ => "z.array(z.union([" ++ String.concat ", " ss ++ "]))"
            end).
Proof.
  intros Hl Hs Hss.
  assert (Htag : forall e c c' vis vis' r r' v v',
             scalar e = true ->
             depth c <= maxDepth (TypeAnalyzer_new emptyPartial) ->
             depth c' <= maxDepth (TypeAnalyzer_new emptyPartial) ->
             analyze (TypeAnalyzer_new emptyPartial) heap e c vis = Some (Returned r, v) ->
             analyze (TypeAnalyzer_new emptyPartial) heap e c' vis' = Some (Returned r', v') ->
             ZodSchemaAdapter.generateSchema true r = ZodSchemaAdapter.generateSchema true r').
  { intros e c c' vis vis' r r' v v' He Hc Hc' Ea Eb.
    rewrite analyze_within_depth in Ea, Eb by assumption.
    destruct e; try discriminate; injection Ea as <- _; injection Eb as <- _; reflexivity. }
  assert (Hss' : Forall2 (fun e s =>
                    match analyzeRoot (TypeAnalyzer_new emptyPartial) heap e with
                    | Some (Returned r) => ZodSchemaAdapter.generateSchema true r
                    | Some (Thrown error) => Some (Thrown error)
                    | None => None
                    end = Some (Returned s)) (present arr) ss).
  { eapply List.Forall2_impl; [|exact Hss]. intros e s H.
    cbv beta in H. rewrite zod_installed in H. exact H. }
  destruct (scalar_group_schemas (ZodSchemaAdapter.generateSchema true) heap l arr ss
              Htag Hl Hs Hss')
    as (groups & Hanalysis & Hgroups).
  rewrite zod_installed, Hanalysis.
  destruct Hgroups as [|[t f c idx] s groups ss1 Hg Hrest]; [reflexivity|].
  destruct Hrest as [|g2 s2 groups ss2 Hg2 Hrest].
  - cbn [ZodSchemaAdapter.generateSchema negb]. simpl in Hg. rewrite Hg. reflexivity.
  - cbn [ZodSchemaAdapter.generateSchema negb].
    rewrite (sequence_Forall2 _ _ (s :: s2 :: ss2)); [reflexivity|].
    constructor; [exact Hg|]. constructor; [now destruct g2|].
    eapply List.Forall2_impl; [|exact Hrest]. now intros [t' f' c' idx'] s'.
Qed.

Lemma zod_schema_of_scalar_array_witness :
  ZodSchemaAdapter.generateSchemaFromData true arraysHeap (VRef 2)
  = Some (Returned "z.array(z.union([z.string(), z.string()]))").
Proof.
  apply (zod_schema_of_scalar_array arraysHeap 2%positive
           [Some (VString "reading"); Some (VString "coding")] ["z.string()"; "z.string()"]
           eq_refl eq_refl).
  constructor; [vm_compute; reflexivity|].
  constructor; [vm_compute; reflexivity|constructor].
Defined.


Lemma joi_installed heap data :
  JoiSchemaAdapter.generateSchemaFromData true heap data
  = match analyzeRoot (TypeAnalyzer_new emptyPartial) heap data with
    | Some (Returned typeInfo) => JoiSchemaAdapter.generateSchema true typeInfo
    | Some (Thrown error) => Some (Thrown error)
    | None => None
    end.
Proof. reflexivity. Qed.


(** X15.  The Joi schema of an array of scalars lists the schema of every
    element, one per element and in their order, as the arguments of
    [items]: ["Joi.array()"] for the empty array, and
    ["Joi.array().items(S1, ..., Sn)"] otherwise, also when the elements are
    all of one type.  The holes of a sparse array count for nothing: the
    elements are those the array holds. *)
Theorem joi_schema_of_scalar_array heap l arr ss :
  heap l = ArrayObject arr -> forallb scalar (present arr) = true ->
  Forall2 (fun e s =>
             JoiSchemaAdapter.generateSchemaFromData true heap e = Some (Returned s))
    (present arr) ss ->
  JoiSchemaAdapter.generateSchemaFromData true heap (VRef l)
  = Some (Returned
            match ss with
            | [] => "Joi.array()"
            | _ => "Joi.array().items(" ++ String.concat ", " ss ++ ")"
            end).
Proof.
  intros Hl Hs Hss.
  assert (Htag : forall e c c' vis vis' r r' v v',
             scalar e = true ->
             depth c <= maxDepth (TypeAnalyzer_new emptyPartial) ->
             depth c' <= maxDepth (TypeAnalyzer_new emptyPartial) ->
             analyze (TypeAnalyzer_new emptyPartial) heap e c vis = Some (Returned r, v) ->
             analyze (TypeAnalyzer_new emptyPartial) heap e c' vis' = Some (Returned r', v') ->
             JoiSchemaAdapter.generateSchema true r = JoiSchemaAdapter.generateSchema true r').
  { intros e c c' vis vis' r r' v v' He Hc Hc' Ea Eb.
    rewrite analyze_within_depth in Ea, Eb by assumption.
    destruct e; try discriminate; injection Ea as <- _; injection Eb as <- _; reflexivity. }
  assert (Hss' : Forall2 (fun e s =>
                    match analyzeRoot (TypeAnalyzer_new emptyPartial) heap e with
                    | Some (Returned r) => JoiSchemaAdapter.generateSchema true r
                    | Some (Thrown error) => Some (Thrown error)
                    | None => None
                    end = Some (Returned s)) (present arr) ss).
  { eapply List.Forall2_impl; [|exact Hss]. intros e s H.
    cbv beta in H. rewrite joi_installed in H. exact H. }
  destruct (scalar_group_schemas (JoiSchemaAdapter.generateSchema true) heap l arr ss
              Htag Hl Hs Hss')
    as (groups & Hanalysis & Hgroups).
  rewrite joi_installed, Hanalysis.
  destruct Hgroups as [|[t f c idx] s groups ss1 Hg Hrest]; [reflexivity|].
  destruct Hrest as [|g2 s2 groups ss2 Hg2 Hrest].
  - cbn [JoiSchemaAdapter.generateSchema negb]. simpl in Hg. rewrite Hg. reflexivity.
  - cbn [JoiSchemaAdapter.generateSchema negb].
    rewrite (sequence_Forall2 _ _ (s :: s2 :: ss2)); [reflexivity|].
    constructor; [exact Hg|]. constructor; [now destruct g2|].
    eapply List.Forall2_impl; [|exact Hrest]. now intros [t' f' c' idx'] s'.
Qed.

Lemma joi_schema_of_scalar_array_witness :
  JoiSchemaAdapter.generateSchemaFromData true arraysHeap (VRef 1)
  = Some (Returned "Joi.array().items(Joi.number(), Joi.number(), Joi.string())").
Proof.
  apply (joi_schema_of_scalar_array arraysHeap 1%positive
           [Some (VNumber 1); Some (VNumber 1); Some (VString "x")]
           ["Joi.number()"; "Joi.number()"; "Joi.string()"] eq_refl eq_refl).
  constructor; [vm_compute; reflexivity|].
  constructor; [vm_compute; reflexivity|].
  constructor; [vm_compute; reflexivity|constructor].
Defined.





(** ** The OpenAPI adapter *)

Lemma openapi_installed msg config heap data :
  OpenAPISchemaAdapter.generateSchemaFromData msg config heap data
  = match analyzeRoot (TypeAnalyzer_new emptyPartial) heap data with
    | Some (Returned typeInfo) => OpenAPISchemaAdapter.generateSchema msg config typeInfo
    | Some (Thrown error) => Some (Thrown error)
    | None => None
    end.
Proof. reflexivity. Qed.

Lemma propertyRound_sticky msg name entries : forall state,
  not_returned state ->
  not_returned (fold_left (OpenAPISchemaAdapter.propertyRound msg name) entries state).
Proof.
  induction entries as [|entry entries IH]; intros state Hstate; [exact Hstate|].
  simpl. apply IH. destruct state as [[schemas|m]|]; try (intros a; discriminate).
  exfalso. exact (Hstate schemas eq_refl).
Qed.

Lemma propertyRound_failure msg name entries propName optional generated :
  In (propName, optional, generated) entries -> not_returned generated ->
  forall state,
    not_returned (fold_left (OpenAPISchemaAdapter.propertyRound msg name) entries state).
Proof.
  induction entries as [|entry entries IH]; intros Hin Hgen state; [destruct Hin|].
  simpl. destruct Hin as [->|Hin]; [|now apply IH].
  apply propertyRound_sticky.
  destruct state as [[schemas|m]|]; try (intros a; discriminate).
  simpl. destruct generated as [[[propSchema subSchemas]|m]|]; try (intros a; discriminate).
  exfalso. exact (Hgen _ eq_refl).
Qed.

Lemma objectSchemas_failure msg name entries propName optional generated :
  In (propName, optional, generated) entries -> not_returned generated ->
  not_returned (OpenAPISchemaAdapter.objectSchemas msg name entries).
Proof.
  intros Hin Hgen. unfold OpenAPISchemaAdapter.objectSchemas.
  pose proof (propertyRound_failure msg name entries _ _ _ Hin Hgen
                (Some (Returned
                   [(name, OpenAPISchemaAdapter.JObject
                             [("type", OpenAPISchemaAdapter.JString "object");
                              ("properties", OpenAPISchemaAdapter.JObject []);
                              ("required", OpenAPISchemaAdapter.JArray [])])]))) as H.
  destruct (fold_left _ entries _) as [[schemas|m]|]; try (intros a; discriminate).
  exfalso. exact (H schemas eq_refl).
Qed.

Lemma not_returned_map {A B : Type} (f : A -> B) (o : option (Outcome A)) :
  not_returned o -> not_returned (option_map (outcome_map f) o).
Proof.
  intros H. destruct o as [[a|m]|]; try (intros b; discriminate).
  exfalso. exact (H a eq_refl).
Qed.

Lemma generatePropertySchema_empty_array msg r :
  visits_empty_array r ->
  forall name, not_returned (OpenAPISchemaAdapter.generatePropertySchema msg r name).
Proof.
  induction 1 as [len p|len [t f c idx] rest p _ IH|c props syms proto p kv Hin _ IH];
    intros name.
  - intros a. discriminate.
  - cbn [OpenAPISchemaAdapter.generatePropertySchema]. apply not_returned_map. apply IH.
  - cbn [OpenAPISchemaAdapter.generatePropertySchema]. apply not_returned_map.
    eapply objectSchemas_failure.
    + apply (in_map (fun kv =>
                       (fst kv, OpenAPISchemaAdapter.isOptionalType (snd kv),
                        match OpenAPISchemaAdapter.capitalize (fst kv) with
                        | Some Name =>
                            OpenAPISchemaAdapter.generatePropertySchema msg (snd kv)
                              (name ++ Name)
                        | None => None
                        end)) props kv Hin).
    + cbv beta. destruct (OpenAPISchemaAdapter.capitalize (fst kv));
        [apply IH|intros a; discriminate].
Qed.

Lemma generateComponentSchemas_empty_array msg r name :
  visits_empty_array r ->
  not_returned (OpenAPISchemaAdapter.generateComponentSchemas msg r name).
Proof.
  intros H. destruct H as [len p|len [t f c idx] rest p H|c props syms proto p kv Hin H].
  - intros a. discriminate.
  - cbn [OpenAPISchemaAdapter.generateComponentSchemas]. apply not_returned_map.
    now apply generatePropertySchema_empty_array.
  - cbn [OpenAPISchemaAdapter.generateComponentSchemas].
    eapply objectSchemas_failure.
    + apply (in_map (fun kv =>
                       (fst kv, OpenAPISchemaAdapter.isOptionalType (snd kv),
                        match OpenAPISchemaAdapter.capitalize (fst kv) with
                        | Some Name =>
                            OpenAPISchemaAdapter.generatePropertySchema msg (snd kv)
                              (name ++ Name)
                        | None => None
                        end)) props kv Hin).
    + cbv beta. destruct (OpenAPISchemaAdapter.capitalize (fst kv));
        [now apply generatePropertySchema_empty_array|intros a; discriminate].
Qed.

Lemma empty_array_analysis config heap l arr context vis :
  heap l = ArrayObject arr -> present arr = [] -> depth context <= maxDepth config ->
  analyze config heap (VRef l) context vis
  = Some (Returned (ArrayResult (Z.of_nat (List.length arr)) [] (path context)),
          {[ l ]} ∪ vis).
Proof.
  intros Hl Hnone Hd. rewrite (analyze_array _ _ _ _ _ _ Hl Hd).
  apply catch_step_returned. unfold handleArray, analyzeArrayElements.
  unfold present in Hnone. apply map_eq_nil in Hnone. rewrite Hnone. reflexivity.
Qed.

(** X17.  The OpenAPI adapter has no schema for an array without elements:
    for the empty array, and for an array of holes only,
    [generateSchemaFromData] throws ["Failed to generate OpenAPI schema: "]
    followed by the engine's message for reading [type] of [undefined], and
    [generateSchema] returns no document for any description in which an
    array without elements is the value of a property or the first group of
    an array, however deep. *)
Theorem openapi_has_no_schema_for_empty_arrays msg config heap :
  (forall l,
      heap l = ArrayObject [] ->
      OpenAPISchemaAdapter.generateSchemaFromData msg config heap (VRef l)
      = Some (Thrown (Message ("Failed to generate OpenAPI schema: " ++ msg "type"))))
  /\ (forall l arr,
        heap l = ArrayObject arr -> present arr = [] ->
        OpenAPISchemaAdapter.generateSchemaFromData msg config heap (VRef l)
        = Some (Thrown (Message ("Failed to generate OpenAPI schema: " ++ msg "type"))))
  /\ (forall typeInfo text,
        visits_empty_array typeInfo ->
        OpenAPISchemaAdapter.generateSchema msg config typeInfo <> Some (Returned text)).
Proof.
  assert (Hnone : forall l arr,
             heap l = ArrayObject arr -> present arr = [] ->
             OpenAPISchemaAdapter.generateSchemaFromData msg config heap (VRef l)
             = Some (Thrown (Message ("Failed to generate OpenAPI schema: "
                                      ++ msg "type")))).
  { intros l arr Hl Harr. rewrite openapi_installed, analyzeRoot_unfold.
    rewrite (empty_array_analysis _ _ _ _ _ _ Hl Harr);
      [reflexivity|rewrite default_maxDepth; simpl; lia]. }
  split; [|split; [exact Hnone|]].
  - intros l Hl. exact (Hnone l [] Hl eq_refl).
  - intros typeInfo text Hvisits. unfold OpenAPISchemaAdapter.generateSchema.
    pose proof (generateComponentSchemas_empty_array msg typeInfo "Root" Hvisits) as H.
    destruct (OpenAPISchemaAdapter.generateComponentSchemas msg typeInfo "Root")
      as [[schemas|[m|m]]|]; try discriminate.
    exfalso. exact (H schemas eq_refl).
Qed.

Lemma openapi_has_no_schema_for_empty_arrays_witness :
  OpenAPISchemaAdapter.generateSchemaFromData
    (fun property => "Cannot read properties of undefined (reading '" ++ property ++ "')")
    (OpenAPISchemaAdapter.mkOpenAPIConfig "API" "1.0.0" None None)
    (fun _ => ArrayObject []) (VRef 1)
  = Some (Thrown (Message ("Failed to generate OpenAPI schema: "
                           ++ "Cannot read properties of undefined (reading 'type')"))).
Proof.
  exact (proj1 (openapi_has_no_schema_for_empty_arrays
                  (fun property =>
                     "Cannot read properties of undefined (reading '" ++ property ++ "')")
                  (OpenAPISchemaAdapter.mkOpenAPIConfig "API" "1.0.0" None None)
                  (fun _ => ArrayObject [])) 1%positive eq_refl).
Defined.

Lemma scalar_result_unique config heap e context vis vis' r r' v v' :
  scalar e = true ->
  analyze config heap e context vis = Some (Returned r, v) ->
  analyze config heap e context vis' = Some (Returned r', v') ->
  r = r'.
Proof.
  intros He E E'.
  destruct (Z_gt_le_dec (depth context) (maxDepth config)) as [Hd|Hd].
  - rewrite analyze_beyond_depth in E, E' by assumption. congruence.
  - rewrite analyze_within_depth in E, E' by assumption.
    destruct e; try discriminate; injection E as <- _; injection E' as <- _; reflexivity.
Qed.

(** X18.  The OpenAPI schema of an array describes its first element only:
    for an array of scalars the document is the one of the array that holds
    the first element alone, whatever the other elements are, holes among
    them or not. *)
Theorem openapi_items_are_the_first_element msg config heap l l' e rest :
  heap l = ArrayObject (Some e :: rest) ->
  forallb scalar (present (Some e :: rest)) = true ->
  heap l' = ArrayObject [Some e] ->
  OpenAPISchemaAdapter.generateSchemaFromData msg config heap (VRef l)
  = OpenAPISchemaAdapter.generateSchemaFromData msg config heap (VRef l').
Proof.
  intros Hl Hs Hl'.
  assert (Hd : depth rootContext <= maxDepth (TypeAnalyzer_new emptyPartial)).
  { rewrite default_maxDepth. simpl. lia. }
  assert (He : scalar e = true).
  { unfold present in Hs. cbn [indexed_from List.map snd forallb] in Hs.
    now apply andb_prop in Hs as [-> _]. }
  assert (Hs' : forallb scalar (present [Some e]) = true).
  { unfold present. cbn [indexed_from List.map snd forallb]. now rewrite He. }
  destruct (scalar_array_analysis (TypeAnalyzer_new emptyPartial) heap l (Some e :: rest)
              rootContext ∅ Hl Hd Hs) as (groups & Hanalysis & Hgroups).
  destruct (scalar_array_analysis (TypeAnalyzer_new emptyPartial) heap l' [Some e]
              rootContext ∅ Hl' Hd Hs') as (groups' & Hanalysis' & Hgroups').
  rewrite !openapi_installed, !analyzeRoot_unfold, Hanalysis, Hanalysis'.
  cbn [indexed_from] in Hgroups, Hgroups'.
  inversion Hgroups as [|[t f c idx] ie gs ies (v1 & v2 & Hg) _ Eg Eies]; subst.
  inversion Hgroups' as [|[t' f' c' idx'] ie' gs' ies' (v1' & v2' & Hg') _ Eg' Eies']; subst.
  cbn [fst snd et_type] in Hg, Hg'.
  rewrite (scalar_result_unique _ _ _ _ _ _ _ _ _ _ He Hg Hg').
  reflexivity.
Qed.

Lemma openapi_items_are_the_first_element_witness :
  OpenAPISchemaAdapter.generateSchemaFromData (fun property => property)
    (OpenAPISchemaAdapter.mkOpenAPIConfig "API" "1.0.0" None None) itemsHeap (VRef 1)
  = OpenAPISchemaAdapter.generateSchemaFromData (fun property => property)
      (OpenAPISchemaAdapter.mkOpenAPIConfig "API" "1.0.0" None None) itemsHeap (VRef 2).
Proof.
  exact (openapi_items_are_the_first_element (fun property => property)
           (OpenAPISchemaAdapter.mkOpenAPIConfig "API" "1.0.0" None None)
           itemsHeap 1%positive 2%positive (VNumber 1) [Some (VString "x")]
           eq_refl eq_refl eq_refl).
Defined.

(** X19.  For a value that is not an object or an array (a primitive,
    [null], [undefined], a symbol, a function) the OpenAPI document has no
    schema at all: [components.schemas] is empty and nothing is thrown,
    with one exception: a function whose [toString] throws a value that
    has no message and whose conversion to a string throws a value without
    one in turn; the analysis raises then, and the adapter passes that
    on. *)
Theorem openapi_has_no_schema_for_other_values msg config heap data :
  (forall l, data <> VRef l) ->
  (plain_value data = true ->
   OpenAPISchemaAdapter.generateSchemaFromData msg config heap data
   = Some (Returned
             (OpenAPISchemaAdapter.stringify EmptyString
                (OpenAPISchemaAdapter.document config []))))
  /\ (OpenAPISchemaAdapter.generateSchemaFromData msg config heap data
      = Some (Returned
                (OpenAPISchemaAdapter.stringify EmptyString
                   (OpenAPISchemaAdapter.document config [])))
      \/ exists f raised,
           data = VFunction f /\ fn_source f = Thrown (Opaque (Opaque raised))
           /\ analyzeRoot (TypeAnalyzer_new emptyPartial) heap data = Some (Thrown raised)
           /\ OpenAPISchemaAdapter.generateSchemaFromData msg config heap data
              = Some (Thrown raised)).
Proof.
  intros Hdata. rewrite openapi_installed, analyzeRoot_unfold.
  rewrite analyze_within_depth by (rewrite default_maxDepth; simpl; lia).
  destruct data as [| |s|n|b|n|d|f|l]; try (split; [intros _|left]; reflexivity).
  - unfold catching, try_catch, dispatch, handleFunction, analyzeFunctionParameters,
      bind, of_outcome, ret.
    change (includeMethods (TypeAnalyzer_new emptyPartial)) with true. cbv iota.
    cbn [plain_value].
    destruct (fn_source f) as [text|[m|[m|raised]]] eqn:Hsource;
      try (split; [intros _|left]; reflexivity).
    split; [discriminate|]. right. exists f, raised.
    split; [reflexivity|]. split; [exact Hsource|]. split; reflexivity.
  - now destruct (Hdata l).
Qed.

Lemma openapi_has_no_schema_for_other_values_witness :
  OpenAPISchemaAdapter.generateSchemaFromData (fun property => property)
    (OpenAPISchemaAdapter.mkOpenAPIConfig "API" "1.0.0" None None) nestedHeap
    (VString "hello")
  = Some (Returned
            (OpenAPISchemaAdapter.stringify EmptyString
               (OpenAPISchemaAdapter.document
                  (OpenAPISchemaAdapter.mkOpenAPIConfig "API" "1.0.0" None None) []))).
Proof.
  refine (proj1 (openapi_has_no_schema_for_other_values (fun property => property)
                   (OpenAPISchemaAdapter.mkOpenAPIConfig "API" "1.0.0" None None)
                   nestedHeap (VString "hello") _) eq_refl).
  intros l. discriminate.
Defined.


(** ** Flat objects *)

Lemma record_get_In {A : Type} (r : list (string * A)) (kv : string * A) :
  List.NoDup (List.map fst r) -> In kv r -> record_get (fst kv) r = Some (snd kv).
Proof.
  induction r as [|[k a] r IH]; intros Hnd Hin; [destruct Hin|].
  apply NoDup_cons_iff in Hnd as [Hk Hnd]. simpl in *.
  destruct Hin as [<-|Hin].
  - simpl. now rewrite String.eqb_refl.
  - destruct (String.eqb_spec k (fst kv)) as [Heq|_]; [|now apply IH].
    exfalso. apply Hk. rewrite Heq. now apply in_map.
Qed.

Lemma property_assign_keys_NoDup {A : Type} (k : string) (a : A) (r : list (string * A)) :
  List.NoDup (List.map fst r) -> List.NoDup (List.map fst (property_assign k a r)).
Proof.
  unfold property_assign. destruct (String.eqb k "__proto__"); [auto|].
  apply record_set_keys_NoDup.
Qed.

Lemma property_loop_NoDup config self context (names : list OwnProperty) :
  forall acc vis props vis',
    for_each (propertyStep config self context) names acc vis = Some (Returned props, vis') ->
    List.NoDup (List.map fst acc) -> List.NoDup (List.map fst props).
Proof.
  induction names as [|q names IH]; intros acc vis props vis' E Hnd.
  - simpl in E. now apply ret_returned in E as [<- _].
  - cbn [for_each] in E. apply bind_returned in E as (acc1 & vis1 & Estep & E).
    apply (IH _ _ _ _ E).
    apply propertyStep_keys in Estep as [[_ ->]|[_ [r ->]]]; [exact Hnd|].
    now apply property_assign_keys_NoDup.
Qed.

(** The entries of an [object] result, one per listed property and in the
    order of the listing, each what the loop recorded for its property. *)
Lemma object_entries config heap l o context vis c props syms proto p vis' :
  heap l = PlainObject o -> customHandler config o = None ->
  analyze config heap (VRef l) context vis
  = Some (Returned (ObjectResult c props syms proto p), vis') ->
  List.NoDup (List.map prop_name (ownProperties o)) ->
  Forall2 (fun kv q =>
             fst kv = prop_name q
             /\ recorded config heap (analyze config heap) context q ({[ l ]} ∪ vis)
                  [(fst kv, snd kv)])
    props (listed config o).
Proof.
  intros Hl Hc E Hnd.
  apply (analyze_object_result _ _ _ _ _ _ _ _ _ _ _ _ Hl Hc) in E.
  apply handleObject_returned_parts in E as (vis1 & entries & Hprops & _).
  pose proof (property_loop_keys _ _ _ _ _ _ _ _ Hprops
                (propertyNames_NoDup config o Hnd) (fun q _ H => H)) as Hkeys.
  pose proof (property_loop_NoDup _ _ _ _ _ _ _ _ Hprops (List.NoDup_nil _)) as Hnd'.
  simpl in Hkeys. fold (listed config o) in Hkeys.
  apply (property_loop_returned config heap (analyze config heap) context
           (analyze_steady_call config heap _)) in Hprops as (_ & _ & _ & Hrec).
  specialize (Hrec (propertyNames_NoDup config o Hnd)).
  eapply (Forall2_of_maps fst prop_name (fun kv => In kv props));
    [exact Hkeys|apply List.Forall_forall; auto|].
  intros kv q Hkv Hq Heq. split; [exact Heq|].
  unfold listed in Hq. apply filter_In in Hq as [Hq Hkept].
  unfold kept_key_of in Hkept. apply andb_true_iff in Hkept as [Hsk Hproto].
  apply negb_true_iff in Hsk. apply negb_true_iff in Hproto.
  apply String.eqb_neq in Hproto. specialize (Hrec q Hq Hsk Hproto).
  pose proof (record_get_In props kv Hnd' Hkv) as Hget. rewrite Heq in Hget.
  unfold recorded in *. simpl. rewrite Heq, String.eqb_refl.
  destruct (shortcut config q).
  - rewrite Hget in Hrec. exact Hrec.
  - destruct Hrec as (v1 & v2 & r & Hsub & Hmember & Hr).
    rewrite Hget in Hr. injection Hr as <-. exists v1, v2, (snd kv). auto.
Qed.

Lemma flat_listed config o :
  includePrivateProps config = false -> flat o -> listed config o = ownProperties o.
Proof.
  intros Hpriv (_ & Hall & _). unfold listed, propertyNames, kept_key_of, skipped.
  rewrite Hpriv.
  induction Hall as [|q qs (Hen & Hsharp & Hproto & _) _ IH]; [reflexivity|].
  cbn [List.filter]. rewrite Hen. cbn [List.filter]. rewrite Hsharp.
  apply String.eqb_neq in Hproto. rewrite Hproto. cbn [negb andb].
  f_equal. exact IH.
Qed.

Lemma primitive_analysis config heap v context vis :
  primitive v = true ->
  exists r, analyze config heap v context vis = Some (Returned r, vis).
Proof.
  intros Hp. destruct (Z_gt_le_dec (depth context) (maxDepth config)) as [Hd|Hd].
  - rewrite analyze_beyond_depth by assumption. eauto.
  - rewrite analyze_within_depth by assumption.
    destruct v; try discriminate; eexists; reflexivity.
Qed.

Lemma primitive_member config heap context key slot v vis :
  slot = DataProperty v -> primitive v = true ->
  exists r,
    analyze config heap v (mkContext (depth context + 1) (extend (path context) key)) vis
    = Some (Returned r, vis)
    /\ analyzeMember (analyze config heap) context key slot vis = Some (Returned r, vis).
Proof.
  intros -> Hp.
  destruct (primitive_analysis config heap v
              (mkContext (depth context + 1) (extend (path context) key)) vis Hp) as [r Hr].
  exists r. split; [exact Hr|].
  eapply analyzeMember_value; [reflexivity|exact Hr].
Qed.

Lemma flat_object_entries config heap l o context vis c props syms proto p vis' :
  includePrivateProps config = false ->
  heap l = PlainObject o -> customHandler config o = None ->
  analyze config heap (VRef l) context vis
  = Some (Returned (ObjectResult c props syms proto p), vis') ->
  flat o ->
  Forall2 (fun kv q =>
             fst kv = prop_name q
             /\ exists v vis1 vis2,
                  prop_slot q = DataProperty v /\ primitive v = true
                  /\ analyze config heap v (child_context context (KeyString (prop_name q))) vis1
                     = Some (Returned (snd kv), vis2))
    props (ownProperties o).
Proof.
  intros Hpriv Hl Hc E Hflat.
  pose proof (object_entries _ _ _ _ _ _ _ _ _ _ _ _ Hl Hc E (proj1 Hflat)) as H.
  rewrite (flat_listed config o Hpriv Hflat) in H.
  destruct Hflat as (_ & Hall & _).
  assert (Hall' : Forall (fun q => exists v, prop_slot q = DataProperty v /\ primitive v = true)
                    (ownProperties o)).
  { eapply List.Forall_impl; [|exact Hall]. simpl. tauto. }
  clear Hall E. revert Hall'.
  induction H as [|kv q props owns [Hkey Hrec] _ IH]; intros Hall; [constructor|].
  apply Forall_cons_1 in Hall as [(v & Hslot & Hprim) Hall].
  constructor; [|now apply IH]. split; [exact Hkey|].
  unfold recorded, shortcut in Hrec. rewrite Hslot in Hrec.
  cbn [is_accessor] in Hrec. rewrite andb_false_r in Hrec.
  destruct Hrec as (v1 & v2 & r & _ & Hmember & Hget).
  simpl in Hget. rewrite Hkey, String.eqb_refl in Hget. injection Hget as <-.
  destruct (primitive_member config heap context (KeyString (prop_name q))
              (DataProperty v) v v1 eq_refl Hprim) as (r0 & Hr0 & Hm0).
  rewrite Hm0 in Hmember. injection Hmember as <- <-.
  exists v, v1, v1. auto.
Qed.

Lemma flat_property_loop config heap context (names : list OwnProperty) :
  Forall (fun q => exists v, prop_slot q = DataProperty v /\ primitive v = true) names ->
  forall acc vis,
    exists props,
      for_each (propertyStep config (analyze config heap) context) names acc vis
      = Some (Returned props, vis).
Proof.
  induction 1 as [|q names (v & Hslot & Hprim) _ IH]; intros acc vis.
  - exists acc. reflexivity.
  - cbn [for_each].
    assert (Hstep : exists acc1,
               propertyStep config (analyze config heap) context acc q vis
               = Some (Returned acc1, vis)).
    { unfold propertyStep. destruct (skipped config q); [eexists; reflexivity|].
      unfold shortcut. rewrite Hslot. cbn [is_accessor]. rewrite andb_false_r.
      destruct (primitive_member config heap context (KeyString (prop_name q))
                  (DataProperty v) v vis eq_refl Hprim) as (r & _ & Hm).
      rewrite (bind_step _ _ _ _ _ Hm). eexists. reflexivity. }
    destruct Hstep as [acc1 Hstep]. rewrite (bind_step _ _ _ _ _ Hstep). apply IH.
Qed.

Lemma flat_symbol_loop config heap context (names : list SymbolProperty) :
  Forall (fun s => exists v, sym_slot s = DataProperty v /\ primitive v = true) names ->
  forall acc vis,
    exists entries,
      for_each (symbolStep (analyze config heap) context) names acc vis
      = Some (Returned entries, vis).
Proof.
  induction 1 as [|s names (v & Hslot & Hprim) _ IH]; intros acc vis.
  - exists acc. reflexivity.
  - cbn [for_each]. unfold symbolStep at 1.
    destruct (primitive_member config heap context
                (KeyString (or_else (sym_description s) "Symbol"))
                (sym_slot s) v vis Hslot Hprim) as (r & _ & Hm).
    rewrite (bind_step _ _ _ _ _ (bind_step _ _ _ _ _ Hm)). apply IH.
Qed.

Lemma quiet_members (members : list (string * Outcome bool)) :
  forallb (fun m => match snd m with Returned _ => true | Thrown _ => false end) members
  = true ->
  exists kept, forall vis,
    filter_each (fun m => of_outcome (snd m)) members vis = Some (Returned kept, vis).
Proof.
  induction members as [|[name [b|e]] members IH]; intros Hq; simpl in Hq;
    [exists []; reflexivity| |discriminate].
  destruct (IH Hq) as [kept Hkept].
  exists (if b then (name, Returned b) :: kept else kept). intros vis.
  cbn [filter_each]. unfold bind, of_outcome. cbn [snd]. now rewrite Hkept.
Qed.

Lemma quiet_prototype_info config o :
  quiet_prototype (prototype o) = true ->
  exists proto, forall vis, prototype_info config o vis = Some (Returned proto, vis).
Proof.
  intros Hq. unfold prototype_info.
  destruct (includePrototype config); [|eexists; reflexivity].
  destruct (prototype o) as [| |[name|raised] members]; try (eexists; reflexivity);
    [|discriminate].
  simpl in Hq.
  destruct (includeMethods config); [|eexists; reflexivity].
  destruct (quiet_members members Hq) as [kept Hkept].
  eexists. intros vis. unfold bind, of_outcome. rewrite Hkept. reflexivity.
Qed.

Lemma generic_object_analysis config heap l o context vis :
  heap l = PlainObject o -> l ∉ vis -> customHandler config o = None ->
  depth context <= maxDepth config -> flat o ->
  exists props syms proto,
    analyze config heap (VRef l) context vis
    = Some (Returned (ObjectResult (or_else (className o) "Object") props syms proto
                        (path context)), {[ l ]} ∪ vis).
Proof.
  intros Hl Hout Hc Hd (_ & Hprops & Hsyms & Hproto).
  rewrite (analyze_generic_object _ _ _ _ _ _ Hl Hout Hc Hd).
  assert (Hnames : Forall (fun q => exists v, prop_slot q = DataProperty v
                                              /\ primitive v = true)
                     (propertyNames config o)).
  { assert (Hall : Forall (fun q => exists v, prop_slot q = DataProperty v
                                              /\ primitive v = true) (ownProperties o)).
    { eapply List.Forall_impl; [|exact Hprops]. simpl. tauto. }
    unfold propertyNames. destruct (includePrivateProps config); [exact Hall|].
    rewrite List.Forall_forall in Hall |- *. intros q Hq.
    apply filter_In in Hq as [Hq _]. now apply Hall. }
  destruct (flat_property_loop config heap context _ Hnames [] ({[ l ]} ∪ vis))
    as [props Eprops].
  destruct (flat_symbol_loop config heap context _ Hsyms [] ({[ l ]} ∪ vis))
    as [entries Eentries].
  destruct (quiet_prototype_info config o Hproto) as [proto Eproto].
  do 3 eexists. apply catch_step_returned. unfold handleObject.
  assert (Hadd : visited_add l vis = Some (Returned tt, {[ l ]} ∪ vis)) by reflexivity.
  rewrite (bind_step _ _ _ _ _ Hadd), (bind_step _ _ _ _ _ Eprops),
    (bind_step _ _ _ _ _ Eentries), (bind_step _ _ _ _ _ (Eproto _)).
  reflexivity.
Qed.

Lemma default_includePrivateProps :
  includePrivateProps (TypeAnalyzer_new emptyPartial) = false.
Proof. reflexivity. Qed.

Lemma Forall2_lines {A B : Type} (P : A -> B -> Prop) (Q : B -> string -> Prop)
    (f : A -> option (Outcome string)) (g : B -> string -> string)
    (l1 : list A) (l2 : list B) :
  Forall2 P l1 l2 ->
  (forall a b s, P a b -> Q b s -> f a = Some (Returned (g b s))) ->
  forall ss,
    Forall2 Q l2 ss ->
    Forall2 (fun a line => f a = Some (Returned line)) l1
      (List.map (fun bs => g (fst bs) (snd bs)) (combine l2 ss)).
Proof.
  intros H Hf. induction H as [|a b l1 l2 Hab _ IH]; intros ss Hss.
  - inversion Hss. constructor.
  - inversion Hss as [|b' s l2' ss' Hbs Hrest]; subst. simpl. constructor; eauto.
Qed.

(** X20.  The Zod schema of a flat object (enumerable data properties that
    hold primitives, none named [__proto__] or with a leading ["#"],
    symbol-keyed properties that hold primitives, a prototype all of whose
    members can be read, the object being described by the generic object
    handler) has one line per property, in the order of the properties: the
    name as it is, a colon, and the schema of the value. *)
Theorem zod_schema_of_flat_object heap l o ss :
  heap l = PlainObject o -> customHandler (TypeAnalyzer_new emptyPartial) o = None ->
  flat o ->
  Forall2 (fun q s =>
             exists v, prop_slot q = DataProperty v
                       /\ ZodSchemaAdapter.generateSchemaFromData true heap v
                          = Some (Returned s))
    (ownProperties o) ss ->
  ZodSchemaAdapter.generateSchemaFromData true heap (VRef l)
  = Some (Returned
            ("z.object({" ++ newline ++ "  "
             ++ String.concat ("," ++ newline ++ "  ")
                  (List.map (fun qs => prop_name (fst qs) ++ ": " ++ snd qs)
                     (combine (ownProperties o) ss))
             ++ newline ++ "})")).
Proof.
  intros Hl Hc Hflat Hss.
  assert (Hd : depth rootContext <= maxDepth (TypeAnalyzer_new emptyPartial)).
  { rewrite default_maxDepth. simpl. lia. }
  assert (Hd' : forall k, depth (child_context rootContext k)
                          <= maxDepth (TypeAnalyzer_new emptyPartial)).
  { intros k. rewrite default_maxDepth. simpl. lia. }
  destruct (generic_object_analysis (TypeAnalyzer_new emptyPartial) heap l o rootContext ∅
              Hl ltac:(set_solver) Hc Hd Hflat) as (props & syms & proto & E).
  pose proof (flat_object_entries _ _ _ _ _ _ _ _ _ _ _ _
                default_includePrivateProps Hl Hc E Hflat) as Hentries.
  rewrite zod_installed, analyzeRoot_unfold, E.
  cbn [option_map fst ZodSchemaAdapter.generateSchema negb].
  rewrite (sequence_Forall2 _ _
             (List.map (fun qs => prop_name (fst qs) ++ ": " ++ snd qs)
                (combine (ownProperties o) ss))); [reflexivity|].
  eapply (Forall2_lines _ _ _ (fun q s => prop_name q ++ ": " ++ s) _ _ Hentries);
    [|exact Hss].
  intros kv q s (Hkey & v & v1 & v2 & Hslot & Hprim & Hv) (v' & Hslot' & Hs).
  rewrite Hslot in Hslot'. injection Hslot' as <-.
  rewrite zod_installed, analyzeRoot_unfold in Hs.
  destruct (primitive_analysis (TypeAnalyzer_new emptyPartial) heap v rootContext ∅ Hprim)
    as (r0 & Hroot).
  rewrite Hroot in Hs. cbn [option_map fst] in Hs.
  assert (Htag : ZodSchemaAdapter.generateSchema true (snd kv)
                 = ZodSchemaAdapter.generateSchema true r0).
  { rewrite analyze_within_depth in Hv, Hroot by auto.
    destruct v; try discriminate; injection Hv as <- _; injection Hroot as <-;
      reflexivity. }
  rewrite Htag, Hs, Hkey. reflexivity.
Qed.

Lemma zod_schema_of_flat_object_witness :
  ZodSchemaAdapter.generateSchemaFromData true personHeap (VRef 1)
  = Some (Returned
            ("z.object({" ++ newline ++ "  "
             ++ "name: z.string()," ++ newline ++ "  "
             ++ "age: z.number()," ++ newline ++ "  "
             ++ "id: z.any()" ++ newline ++ "})")).
Proof.
  apply (zod_schema_of_flat_object personHeap 1%positive
           (objectLiteral [("name", VString "John"); ("age", VNumber 30); ("id", VBigInt 7)])
           ["z.string()"; "z.number()"; "z.any()"] eq_refl).
  - vm_compute. reflexivity.
  - split; [vm_compute; repeat constructor; simpl; intuition discriminate|].
    split; [|split; [constructor|reflexivity]].
    constructor; [|constructor; [|constructor; [|constructor]]];
      (split; [reflexivity|split; [reflexivity|split; [discriminate|]]]);
      eexists; split; reflexivity.
  - constructor; [eexists; split; [reflexivity|vm_compute; reflexivity]|].
    constructor; [eexists; split; [reflexivity|vm_compute; reflexivity]|].
    constructor; [eexists; split; [reflexivity|vm_compute; reflexivity]|constructor].
Defined.

Lemma map_Forall2 {A B C : Type} (R : A -> B -> Prop) (F : A -> C) (G : B -> C)
    (l1 : list A) (l2 : list B) :
  Forall2 R l1 l2 -> (forall a b, R a b -> F a = G b) -> List.map F l1 = List.map G l2.
Proof.
  intros H HFG. induction H as [|a b l1 l2 Hab _ IH]; [reflexivity|].
  simpl. now rewrite (HFG a b Hab), IH.
Qed.

(** The rounds of the [forEach] over properties that generate no
    sub-schema and are not optional. *)
Lemma flat_rounds msg (entries : list (string * OpenAPISchemaAdapter.Json)) :
  Forall (fun e => fst e <> "__proto__") entries ->
  forall done,
    List.NoDup (List.map fst (done ++ entries)) ->
    fold_left (OpenAPISchemaAdapter.propertyRound msg "Root")
      (List.map (fun e => (fst e, false, Some (Returned (snd e, [])))) entries)
      (Some (Returned
               [("Root",
                 OpenAPISchemaAdapter.JObject
                   [("type", OpenAPISchemaAdapter.JString "object");
                    ("properties", OpenAPISchemaAdapter.JObject done);
                    ("required",
                     OpenAPISchemaAdapter.JArray
                       (List.map (fun e => OpenAPISchemaAdapter.JString (fst e)) done))])]))
    = Some (Returned
              [("Root",
                OpenAPISchemaAdapter.JObject
                  [("type", OpenAPISchemaAdapter.JString "object");
                   ("properties", OpenAPISchemaAdapter.JObject (done ++ entries));
                   ("required",
                    OpenAPISchemaAdapter.JArray
                      (List.map (fun e => OpenAPISchemaAdapter.JString (fst e))
                         (done ++ entries)))])]).
Proof.
  induction entries as [|[k item] entries IH]; intros Hnames done Hnd.
  - simpl. now rewrite app_nil_r.
  - apply Forall_cons_1 in Hnames as [Hk Hnames]. cbn [fst] in Hk.
    cbn [List.map fold_left fst snd].
    assert (Hfresh : record_get k done = None).
    { rewrite map_app in Hnd. simpl in Hnd. apply NoDup_remove_2 in Hnd.
      destruct (record_get k done) as [j|] eqn:Hget; [|reflexivity].
      exfalso. apply Hnd. apply in_or_app. left.
      destruct (record_get_Some k done j j Hget) as (r1 & r2 & -> & _).
      rewrite map_app. apply in_or_app. right. now left. }
    destruct (record_get_None k done item Hfresh) as [_ Hset].
    assert (Hround :
      OpenAPISchemaAdapter.propertyRound msg "Root"
        (Some (Returned
                 [("Root",
                   OpenAPISchemaAdapter.JObject
                     [("type", OpenAPISchemaAdapter.JString "object");
                      ("properties", OpenAPISchemaAdapter.JObject done);
                      ("required",
                       OpenAPISchemaAdapter.JArray
                         (List.map (fun e => OpenAPISchemaAdapter.JString (fst e)) done))])]))
        (k, false, Some (Returned (item, [])))
      = Some (Returned
                [("Root",
                  OpenAPISchemaAdapter.JObject
                    [("type", OpenAPISchemaAdapter.JString "object");
                     ("properties", OpenAPISchemaAdapter.JObject (done ++ [(k, item)]));
                     ("required",
                      OpenAPISchemaAdapter.JArray
                        (List.map (fun e => OpenAPISchemaAdapter.JString (fst e))
                           (done ++ [(k, item)])))])])).
    { cbn. unfold OpenAPISchemaAdapter.set. cbn [OpenAPISchemaAdapter.members_of].
      rewrite (property_assign_other k item done Hk).
      rewrite Hset. cbn. rewrite List.map_app. reflexivity. }
    rewrite Hround. rewrite (IH Hnames (done ++ [(k, item)])%list).
    + rewrite <- !List.app_assoc. reflexivity.
    + rewrite <- List.app_assoc. exact Hnd.
Qed.

Lemma Forall2_combine {A B C : Type} (P : A -> B -> Prop) (Q : B -> C -> Prop)
    (l1 : list A) (l2 : list B) :
  Forall2 P l1 l2 ->
  forall l3, Forall2 Q l2 l3 ->
             Forall2 (fun a bc => P a (fst bc) /\ Q (fst bc) (snd bc)) l1 (combine l2 l3).
Proof.
  induction 1 as [|a b l1 l2 Hab _ IH]; intros l3 H3.
  - inversion H3. constructor.
  - inversion H3 as [|b' c l2' l3' Hbc Hrest]; subst. simpl. constructor; auto.
Qed.

Lemma combine_names {A B : Type} (f : A -> string) (l1 : list A) (l2 : list B) :
  List.length l1 = List.length l2 ->
  List.map fst (List.map (fun ab => (f (fst ab), snd ab)) (combine l1 l2)) = List.map f l1.
Proof.
  revert l2. induction l1 as [|a l1 IH]; intros [|b l2] Hlen; try discriminate;
    [reflexivity|].
  simpl. f_equal. apply IH. now injection Hlen.
Qed.

(** X21.  The OpenAPI schema of a flat object (enumerable data properties
    that hold primitives, under names that are not [__proto__], do not
    start with ["#"] and start with an ASCII character or are empty;
    symbol-keyed properties that hold primitives; a prototype all of whose
    members can be read): the only schema is [Root],
    an object schema whose [properties] lists every property in order with
    the schema of its value, and every property is [required]; an object
    without properties has no [required] member. *)
Theorem openapi_schema_of_flat_object msg config heap l o items :
  heap l = PlainObject o -> customHandler (TypeAnalyzer_new emptyPartial) o = None ->
  flat o ->
  Forall2 (fun q item =>
             OpenAPISchemaAdapter.capitalize (prop_name q) <> None
             /\ exists v r,
                  prop_slot q = DataProperty v
                  /\ analyzeRoot (TypeAnalyzer_new emptyPartial) heap v = Some (Returned r)
                  /\ OpenAPISchemaAdapter.switch (result_type r) = Some item)
    (ownProperties o) items ->
  let entries :=
    List.map (fun qi => (prop_name (fst qi), snd qi)) (combine (ownProperties o) items) in
  OpenAPISchemaAdapter.generateSchemaFromData msg config heap (VRef l)
  = Some (Returned
            (OpenAPISchemaAdapter.stringify EmptyString
               (OpenAPISchemaAdapter.document config
                  [("Root",
                    OpenAPISchemaAdapter.JObject
                      ([("type", OpenAPISchemaAdapter.JString "object");
                        ("properties", OpenAPISchemaAdapter.JObject entries)]
                       ++ match entries with
                          | [] => []
                          | _ =>
                              [("required",
                                OpenAPISchemaAdapter.JArray
                                  (List.map (fun e => OpenAPISchemaAdapter.JString (fst e))
                                     entries))]
                          end))]))).
Proof.
  intros Hl Hc Hflat Hitems entries.
  assert (Hd : depth rootContext <= maxDepth (TypeAnalyzer_new emptyPartial)).
  { rewrite default_maxDepth. simpl. lia. }
  assert (Hd' : forall k, depth (child_context rootContext k)
                          <= maxDepth (TypeAnalyzer_new emptyPartial)).
  { intros k. rewrite default_maxDepth. simpl. lia. }
  destruct (generic_object_analysis (TypeAnalyzer_new emptyPartial) heap l o rootContext ∅
              Hl ltac:(set_solver) Hc Hd Hflat) as (props & syms & proto & E).
  pose proof (flat_object_entries _ _ _ _ _ _ _ _ _ _ _ _
                default_includePrivateProps Hl Hc E Hflat) as Hentries.
  rewrite openapi_installed, analyzeRoot_unfold, E.
  cbn [option_map fst]. unfold OpenAPISchemaAdapter.generateSchema.
  cbn [OpenAPISchemaAdapter.generateComponentSchemas].
  assert (Hmap :
    List.map
      (fun kv =>
         (fst kv, OpenAPISchemaAdapter.isOptionalType (snd kv),
          match OpenAPISchemaAdapter.capitalize (fst kv) with
          | Some Name =>
              OpenAPISchemaAdapter.generatePropertySchema msg (snd kv) ("Root" ++ Name)
          | None => None
          end)) props
    = List.map (fun e => (fst e, false, Some (Returned (snd e, [])))) entries).
  { unfold entries. rewrite List.map_map.
    pose proof (Forall2_combine _ _ props (ownProperties o) Hentries items Hitems) as Hboth.
    eapply map_Forall2; [exact Hboth|].
    intros kv [q item] [(Hkey & v & v1 & v2 & Hslot & Hprim & Hv)
                          (Hcap & v' & r & Hslot' & Hroot & Hswitch)].
    cbn [fst snd] in *. rewrite Hslot in Hslot'. injection Hslot' as <-.
    rewrite analyzeRoot_unfold in Hroot.
    destruct (primitive_analysis (TypeAnalyzer_new emptyPartial) heap v rootContext ∅ Hprim)
      as (r0 & Hroot0).
    rewrite Hroot0 in Hroot. cbn [option_map fst] in Hroot. injection Hroot as ->.
    rewrite Hkey.
    destruct (OpenAPISchemaAdapter.capitalize (prop_name q)) as [Name|]; [|congruence].
    rewrite analyze_within_depth in Hv, Hroot0 by auto.
    destruct v; try discriminate; injection Hv as <- _; injection Hroot0 as <-;
      cbn [OpenAPISchemaAdapter.generatePropertySchema result_type] in *;
      rewrite Hswitch; reflexivity. }
  rewrite Hmap. unfold OpenAPISchemaAdapter.objectSchemas.
  assert (Hnd : List.NoDup (List.map fst ([] ++ entries))).
  { simpl. unfold entries. rewrite combine_names.
    - exact (proj1 Hflat).
    - eapply Forall2_length. exact Hitems. }
  assert (Hnames : Forall (fun e => fst e <> "__proto__") entries).
  { unfold entries. destruct Hflat as (_ & Hall & _). clear - Hall.
    apply Forall_map. revert items.
    induction Hall as [|q qs (_ & _ & Hq & _) _ IH]; intros [|item items];
      simpl; constructor; auto. }
  pose proof (flat_rounds msg entries Hnames [] Hnd) as Hfold.
  cbn [List.map app] in Hfold. rewrite Hfold.
  destruct entries as [|[k item] entries']; reflexivity.
Qed.

Lemma openapi_schema_of_flat_object_witness :
  exists text,
    OpenAPISchemaAdapter.generateSchemaFromData (fun property => property)
      (OpenAPISchemaAdapter.mkOpenAPIConfig "API" "1.0.0" None None) personHeap (VRef 1)
    = Some (Returned text).
Proof.
  eexists.
  apply (openapi_schema_of_flat_object (fun property => property)
           (OpenAPISchemaAdapter.mkOpenAPIConfig "API" "1.0.0" None None)
           personHeap 1%positive
           (objectLiteral [("name", VString "John"); ("age", VNumber 30); ("id", VBigInt 7)])
           [OpenAPISchemaAdapter.JObject [("type", OpenAPISchemaAdapter.JString "string")];
            OpenAPISchemaAdapter.JObject [("type", OpenAPISchemaAdapter.JString "number")];
            OpenAPISchemaAdapter.JObject []] eq_refl).
  - vm_compute. reflexivity.
  - split; [vm_compute; repeat constructor; simpl; intuition discriminate|].
    split; [|split; [constructor|reflexivity]].
    constructor; [|constructor; [|constructor; [|constructor]]];
      (split; [reflexivity|split; [reflexivity|split; [discriminate|]]]);
      eexists; split; reflexivity.
  - constructor; [split; [discriminate|do 2 eexists; split; [reflexivity|split;
                    [vm_compute; reflexivity|reflexivity]]]|].
    constructor; [split; [discriminate|do 2 eexists; split; [reflexivity|split;
                    [vm_compute; reflexivity|reflexivity]]]|].
    constructor; [split; [discriminate|do 2 eexists; split; [reflexivity|split;
                    [vm_compute; reflexivity|reflexivity]]]|constructor].
Defined.

(** ** The recursion gate of the Map and Set handlers *)

Lemma analyze_quiet config heap value context vis e vis' :
  built_ins_only config -> plain_heap heap -> plain_value value = true ->
  analyze config heap value context vis <> Some (Thrown e, vis').
Proof. intros Hbuilt Hheap Hv. now apply analyzeF_quiet. Qed.

(** On data whose thrown values all have a message, the handlers of the
    collections return. *)
Lemma collection_handler_returns config heap b o context vis :
  built_ins_only config -> plain_heap heap -> plain_slots (slots o) = true ->
  (exists entries, b = BuiltInMap /\ slots o = MapSlots entries)
  \/ (exists members, b = BuiltInSet /\ slots o = SetSlots members) ->
  exists r vis',
    apply_builtin config (analyze config heap) b o context vis = Some (Returned r, vis').
Proof.
  intros Hbuilt Hheap Hslots Hb.
  destruct (steady_apply_builtin config heap (analyze config heap) b o context
              (analyze_steady_call config heap _) vis) as ([r|e] & vis' & E & _);
    [eauto|exfalso].
  unfold apply_builtin in E.
  destruct Hb as [(entries & -> & Hs)|(members & -> & Hs)]; rewrite Hs in E, Hslots;
    (destruct (maxDepth config >? depth context); [|discriminate]);
    apply bind_thrown_inv in E as [E|(es & vis1 & _ & E)]; try discriminate;
    apply (map_each_thrown _ (fun _ => False)) in E; try exact E.
  - intros [k v] vis0 e0 vis0' Hin Hkv.
    simpl in Hslots. rewrite forallb_forall in Hslots.
    specialize (Hslots _ Hin). apply andb_true_iff in Hslots as [Hk Hv].
    apply bind_thrown_inv in Hkv as [Hkv|(rk & vis2 & _ & Hkv)].
    + exact (analyze_quiet _ _ _ _ _ _ _ Hbuilt Hheap Hk Hkv).
    + apply bind_thrown_inv in Hkv as [Hkv|(rv & vis3 & _ & Hkv)]; [|discriminate].
      exact (analyze_quiet _ _ _ _ _ _ _ Hbuilt Hheap Hv Hkv).
  - intros v vis0 e0 vis0' Hin Hv.
    simpl in Hslots. rewrite forallb_forall in Hslots.
    exact (analyze_quiet _ _ _ _ _ _ _ Hbuilt Hheap (Hslots _ Hin) Hv).
Qed.

(** C7.  The built-in Map handler attaches [entries], and the built-in Set
    handler [values], exactly when [context.depth] is strictly below
    [maxDepth]; [size] is reported in both cases.  At or past the bound the
    field is absent, the result does not depend on the recursive call at all
    (none is made) and the visited set is untouched.  Below the bound the
    handler always ends, and it returns exactly when the analysis of every
    key and every value (every member) returns: the field then holds the
    results of those very calls of [analyze], pair by pair and in order,
    each made one level deeper and started in the visited set the call
    before it left.  It does return, with the field attached, on all data
    in which every thrown value has a message, no handler of a caller
    being registered.  With [maxDepth = 1] the Map and the Set held by the
    properties of [collectionsHeap] are described by their size alone. *)
Theorem map_set_recursion_gate config heap o context vis :
  (forall entries, slots o = MapSlots entries ->
     (forall self, maxDepth config <= depth context ->
        apply_builtin config self BuiltInMap o context vis
        = Some (Returned (MapResult (Z.of_nat (List.length entries)) None (path context)), vis))
     /\ (depth context < maxDepth config ->
         (exists out vis',
             apply_builtin config (analyze config heap) BuiltInMap o context vis
             = Some (out, vis'))
         /\ (forall r vis',
               apply_builtin config (analyze config heap) BuiltInMap o context vis
               = Some (Returned r, vis') ->
               exists es,
                 r = MapResult (Z.of_nat (List.length entries)) (Some es) (path context)
                 /\ entries_analysed (analyze config heap)
                      (mkContext (depth context + 1) (path context)) entries vis es vis')
         /\ (forall es vis',
               entries_analysed (analyze config heap)
                 (mkContext (depth context + 1) (path context)) entries vis es vis' ->
               apply_builtin config (analyze config heap) BuiltInMap o context vis
               = Some (Returned (MapResult (Z.of_nat (List.length entries)) (Some es)
                                   (path context)), vis')
               /\ List.length es = List.length entries)
         /\ (built_ins_only config -> plain_heap heap -> plain_slots (slots o) = true ->
             exists es vis',
               apply_builtin config (analyze config heap) BuiltInMap o context vis
               = Some (Returned (MapResult (Z.of_nat (List.length entries)) (Some es)
                                   (path context)), vis'))))
  /\ (forall members, slots o = SetSlots members ->
        (forall self, maxDepth config <= depth context ->
           apply_builtin config self BuiltInSet o context vis
           = Some (Returned (SetResult (Z.of_nat (List.length members)) None (path context)),
                   vis))
        /\ (depth context < maxDepth config ->
            (exists out vis',
                apply_builtin config (analyze config heap) BuiltInSet o context vis
                = Some (out, vis'))
            /\ (forall r vis',
                  apply_builtin config (analyze config heap) BuiltInSet o context vis
                  = Some (Returned r, vis') ->
                  exists vs,
                    r = SetResult (Z.of_nat (List.length members)) (Some vs) (path context)
                    /\ members_analysed (analyze config heap)
                         (mkContext (depth context + 1) (path context)) members vis vs vis')
            /\ (forall vs vis',
                  members_analysed (analyze config heap)
                    (mkContext (depth context + 1) (path context)) members vis vs vis' ->
                  apply_builtin config (analyze config heap) BuiltInSet o context vis
                  = Some (Returned (SetResult (Z.of_nat (List.length members)) (Some vs)
                                      (path context)), vis')
                  /\ List.length vs = List.length members)
            /\ (built_ins_only config -> plain_heap heap -> plain_slots (slots o) = true ->
                exists vs vis',
                  apply_builtin config (analyze config heap) BuiltInSet o context vis
                  = Some (Returned (SetResult (Z.of_nat (List.length members)) (Some vs)
                                      (path context)), vis'))))
  /\ analyzeRoot (TypeAnalyzer_new (withMaxDepth 1)) collectionsHeap (VRef 1)
     = Some (Returned
               (ObjectResult "Object"
                  [ ("m", MapResult 1 None [KeyString "m"]);
                    ("s", SetResult 1 None [KeyString "s"]) ]
                  None None [])).
Proof.
  split; [|split; [|vm_compute; reflexivity]].
  - intros entries Hs. split.
    + intros self Hd. unfold apply_builtin. rewrite Hs.
      destruct (Z.gtb_spec (maxDepth config) (depth context)); [lia|reflexivity].
    + intros Hd.
      assert (Hreturned : forall r vis',
                 apply_builtin config (analyze config heap) BuiltInMap o context vis
                 = Some (Returned r, vis') ->
                 exists es,
                   r = MapResult (Z.of_nat (List.length entries)) (Some es) (path context)
                   /\ entries_analysed (analyze config heap)
                        (mkContext (depth context + 1) (path context)) entries vis es vis').
      { intros r vis' E. unfold apply_builtin in E. rewrite Hs in E.
        destruct (Z.gtb_spec (maxDepth config) (depth context)); [|lia].
        apply bind_returned in E as (es & vis1 & Hes & E).
        apply ret_returned in E as [<- <-].
        exists es. split; [reflexivity|]. now apply map_each_entries. }
      split; [|split; [exact Hreturned|split]].
      * destruct (steady_apply_builtin config heap (analyze config heap) BuiltInMap o context
                    (analyze_steady_call config heap _) vis) as (out & vis' & E & _).
        now exists out, vis'.
      * intros es vis' Hes. split; [|now apply entries_analysed_length in Hes].
        unfold apply_builtin. rewrite Hs.
        destruct (Z.gtb_spec (maxDepth config) (depth context)); [|lia].
        apply map_each_entries in Hes. now rewrite (bind_step _ _ _ _ _ Hes).
      * intros Hbuilt Hheap Hplain.
        destruct (collection_handler_returns config heap BuiltInMap o context vis
                    Hbuilt Hheap Hplain) as (r & vis' & E); [left; eauto|].
        destruct (Hreturned r vis' E) as (es & -> & _). eauto.
  - intros members Hs. split.
    + intros self Hd. unfold apply_builtin. rewrite Hs.
      destruct (Z.gtb_spec (maxDepth config) (depth context)); [lia|reflexivity].
    + intros Hd.
      assert (Hreturned : forall r vis',
                 apply_builtin config (analyze config heap) BuiltInSet o context vis
                 = Some (Returned r, vis') ->
                 exists vs,
                   r = SetResult (Z.of_nat (List.length members)) (Some vs) (path context)
                   /\ members_analysed (analyze config heap)
                        (mkContext (depth context + 1) (path context)) members vis vs vis').
      { intros r vis' E. unfold apply_builtin in E. rewrite Hs in E.
        destruct (Z.gtb_spec (maxDepth config) (depth context)); [|lia].
        apply bind_returned in E as (vs & vis1 & Hvs & E).
        apply ret_returned in E as [<- <-].
        exists vs. split; [reflexivity|]. now apply map_each_members. }
      split; [|split; [exact Hreturned|split]].
      * destruct (steady_apply_builtin config heap (analyze config heap) BuiltInSet o context
                    (analyze_steady_call config heap _) vis) as (out & vis' & E & _).
        now exists out, vis'.
      * intros vs vis' Hvs. split; [|now apply members_analysed_length in Hvs].
        unfold apply_builtin. rewrite Hs.
        destruct (Z.gtb_spec (maxDepth config) (depth context)); [|lia].
        apply map_each_members in Hvs. now rewrite (bind_step _ _ _ _ _ Hvs).
      * intros Hbuilt Hheap Hplain.
        destruct (collection_handler_returns config heap BuiltInSet o context vis
                    Hbuilt Hheap Hplain) as (r & vis' & E); [right; eauto|].
        destruct (Hreturned r vis' E) as (vs & -> & _). eauto.
Qed.

Lemma map_set_recursion_gate_witness :
  apply_builtin defaultConfig (analyze defaultConfig collectionsHeap) BuiltInMap
    (builtInObject "Map" (MapSlots [(VString "k", VNumber 1)]))
    (mkContext 1 [KeyString "m"]) ∅
  = Some (Returned
            (MapResult 1
               (Some [ (PrimitiveResult "string" (PString "k") [KeyString "m"],
                        PrimitiveResult "number" (PNumber 1) [KeyString "m"]) ])
               [KeyString "m"]), ∅).
Proof.
  assert (Hd : depth (mkContext 1 [KeyString "m"]) < maxDepth defaultConfig).
  { vm_compute. reflexivity. }
  refine (proj1 (proj1 (proj2 (proj2 (proj2 (proj1 (map_set_recursion_gate defaultConfig
            collectionsHeap (builtInObject "Map" (MapSlots [(VString "k", VNumber 1)]))
            (mkContext 1 [KeyString "m"]) ∅) [(VString "k", VNumber 1)] eq_refl) Hd)))
            _ ∅ _)).
  eapply entries_next; [vm_compute; reflexivity|vm_compute; reflexivity|constructor].
Defined.
